(** * vc-test: the SEO content difference engine, embedded in Rocq

    A shallow embedding of [src/engine] (models, extractor, differ,
    fetchers, job runner, storage) and of the input reading of [src/cli],
    together with the properties the specification states about them and
    further properties read off the code.

    Conventions of the embedding:
    - Python [str] is [string]; [lower], [strip] and [split] act on the
      ASCII range (upper-case letters, the ASCII white space characters),
      other characters are left alone.
    - Python [int] is [Z]. The [float] percentages come twice: in
      [Models] as exact rationals [Q], with [round(x, 2)] as rounding to
      the nearest hundredth, ties to the even hundredth, which is what the
      bounds on them are proved for; and in [Binary64] as the binary64
      floats the interpreter computes, each operation rounded to the
      nearest float.
    - A raised exception is the [Raise] constructor of [result]; the
      exceptions of [exn] are instances of [Exception]. A task that ends
      with [CancelledError], which is none, is an outcome of its own in
      [JobRunner.run_job].
    - A Python [set] of strings is a [gset string]; the order in which
      [list(s)] enumerates it is a parameter, since it is fixed by the hash
      table and not by the program.
    - The interpreter's bound on nested calls is an explicit budget of
      frames: a call made with no frame left raises [RecursionError].
    - The parsed document (what [BeautifulSoup(html, "lxml")] delivers) is
      a finite tree of elements, text nodes and comments. *)

From Stdlib Require Import String Ascii List ZArith QArith Qround Qabs Lqa Lia Bool.
From Stdlib Require Floats.SpecFloat.
From stdpp Require Import gmap strings list sorting pretty.

Open Scope string_scope.
Set Warnings "-register-all,-clear-no-such-hyp".

(** ** Python string operations *)

Module Py.

Definition is_space (c : ascii) : bool :=
  let n := nat_of_ascii c in
  ((9 <=? n)%nat && (n <=? 13)%nat) || ((28 <=? n)%nat && (n <=? 32)%nat).

Definition is_upper (c : ascii) : bool :=
  let n := nat_of_ascii c in (65 <=? n)%nat && (n <=? 90)%nat.

Definition lower_char (c : ascii) : ascii :=
  if is_upper c then ascii_of_nat (nat_of_ascii c + 32) else c.

(** [s.lower()] *)
Fixpoint lower (s : string) : string :=
  match s with
  | EmptyString => EmptyString
  | String c s' => String (lower_char c) (lower s')
  end.

(** [s.lstrip()] *)
Fixpoint lstrip (s : string) : string :=
  match s with
  | EmptyString => EmptyString
  | String c s' => if is_space c then lstrip s' else s
  end.

(** [s.rstrip()] *)
Fixpoint rstrip (s : string) : string :=
  match s with
  | EmptyString => EmptyString
  | String c s' =>
      match rstrip s' with
      | EmptyString => if is_space c then EmptyString else String c EmptyString
      | r => String c r
      end
  end.

(** [s.strip()] *)
Definition strip (s : string) : string := rstrip (lstrip s).

(** [s.startswith(p)] *)
Definition startswith (s p : string) : bool := String.prefix p s.

(** [s.startswith((p1, p2, ...))] *)
Definition startswith_any (s : string) (ps : list string) : bool :=
  existsb (startswith s) ps.

(** [sub in s] *)
Fixpoint contains (sub s : string) : bool :=
  String.prefix sub s ||
  match s with
  | EmptyString => false
  | String _ s' => contains sub s'
  end.

(** [sep.join(l)] *)
Definition join (sep : string) (l : list string) : string := String.concat sep l.

(** [s.split()]: the maximal runs of characters that are not white space.
    [w] is the word read so far. *)
Fixpoint split_go (w : string) (s : string) : list string :=
  match s with
  | EmptyString => match w with EmptyString => [] | _ => [w] end
  | String c s' =>
      if is_space c
      then match w with
           | EmptyString => split_go EmptyString s'
           | _ => w :: split_go EmptyString s'
           end
      else split_go (w +:+ String c EmptyString) s'
  end.

Definition split (s : string) : list string := split_go EmptyString s.

(** [s.replace(old, new)] for a non-empty [old]: occurrences are found from
    the left and do not overlap. [skip] counts the characters of the
    occurrence just replaced that are still to be passed over. *)
Fixpoint replace_go (old new : string) (skip : nat) (s : string) : string :=
  match s with
  | EmptyString => EmptyString
  | String c s' =>
      match skip with
      | S k => replace_go old new k s'
      | O =>
          if String.prefix old s
          then new +:+ replace_go old new (String.length old - 1) s'
          else String c (replace_go old new 0 s')
      end
  end.

Definition replace (old new s : string) : string := replace_go old new 0 s.

(** [s.removeprefix(p)], used only to phrase the specification's
    "strip a leading www.". [strip_prefix p s] is what follows [p] in [s]
    when [s] starts with [p]. *)
Fixpoint strip_prefix (p s : string) : option string :=
  match p, s with
  | EmptyString, _ => Some s
  | String a p', String b s' => if Ascii.eqb a b then strip_prefix p' s' else None
  | String _ _, EmptyString => None
  end.

Definition removeprefix (p s : string) : string :=
  match strip_prefix p s with
  | Some rest => rest
  | None => s
  end.

(** The character [c] does not occur in [s]. *)
Fixpoint free_of (c : ascii) (s : string) : bool :=
  match s with
  | EmptyString => true
  | String x s' => negb (Ascii.eqb x c) && free_of c s'
  end.

(** A token: a string without white space that is not empty. *)
Fixpoint no_space (s : string) : bool :=
  match s with
  | EmptyString => true
  | String c s' => negb (is_space c) && no_space s'
  end.

Definition is_token (s : string) : bool := no_space s && negb (String.eqb s "").

(** [s] does not begin with white space. *)
Definition starts_clean (s : string) : bool :=
  match s with
  | EmptyString => true
  | String c _ => negb (is_space c)
  end.

(** [l.index(x)]: the position of the first occurrence of [x]. For an [x]
    that is not in [l] Python raises [ValueError]; the model answers the
    length of [l]. *)
Fixpoint index_of (x : string) (l : list string) : nat :=
  match l with
  | [] => 0
  | y :: l' => if String.eqb y x then 0 else S (index_of x l')
  end.

(** [sorted(l, key=key)], a stable sort: elements with the same key keep
    their order. *)
Section Sorted.
Context {A : Type}.
Variable key : A -> nat.

Fixpoint insert_by (x : A) (l : list A) : list A :=
  match l with
  | [] => [x]
  | y :: l' => if (key x <=? key y)%nat then x :: y :: l' else y :: insert_by x l'
  end.

Definition sorted_by (l : list A) : list A := fold_right insert_by [] l.

(** The order a list sorted by [key] is in. *)
Definition by_key (x y : A) : Prop := key x <= key y.
End Sorted.

(** [str(n)] for an integer. *)
Definition str_int (n : Z) : string := pretty n.

End Py.

(** ** Exceptions *)

Inductive exn : Type :=
| ValueError (msg : string)
| RecursionError
| PlaywrightTimeoutError
| OtherError (msg : string).

(** [str(e)] *)
Definition exn_str (e : exn) : string :=
  match e with
  | ValueError m => m
  | RecursionError => "maximum recursion depth exceeded"
  | PlaywrightTimeoutError => "Timeout exceeded"
  | OtherError m => m
  end.

Inductive result (A : Type) : Type :=
| Ok (a : A)
| Raise (e : exn).
Arguments Ok {A} a.
Arguments Raise {A} e.

#[global] Instance result_ret : MRet result := fun A a => Ok a.
#[global] Instance result_bind : MBind result := fun A B k r =>
  match r with
  | Ok a => k a
  | Raise e => Raise e
  end.

Definition returns {A} (r : result A) : Prop := exists a, r = Ok a.

(** ** models.py *)

Module Models.

Record URLInput := mkURLInput { url : string }.

(** [URLInput.__post_init__] *)
Definition URLInput_post_init (self_url : string) : result unit :=
  if String.eqb self_url ""
  then Raise (ValueError ("URL must be a non-empty string: " +:+ self_url))
  else
    let url_lower := Py.strip (Py.lower self_url) in
    if negb (Py.startswith_any url_lower ["http://"; "https://"])
    then Raise (ValueError ("URL must start with http:// or https://: " +:+ self_url))
    else Ok tt.

(** [URLInput(url)]: the dataclass constructor followed by the validation
    hook. *)
Definition new_URLInput (u : string) : result URLInput :=
  _ ← URLInput_post_init u; Ok (mkURLInput u).

(** [RawFetchResult] *)
Record RawFetchResult := mkRawFetchResult {
  raw_url : string;
  raw_original_url : string;
  status_code : Z;
  headers : gmap string string;
  raw_html : string;
  raw_fetch_time_ms : Z }.

(** [RawFetchResult.success] *)
Definition raw_success (r : RawFetchResult) : bool :=
  (200 <=? status_code r)%Z && (status_code r <? 300)%Z.

(** [RenderedFetchResult] *)
Record RenderedFetchResult := mkRenderedFetchResult {
  rendered_url : string;
  rendered_original_url : string;
  rendered_html : string;
  rendered_success : bool;
  rendered_fetch_time_ms : Z;
  error_message : option string }.

(** One entry of [internal_links]: the dict with keys [href] and
    [anchor_text]. *)
Record Link := mkLink { href : string; anchor_text : string }.

(** [ExtractedContent] *)
Record ExtractedContent := mkExtractedContent {
  visible_text : string;
  headings : list string;
  internal_links : list Link }.

Definition word_count (c : ExtractedContent) : Z :=
  Z.of_nat (length (Py.split (visible_text c))).
Definition heading_count (c : ExtractedContent) : Z :=
  Z.of_nat (length (headings c)).
Definition internal_link_count (c : ExtractedContent) : Z :=
  Z.of_nat (length (internal_links c)).

(** [round(x, 2)] on the exact value: the nearest hundredth, a tie going
    to the even one. *)
Definition round_half_even (x : Q) : Z :=
  let f := Qfloor x in
  match Qcompare (x - inject_Z f) (1 # 2) with
  | Lt => f
  | Gt => (f + 1)%Z
  | Eq => if Z.even f then f else (f + 1)%Z
  end.

Definition round2 (x : Q) : Q := inject_Z (round_half_even (x * 100)) / 100.

(** [DifferenceReport] *)
Record DifferenceReport := mkDifferenceReport {
  text_only_with_js : list string;
  text_only_without_js : list string;
  headings_missing_without_js : list string;
  headings_extra_without_js : list string;
  internal_links_missing_without_js : list Link;
  internal_links_extra_without_js : list Link;
  raw_word_count : Z;
  rendered_word_count : Z;
  raw_heading_count : Z;
  rendered_heading_count : Z;
  raw_internal_link_count : Z;
  rendered_internal_link_count : Z }.

(** [DifferenceReport.word_count_delta] *)
Definition word_count_delta (d : DifferenceReport) : Z :=
  (rendered_word_count d - raw_word_count d)%Z.

(** [DifferenceReport.word_count_percentage_change] *)
Definition word_count_percentage_change (d : DifferenceReport) : Q :=
  if (raw_word_count d =? 0)%Z then 0
  else round2 ((inject_Z (word_count_delta d) / inject_Z (raw_word_count d)) * 100).

(** [DifferenceReport.content_invisible_without_js_percentage] *)
Definition content_invisible_without_js_percentage (d : DifferenceReport) : Q :=
  if (rendered_word_count d =? 0)%Z then 0
  else if (raw_word_count d >=? rendered_word_count d)%Z then 0
  else round2
         ((inject_Z (rendered_word_count d - raw_word_count d)
           / inject_Z (rendered_word_count d)) * 100).

(** [URLAnalysis] *)
Record URLAnalysis := mkURLAnalysis {
  analysis_url : string;
  final_url : string;
  http_status : Z;
  raw_fetch : option RawFetchResult;
  rendered_fetch : option RenderedFetchResult;
  raw_content : option ExtractedContent;
  rendered_content : option ExtractedContent;
  differences : option DifferenceReport;
  fetch_errors : list string;
  render_errors : list string;
  extraction_errors : list string }.

Definition is_nil {A} (l : list A) : bool :=
  match l with [] => true | _ => false end.

(** [URLAnalysis.success] *)
Definition success (a : URLAnalysis) : bool :=
  is_nil (fetch_errors a) && is_nil (render_errors a)
  && is_nil (extraction_errors a)
  && match raw_content a with Some _ => true | None => false end.

(** [URLAnalysis.has_differences] *)
Definition has_differences (a : URLAnalysis) : bool :=
  match differences a with
  | None => false
  | Some d =>
      negb (is_nil (text_only_with_js d))
      || negb (is_nil (text_only_without_js d))
      || negb (is_nil (headings_missing_without_js d))
      || negb (is_nil (headings_extra_without_js d))
      || negb (is_nil (internal_links_missing_without_js d))
      || negb (is_nil (internal_links_extra_without_js d))
  end.

(** [JobResult]; the two timestamps are readings of the clock. *)
Record JobResult := mkJobResult {
  started_at : Z;
  finished_at : option Z;
  urls_processed : Z;
  urls_succeeded : Z;
  urls_failed : Z;
  results : list URLAnalysis }.

(** [JobResult.success_rate] *)
Definition success_rate (j : JobResult) : Q :=
  if (urls_processed j =? 0)%Z then 0
  else round2 ((inject_Z (urls_succeeded j) / inject_Z (urls_processed j)) * 100).

(** [JobResult.total_errors] *)
Definition total_errors (j : JobResult) : Z := urls_failed j.

(** [JobResult.get_failed_analyses] *)
Definition get_failed_analyses (j : JobResult) : list URLAnalysis :=
  List.filter (fun result => negb (success result)) (results j).

(** [JobResult.get_analyses_with_differences] *)
Definition get_analyses_with_differences (j : JobResult) : list URLAnalysis :=
  List.filter has_differences (results j).

End Models.

(** ** The floats of the interpreter *)

(** Python's [float] is the IEEE 754 binary64 format, every operation
    rounding to the nearest value, a tie going to the even mantissa. The
    definitions of [Models] above take the percentages in exact
    arithmetic; here they are as the interpreter computes them. *)
Module Binary64.
Import Models.

Definition prec : Z := 53.
Definition emax : Z := 1024.

Definition float : Type := SpecFloat.spec_float.

(** An integer as the pair of a mantissa and the exponent 0, not yet
    rounded. *)
Definition exact (n : Z) : float :=
  match n with
  | Z0 => SpecFloat.S754_zero false
  | Zpos p => SpecFloat.S754_finite false p 0
  | Zneg p => SpecFloat.S754_finite true p 0
  end.

(** [float(n)] for an integer [n] *)
Definition float_of_int (n : Z) : float := SpecFloat.binary_normalize prec emax n 0 false.

(** [a / b] for two integers: the quotient of the two numbers, rounded
    once. *)
Definition truediv (a b : Z) : result float :=
  if (b =? 0)%Z then Raise (OtherError "division by zero")
  else
    match SpecFloat.SFdiv prec emax (exact a) (exact b) with
    | SpecFloat.S754_infinity _ =>
        Raise (OtherError "integer division result too large for a float")
    | q => Ok q
    end.

(** [x * y] for two floats *)
Definition mul (x y : float) : float := SpecFloat.SFmul prec emax x y.

(** The number a float stands for. *)
Definition float_value (x : float) : Q :=
  match x with
  | SpecFloat.S754_finite s m e =>
      ((if s then -1 else 1) * inject_Z (Zpos m) * Qpower 2 e)%Q
  | _ => 0%Q
  end.

(** [round(x, 2)]: the number [x] stands for is rounded to the nearest
    hundredth, a tie going to the even one, and the float nearest to that
    decimal is returned; infinities and NaN are returned as they are. *)
Definition round_2 (x : float) : float :=
  match x with
  | SpecFloat.S754_finite s _ _ =>
      match round_half_even (float_value x * 100) with
      | Z0 => SpecFloat.S754_zero s
      | n => SpecFloat.SFdiv prec emax (exact n) (exact 100)
      end
  | _ => x
  end.

(** [0.0] *)
Definition zero : float := SpecFloat.S754_zero false.

(** [DifferenceReport.content_invisible_without_js_percentage] *)
Definition content_invisible_without_js_percentage (d : DifferenceReport) : result float :=
  if (rendered_word_count d =? 0)%Z then Ok zero
  else if (raw_word_count d >=? rendered_word_count d)%Z then Ok zero
  else
    quotient ← truediv (rendered_word_count d - raw_word_count d) (rendered_word_count d);
    Ok (round_2 (mul quotient (float_of_int 100))).

(** The percentage in the words of the specification, with the rounding
    of the code, for comparison with the property above. *)
Definition invisible_share (raw rendered : Z) : result float :=
  if (raw <? rendered)%Z
  then quotient ← truediv (rendered - raw) rendered;
       Ok (round_2 (mul quotient (float_of_int 100)))
  else Ok zero.

End Binary64.

(** ** The parsed document *)

Module Dom.

(** A node of the tree BeautifulSoup builds: a [NavigableString], a
    [Comment] (a subclass of [NavigableString]) or a [Tag]. Attribute
    values are the strings of the markup; the parser hands out [class] as
    the list of its white-space separated tokens. The root object, the
    [BeautifulSoup] itself, is a tag named [[document]] without
    attributes. *)
Inductive node : Type :=
| Text (s : string)
| Comment (s : string)
| Element (name : string) (attrs : gmap string string) (children : list node).

(** Induction on documents, with the hypothesis for every child of a
    tag. *)
Section NodeInduction.
Variable P : node -> Prop.
Hypothesis P_text : forall s, P (Text s).
Hypothesis P_comment : forall s, P (Comment s).
Hypothesis P_element : forall nm attrs cs, Forall P cs -> P (Element nm attrs cs).

Fixpoint node_forall_ind (n : node) : P n :=
  match n with
  | Text s => P_text s
  | Comment s => P_comment s
  | Element nm attrs cs =>
      P_element nm attrs cs
        ((fix go (l : list node) : Forall P l :=
            match l with
            | [] => @List.Forall_nil node P
            | c :: l' => @List.Forall_cons node P c l' (node_forall_ind c) (go l')
            end) cs)
  end.
End NodeInduction.

(** What the code reads from a tag once it has it in hand. *)
Record tag := mkTag { tag_name : string; tag_attrs : gmap string string }.

Definition soup_of (children : list node) : node :=
  Element "[document]" ∅ children.

(** [element.get(key, "")] *)
Definition get (attrs : gmap string string) (key : string) : string :=
  default "" (attrs !! key).

(** [element.get("class", [])] *)
Definition get_class (attrs : gmap string string) : list string :=
  match attrs !! "class" with
  | Some v => Py.split v
  | None => []
  end.

(** The strings [get_text] visits below a node, in document order;
    comments are not among them. *)
Fixpoint strings (n : node) : list string :=
  match n with
  | Text s => [s]
  | Comment _ => []
  | Element _ _ cs => flat_map strings cs
  end.

(** [element.get_text()] *)
Definition get_text (n : node) : string := Py.join "" (strings n).

Definition nonempty (s : string) : bool := negb (String.eqb s "").

(** [element.get_text(strip=True)]: every string stripped, the empty ones
    skipped. *)
Definition get_text_strip (n : node) : string :=
  Py.join "" (List.filter nonempty (map Py.strip (strings n))).

(** The tags below a node, in document order (what [find_all] walks). *)
Fixpoint descendants (n : node) : list node :=
  match n with
  | Element _ _ cs => flat_map (fun c => c :: descendants c) cs
  | _ => []
  end.

Definition is_named (p : string -> bool) (n : node) : bool :=
  match n with
  | Element nm _ _ => p nm
  | _ => false
  end.

(** [soup.find_all(name)] *)
Definition find_all (name : string) (soup : node) : list node :=
  List.filter (is_named (String.eqb name)) (descendants soup).

(** [soup.find_all(string=True)], each string with its chain of enclosing
    tags, the parent first and the root last. *)
Fixpoint find_all_strings (chain : list tag) (n : node) : list (list tag * string) :=
  match n with
  | Text s => [(chain, s)]
  | Comment s => [(chain, s)]
  | Element nm at_ cs => flat_map (find_all_strings (mkTag nm at_ :: chain)) cs
  end.

(** Detaching every node that [drop] selects, with all below it
    ([decompose], [extract]). The walk is top-down, so a node inside a
    detached subtree is gone with it. [prune_children] treats the children
    of one tag, [below] being the walk one level down. *)
Section PruneChildren.
Variable drop : node -> bool.
Variable below : node -> node.

Fixpoint prune_children (l : list node) : list node :=
  match l with
  | [] => []
  | c :: l' => if drop c then prune_children l' else below c :: prune_children l'
  end.
End PruneChildren.

Fixpoint prune (drop : node -> bool) (n : node) : node :=
  match n with
  | Element nm at_ cs => Element nm at_ (prune_children drop (prune drop) cs)
  | _ => n
  end.

(** Nesting depth of the tags of a document, the root counted. *)
Fixpoint depth (n : node) : nat :=
  match n with
  | Element _ _ cs => S (fold_right (fun c d => Nat.max (depth c) d) 0 cs)
  | _ => 0
  end.

(** Every tag has a name, as the parser guarantees. *)
Definition named (t : tag) : Prop := nonempty (tag_name t) = true.

Fixpoint well_named (n : node) : bool :=
  match n with
  | Element nm _ cs => nonempty nm && forallb well_named cs
  | _ => true
  end.

End Dom.

(** ** extractor.py *)

Module Extractor.
Import Dom Models.

Definition IGNORED_TAGS : gset string :=
  list_to_set
    ["script"; "style"; "noscript"; "iframe"; "svg"; "path"; "circle";
     "rect"; "polygon"; "line"; "ellipse"; "defs"; "use"; "g"; "symbol";
     "marker"; "pattern"; "filter"; "mask"; "clippath"; "textpath"].

Definition HEADING_TAGS : list string := ["h1"; "h2"; "h3"; "h4"; "h5"; "h6"].

(** The two forms of attribute test the banner selectors use:
    [[attr*='sub']] and [[attr='value']]. *)
Inductive attr_test : Type :=
| AttrContains (attr sub : string)
| AttrEquals (attr value : string).

(** A compound selector is the conjunction of its tests. *)
Definition COOKIE_BANNER_SELECTORS : list (list attr_test) :=
  [ [AttrContains "id" "cookie"];
    [AttrContains "class" "cookie"];
    [AttrContains "id" "consent"];
    [AttrContains "class" "consent"];
    [AttrContains "id" "gdpr"];
    [AttrContains "class" "gdpr"];
    [AttrEquals "role" "dialog"; AttrContains "id" "cookie"] ].

(** The value a selector sees: a token list is joined with spaces. *)
Definition selector_value (attrs : gmap string string) (attr : string) : option string :=
  if String.eqb attr "class"
  then match attrs !! "class" with
       | Some _ => Some (Py.join " " (get_class attrs))
       | None => None
       end
  else attrs !! attr.

Definition attr_test_holds (attrs : gmap string string) (t : attr_test) : bool :=
  match t with
  | AttrContains a sub =>
      match selector_value attrs a with
      | Some v => Py.contains sub v
      | None => false
      end
  | AttrEquals a value =>
      match selector_value attrs a with
      | Some v => String.eqb v value
      | None => false
      end
  end.

(** Membership of an element in [soup.select(selector)]. *)
Definition selected (selector : list attr_test) (n : node) : bool :=
  match n with
  | Element _ attrs _ => forallb (attr_test_holds attrs) selector
  | _ => false
  end.

Definition BANNER_WORDS : list string :=
  ["cookie"; "consent"; "privacy"; "accept"; "reject"].

Definition looks_like_banner (n : node) : bool :=
  let element_text := Py.lower (get_text n) in
  existsb (fun word => Py.contains word element_text) BANNER_WORDS.

Definition is_comment (n : node) : bool :=
  match n with Comment _ => true | _ => false end.

(** [_remove_ignored_elements]: the three passes over the tree, the last
    one once per selector. *)
Definition _remove_ignored_elements (soup : node) : node :=
  let soup := prune (is_named (fun nm => bool_decide (nm ∈ IGNORED_TAGS))) soup in
  let soup := prune is_comment soup in
  fold_left
    (fun soup selector =>
       prune (fun element => selected selector element && looks_like_banner element) soup)
    COOKIE_BANNER_SELECTORS soup.

(** [re.sub(r"\s+", " ", text)] *)
Fixpoint collapse_ws (in_run : bool) (s : string) : string :=
  match s with
  | EmptyString => EmptyString
  | String c s' =>
      if Py.is_space c
      then if in_run then collapse_ws true s'
           else String " "%char (collapse_ws true s')
      else String c (collapse_ws false s')
  end.

(** [_normalize_whitespace]. After the first substitution the text holds
    no line break, so the second one, which removes white space at the
    edges of lines, removes it at the two ends of the text. *)
Definition _normalize_whitespace (text : string) : string :=
  Py.strip (collapse_ws false text).

(** The marks that make one tag hidden. *)
Definition marked_hidden (element : tag) : bool :=
  let style := Py.lower (get (tag_attrs element) "style") in
  let class_attr := Py.lower (Py.join " " (get_class (tag_attrs element))) in
  let aria_hidden := Py.lower (get (tag_attrs element) "aria-hidden") in
  Py.contains "display:none" style
  || Py.contains "visibility:hidden" style
  || Py.contains "hidden" class_attr
  || String.eqb aria_hidden "true".

(** [_is_element_visible]. The element is the head of [chain] and its
    parents follow; the empty chain stands for an argument that is not a
    tag. [frames] is the number of nested calls still allowed. *)
Fixpoint _is_element_visible (frames : nat) (chain : list tag) : result bool :=
  match frames with
  | O => Raise RecursionError
  | S frames' =>
      match chain with
      | [] => Ok true
      | element :: parents =>
          if marked_hidden element then Ok false
          else
            match parents with
            | [] => Ok true
            | parent :: _ =>
                if nonempty (tag_name parent)
                then _is_element_visible frames' parents
                else Ok true
            end
      end
  end.

(** A string none of whose enclosing tags is marked. *)
Definition unmarked (entry : list tag * string) : bool :=
  negb (existsb marked_hidden entry.1).

(** The loop of [_extract_visible_text] over the strings of the page. *)
Fixpoint visible_parts (frames : nat) (l : list (list tag * string)) : result (list string) :=
  match l with
  | [] => Ok []
  | (chain, element) :: l' =>
      match chain with
      | [] => visible_parts frames l'
      | _ =>
          visible ← _is_element_visible frames chain;
          rest ← visible_parts frames l';
          Ok (if visible : bool then element :: rest else rest)
      end
  end.

(** [_extract_visible_text] *)
Definition _extract_visible_text (frames : nat) (soup : node) : result string :=
  text_parts ← visible_parts frames (find_all_strings [] soup);
  let full_text := Py.join " " text_parts in
  let normalized := _normalize_whitespace full_text in
  Ok (Py.strip normalized).

(** [_extract_headings] *)
Definition _extract_headings (soup : node) : list string :=
  flat_map
    (fun heading_tag =>
       flat_map
         (fun element =>
            let text := get_text_strip element in
            if nonempty text then [text] else [])
         (find_all heading_tag soup))
    HEADING_TAGS.

(** The headings as the document has them, from first to last, for
    comparison with [_extract_headings]: the texts, not empty, of the tags
    named h1 to h6. *)
Definition is_heading (n : node) : bool :=
  is_named (fun nm => existsb (fun heading_tag => String.eqb heading_tag nm) HEADING_TAGS) n.

Definition headings_in_document_order (soup : node) : list string :=
  List.filter nonempty (map get_text_strip (List.filter is_heading (descendants soup))).

(** What the loop of [_extract_headings] appends for one tag. *)
Definition heading_text (element : node) : list string :=
  let text := get_text_strip element in if nonempty text then [text] else [].

(** A tag with one of the names in [IGNORED_TAGS]. *)
Definition ignored (n : node) : bool :=
  is_named (fun nm => bool_decide (nm ∈ IGNORED_TAGS)) n.

Section WithUrllib.

(** [urllib.parse]: [urljoin(base, url)] and [urlparse(url).netloc]. Both
    raise [ValueError] on some malformed URLs. *)
Variable urljoin : string -> string -> result string.
Variable urlparse_netloc : string -> result string.

(** The [ContentExtractor] object. *)
Record ContentExtractor := mkContentExtractor { base_url : option string }.

(** Truth value of [self.base_url]. *)
Definition base_url_given (self : ContentExtractor) : option string :=
  match base_url self with
  | Some b => if nonempty b then Some b else None
  | None => None
  end.

(** [_is_internal_link] *)
Definition _is_internal_link (self : ContentExtractor) (href : string) : bool :=
  match base_url_given self with
  | None => true
  | Some base =>
      match
        base_netloc ← urlparse_netloc base;
        link_netloc ← urlparse_netloc href;
        let base_domain := Py.replace "www." "" base_netloc in
        let link_domain := Py.replace "www." "" link_netloc in
        Ok (String.eqb base_domain link_domain)
      with
      | Ok b => b
      | Raise _ => true
      end
  end.

Definition has_href (n : node) : bool :=
  match n with
  | Element nm attrs _ =>
      String.eqb nm "a" && match attrs !! "href" with Some _ => true | None => false end
  | _ => false
  end.

(** The body of the loop of [_extract_internal_links] for one anchor:
    the link to append, if any. *)
Definition link_of_anchor (self : ContentExtractor) (link : node) : result (option Link) :=
  match link with
  | Element _ attrs _ =>
      let href := Py.strip (get attrs "href") in
      let anchor_text := get_text_strip link in
      if negb (nonempty href) || negb (nonempty anchor_text) then Ok None
      else if Py.startswith_any href ["javascript:"; "mailto:"; "tel:"; "#"] then Ok None
      else
        href ← match base_url_given self with
                | Some base => urljoin base href
                | None => Ok href
                end;
        Ok (if _is_internal_link self href then Some (mkLink href anchor_text) else None)
  | _ => Ok None
  end.

(** The href the loop of [_extract_internal_links] goes on with for one
    anchor, and hands to [urljoin] when a base URL is set: none for an
    anchor that one of the two [continue]s skips. *)
Definition href_to_resolve (link : node) : option string :=
  match link with
  | Element _ attrs _ =>
      let href := Py.strip (get attrs "href") in
      let anchor_text := get_text_strip link in
      if negb (nonempty href) || negb (nonempty anchor_text) then None
      else if Py.startswith_any href ["javascript:"; "mailto:"; "tel:"; "#"] then None
      else Some href
  | _ => None
  end.

Fixpoint collect_links (self : ContentExtractor) (anchors : list node) : result (list Link) :=
  match anchors with
  | [] => Ok []
  | link :: anchors' =>
      l ← link_of_anchor self link;
      rest ← collect_links self anchors';
      Ok (match l with Some x => x :: rest | None => rest end)
  end.

(** [_extract_internal_links] *)
Definition _extract_internal_links (self : ContentExtractor) (soup : node) : result (list Link) :=
  collect_links self (List.filter has_href (descendants soup)).

(** [extract], from the parsed document on. *)
Definition extract (frames : nat) (self : ContentExtractor) (soup : node) : result ExtractedContent :=
  let soup := _remove_ignored_elements soup in
  visible_text ← _extract_visible_text frames soup;
  let headings := _extract_headings soup in
  internal_links ← _extract_internal_links self soup;
  Ok (mkExtractedContent visible_text headings internal_links).

End WithUrllib.

End Extractor.

(** ** differ.py *)

Module Differ.
Import Models.

(** State of the loop of [_group_words_into_blocks]. *)
Record scan := mkScan {
  blocks : list string;
  current_block : list string;
  unique_count : nat }.

(** [blocks.append(" ".join(current_block))] under the threshold. *)
Definition flush (st : scan) : list string :=
  if (3 <=? unique_count st)%nat
  then blocks st ++ [Py.join " " (current_block st)]
  else blocks st.

(** One iteration of the loop. *)
Definition scan_word (unique_words : gset string) (st : scan) (word : string) : scan :=
  let word_lower := Py.lower word in
  if bool_decide (word_lower ∈ unique_words)
  then mkScan (blocks st) (current_block st ++ [word]) (S (unique_count st))
  else mkScan (flush st) [] 0.

(** The loop and the final flush, on the token list. *)
Definition group_tokens (words : list string) (unique_words : gset string) : list string :=
  flush (fold_left (scan_word unique_words) words (mkScan [] [] 0)).

(** [_group_words_into_blocks] *)
Definition _group_words_into_blocks (text : string) (unique_words : gset string) : list string :=
  if bool_decide (unique_words = ∅) then []
  else group_tokens (Py.split text) unique_words.

(** [_compare_text] *)
Definition _compare_text (raw_text rendered_text : string) : list string * list string :=
  let raw_words : gset string := list_to_set (Py.split (Py.lower raw_text)) in
  let rendered_words : gset string := list_to_set (Py.split (Py.lower rendered_text)) in
  let words_only_with_js := rendered_words ∖ raw_words in
  let words_only_without_js := raw_words ∖ rendered_words in
  let text_only_with_js := _group_words_into_blocks rendered_text words_only_with_js in
  let text_only_without_js := _group_words_into_blocks raw_text words_only_without_js in
  (text_only_with_js, text_only_without_js).

(** The specification's reading of the grouping, for comparison with the
    loop: [run] is a maximal run of unique tokens of [words] when it is a
    non-empty stretch of tokens that are all unique and it is bounded on
    each side by the end of the list or by a token that is not unique. *)
Definition is_unique (unique_words : gset string) (word : string) : bool :=
  bool_decide (Py.lower word ∈ unique_words).

Definition maximal_run (unique_words : gset string)
    (before run after : list string) : Prop :=
  run <> []
  /\ Forall (fun w => is_unique unique_words w = true) run
  /\ (before = [] \/ exists (b : list string) (w : string),
         before = (b ++ [w])%list /\ is_unique unique_words w = false)
  /\ (after = [] \/ exists (w : string) (a : list string),
         after = w :: a /\ is_unique unique_words w = false).

(** The maximal runs of unique tokens, left to right. [cur] is the run
    being read. *)
Fixpoint runs_go (unique_words : gset string) (cur : list string) (words : list string)
  : list (list string) :=
  match words with
  | [] => match cur with [] => [] | _ => [cur] end
  | w :: words' =>
      if is_unique unique_words w
      then runs_go unique_words (cur ++ [w]) words'
      else match cur with
           | [] => runs_go unique_words [] words'
           | _ => cur :: runs_go unique_words [] words'
           end
  end.

Definition runs (unique_words : gset string) (words : list string) : list (list string) :=
  runs_go unique_words [] words.

(** What is known of [list(s)] for a set [s] of any kind of element:
    every member once. *)
Definition lists_each_once `{Countable A} (order : gset A -> list A) : Prop :=
  forall s : gset A, NoDup (order s) /\ forall x, x ∈ order s <-> x ∈ s.

(** The tuple [(link["href"], link["anchor_text"])] and the dict built
    back from it. *)
Definition link_key (link : Link) : string * string := (href link, anchor_text link).
Definition link_of_key (k : string * string) : Link := mkLink k.1 k.2.

Section Compare.

(** The orders in which the sets of headings and of link tuples are
    enumerated. *)
Variable set_order : gset string -> list string.
Variable pair_order : gset (string * string) -> list (string * string).

(** [_compare_headings] *)
Definition _compare_headings (raw_headings rendered_headings : list string)
  : list string * list string :=
  let raw_set : gset string := list_to_set raw_headings in
  let rendered_set : gset string := list_to_set rendered_headings in
  let headings_missing_without_js :=
    Py.sorted_by (fun x => Py.index_of x rendered_headings)
      (set_order (rendered_set ∖ raw_set)) in
  let headings_extra_without_js :=
    Py.sorted_by (fun x => Py.index_of x raw_headings)
      (set_order (raw_set ∖ rendered_set)) in
  (headings_missing_without_js, headings_extra_without_js).

(** [_compare_internal_links] *)
Definition _compare_internal_links (raw_links rendered_links : list Link)
  : list Link * list Link :=
  let raw_set : gset (string * string) := list_to_set (map link_key raw_links) in
  let rendered_set : gset (string * string) := list_to_set (map link_key rendered_links) in
  let missing_tuples := rendered_set ∖ raw_set in
  let links_missing_without_js := map link_of_key (pair_order missing_tuples) in
  let extra_tuples := raw_set ∖ rendered_set in
  let links_extra_without_js := map link_of_key (pair_order extra_tuples) in
  (links_missing_without_js, links_extra_without_js).

(** [compare] *)
Definition compare (raw rendered : ExtractedContent) : DifferenceReport :=
  let '(text_only_with_js, text_only_without_js) :=
    _compare_text (visible_text raw) (visible_text rendered) in
  let '(headings_missing_without_js, headings_extra_without_js) :=
    _compare_headings (headings raw) (headings rendered) in
  let '(internal_links_missing_without_js, internal_links_extra_without_js) :=
    _compare_internal_links (internal_links raw) (internal_links rendered) in
  mkDifferenceReport
    text_only_with_js text_only_without_js
    headings_missing_without_js headings_extra_without_js
    internal_links_missing_without_js internal_links_extra_without_js
    (word_count raw) (word_count rendered)
    (heading_count raw) (heading_count rendered)
    (internal_link_count raw) (internal_link_count rendered).

End Compare.

(** The headings of [mine] that [other] does not have, each once, in the
    order of their first occurrence in [mine], for comparison with
    [_compare_headings]. [seen] holds the headings already passed. *)
Fixpoint missing_from_go (seen : gset string) (other : gset string) (mine : list string)
  : list string :=
  match mine with
  | [] => []
  | h :: mine' =>
      if bool_decide (h ∈ seen) || bool_decide (h ∈ other)
      then missing_from_go ({[h]} ∪ seen) other mine'
      else h :: missing_from_go ({[h]} ∪ seen) other mine'
  end.

Definition missing_from (other mine : list string) : list string :=
  missing_from_go ∅ (list_to_set other) mine.

End Differ.

(** ** fetcher.py *)

Module Fetcher.
Import Models.

(** The interface [Fetcher(ABC)]: [fetch(url, timeout)] answers with a
    result or an error message; an exception may still escape it. *)
Class Fetcher (R : Type) := fetch : string -> Z -> result (option R * option string).

(** What the wait step does to the page and to the event loop. *)
Inductive action : Type :=
| WaitForLoadState (state : string) (timeout : Z)
| Sleep (seconds : Q).

(** The Playwright page, as far as the wait step uses it. *)
Record Page := mkPage { wait_for_load_state : string -> Z -> result unit }.

Record JSRenderedFetcher := mkJSRenderedFetcher {
  user_agent : string;
  wait_strategy : string;
  headless : bool }.

(** [try: ... except PlaywrightTimeoutError: pass] *)
Definition pass_on_timeout (r : result unit) : result unit :=
  match r with
  | Raise PlaywrightTimeoutError => Ok tt
  | _ => r
  end.

(** [_wait_for_content]: the actions performed, in order, and how the call
    ends. [frames] is the number of nested calls still allowed. *)
Fixpoint _wait_for_content (frames : nat) (self : JSRenderedFetcher) (page : Page)
    (timeout : Z) : list action * result unit :=
  match frames with
  | O => ([], Raise RecursionError)
  | S frames' =>
      if String.eqb (wait_strategy self) "network_idle" then
        ([WaitForLoadState "networkidle" timeout],
         pass_on_timeout (wait_for_load_state page "networkidle" timeout))
      else if String.eqb (wait_strategy self) "load" then
        ([WaitForLoadState "load" timeout], wait_for_load_state page "load" timeout)
      else if String.eqb (wait_strategy self) "timeout" then
        ([Sleep (inject_Z timeout / 2000)], Ok tt)
      else
        _wait_for_content frames' self page timeout
  end.

(** What [client.get(url)] of httpx ends with: a response, or one of the
    exceptions the raw fetcher tells apart. [TimeoutException] is a
    subclass of [HTTPError] and is caught first. *)
Record Response := mkResponse {
  response_url : string;
  response_status_code : Z;
  response_headers : gmap string string;
  response_text : string }.

Inductive httpx_outcome : Type :=
| Responded (response : Response)
| TimeoutException
| HTTPError (text : string)
| OtherException (e : exn).

Record RawHTMLFetcher := mkRawHTMLFetcher {
  raw_user_agent : string;
  follow_redirects : bool }.

(** [RawHTMLFetcher.fetch], from the reading of the clock on; [elapsed_ms]
    is the time the request took. *)
Definition raw_fetch_with (client_get : string -> Z -> httpx_outcome) (elapsed_ms : Z)
    (self : RawHTMLFetcher) (url : string) (timeout : Z)
  : result (option RawFetchResult * option string) :=
  match client_get url timeout with
  | Responded response =>
      Ok (Some (mkRawFetchResult (response_url response) url
                  (response_status_code response) (response_headers response)
                  (response_text response) elapsed_ms),
          None)
  | TimeoutException =>
      Ok (None, Some ("Timeout after " +:+ Py.str_int timeout +:+ "ms"))
  | HTTPError text => Ok (None, Some ("HTTP error: " +:+ text))
  | OtherException e => Ok (None, Some ("Unexpected error: " +:+ exn_str e))
  end.

(** Playwright as far as the rendered fetcher uses it: how each call on
    the browser and on the page ends. [goto] tells whether a response
    came; [playwright_enter] and [playwright_exit] are the two ends of the
    [async with] block. *)
Record Browser := mkBrowser {
  playwright_enter : result unit;
  launch : result unit;
  new_page : result unit;
  set_extra_http_headers : result unit;
  goto : string -> Z -> result bool;
  page : Page;
  page_url : string;
  content : result string;
  close : result unit;
  playwright_exit : result unit }.

(** The inner [try] of [JSRenderedFetcher.fetch] with its two handlers. *)
Definition render (frames : nat) (self : JSRenderedFetcher) (browser : Browser)
    (elapsed_ms : Z) (url : string) (timeout : Z)
  : result (option RenderedFetchResult * option string) :=
  let attempt : result (option RenderedFetchResult * option string) :=
    response ← goto browser url timeout;
    if negb response
    then _ ← close browser; Ok (None, Some "No response received")
    else
      _ ← (_wait_for_content frames self (page browser) timeout).2;
      let final_url := page_url browser in
      html ← content browser;
      let result := mkRenderedFetchResult final_url url html true elapsed_ms None in
      _ ← close browser;
      Ok (Some result, None) in
  match attempt with
  | Ok r => Ok r
  | Raise PlaywrightTimeoutError =>
      _ ← close browser;
      Ok (None, Some ("Render timeout after " +:+ Py.str_int timeout +:+ "ms"))
  | Raise e =>
      _ ← close browser;
      Ok (None, Some ("Render error: " +:+ exn_str e))
  end.

(** Leaving the [async with] block: after an exception, an exception of
    the exit takes its place. *)
Definition leaving {A} (browser : Browser) (body : result A) : result A :=
  match body, playwright_exit browser with
  | _, Raise e' => Raise e'
  | r, Ok _ => r
  end.

(** The contract of [fetch] in the docstrings of both fetchers: a result
    for the URL and no message, or no result and a message that is not
    empty. *)
Inductive answer_for {R : Type} (original : R -> string) (url : string)
  : option R * option string -> Prop :=
| answer_result (r : R) : original r = url -> answer_for original url (Some r, None)
| answer_error (m : string) : m <> "" -> answer_for original url (None, Some m).

(** [JSRenderedFetcher.fetch], from the reading of the clock on. *)
Definition rendered_fetch_with (frames : nat) (browser : Browser) (elapsed_ms : Z)
    (self : JSRenderedFetcher) (url : string) (timeout : Z)
  : result (option RenderedFetchResult * option string) :=
  match
    _ ← playwright_enter browser;
    leaving browser
      (_ ← launch browser;
       _ ← new_page browser;
       _ ← set_extra_http_headers browser;
       render frames self browser elapsed_ms url timeout)
  with
  | Ok r => Ok r
  | Raise e => Ok (None, Some ("Browser initialization error: " +:+ exn_str e))
  end.

(** A browser in which every call succeeds and a response comes, the wait
    for the load state apart; [html] is the content of the page. *)
Definition steady_but_for_wait (browser : Browser) (html : string) : Prop :=
  playwright_enter browser = Ok tt /\ launch browser = Ok tt /\ new_page browser = Ok tt
  /\ set_extra_http_headers browser = Ok tt
  /\ (forall url timeout, goto browser url timeout = Ok true)
  /\ content browser = Ok html /\ close browser = Ok tt /\ playwright_exit browser = Ok tt.

End Fetcher.

(** ** job_runner.py *)

Module JobRunner.
Import Models Fetcher.

(** Truth value of an optional error message. *)
Definition message (e : option string) : list string :=
  match e with
  | Some m => if Dom.nonempty m then [m] else []
  | None => []
  end.

(** The URLs in the order of their first valid occurrence: the
    specification's order-preserving pass, for comparison with the code.
    [seen] holds what was already kept. *)
Fixpoint first_seen_go (seen : gset string) (urls : list string) : list string :=
  match urls with
  | [] => []
  | url :: urls' =>
      let url := Py.strip url in
      if Dom.nonempty url
         && match new_URLInput url with Ok _ => true | Raise _ => false end
         && negb (bool_decide (url ∈ seen))
      then url :: first_seen_go ({[url]} ∪ seen) urls'
      else first_seen_go seen urls'
  end.

Definition first_seen_order (urls : list string) : list string :=
  first_seen_go ∅ urls.

(** What is known of [list(s)] for a set [s]: every member once. *)
Definition enumerates (set_order : gset string -> list string) : Prop :=
  forall s : gset string,
    NoDup (set_order s) /\ forall x, x ∈ set_order s <-> x ∈ s.

Section Runner.

(** The order in which [list(validated)] walks the hash table. *)
Variable set_order : gset string -> list string.

(** The collaborators of the pipeline. *)
Context {raw_fetcher : Fetcher RawFetchResult}.
Context {js_fetcher : Fetcher RenderedFetchResult}.
Variable html_parser : string -> Dom.node.
Variable urljoin : string -> string -> result string.
Variable urlparse_netloc : string -> result string.
Variable differ_compare : ExtractedContent -> ExtractedContent -> result DifferenceReport.
Variable frames : nat.
Variables fetch_timeout render_timeout : Z.
(** The two readings of [datetime.now()]. *)
Variables clock_start clock_end : Z.

(** The loop of [_validate_and_deduplicate]; [URLInput] raises nothing but
    [ValueError]. *)
Definition validate_step (validated : gset string) (url : string) : gset string :=
  let url := Py.strip url in
  if negb (Dom.nonempty url) then validated
  else match new_URLInput url with
       | Ok _ => {[url]} ∪ validated
       | Raise _ => validated
       end.

(** [_validate_and_deduplicate] *)
Definition _validate_and_deduplicate (urls : list string) : list string :=
  set_order (fold_left validate_step urls ∅).

(** [ContentExtractor(base_url=u).extract(html)] *)
Definition run_extract (u html : string) : result ExtractedContent :=
  Extractor.extract urljoin urlparse_netloc frames
    (Extractor.mkContentExtractor (Some u)) (html_parser html).

(** [try: ... except Exception as e: extraction_errors.append(prefix + str(e))] *)
Definition guarded {A} (prefix : string) (r : result A) : option A * list string :=
  match r with
  | Ok a => (Some a, [])
  | Raise e => (None, [prefix +:+ exn_str e])
  end.

(** [_process_url], without the semaphore. *)
Definition _process_url (url : string) : result URLAnalysis :=
  '(raw_fetch, raw_error) ← fetch (R := RawFetchResult) url fetch_timeout;
  let fetch_errors := message raw_error in
  let '(http_status, final_url) :=
    match raw_fetch, message raw_error with
    | Some r, [] => (status_code r, raw_url r)
    | _, _ => (0%Z, url)
    end in
  '(rendered_fetch, render_errors) ←
    match raw_fetch with
    | Some _ =>
        '(rendered_fetch, render_error) ← fetch (R := RenderedFetchResult) url render_timeout;
        Ok (rendered_fetch, message render_error)
    | None => Ok (None, [])
    end;
  let '(raw_content, errors1) :=
    match raw_fetch with
    | Some r => guarded "Raw content extraction failed: " (run_extract (raw_url r) (raw_html r))
    | None => (None, [])
    end in
  let '(rendered_content, errors2) :=
    match rendered_fetch with
    | Some r =>
        if rendered_success r
        then guarded "Rendered content extraction failed: "
               (run_extract (rendered_url r) (rendered_html r))
        else (None, [])
    | None => (None, [])
    end in
  let '(differences, errors3) :=
    match raw_content, rendered_content with
    | Some raw, Some rendered =>
        guarded "Content comparison failed: " (differ_compare raw rendered)
    | _, _ => (None, [])
    end in
  Ok (mkURLAnalysis url final_url http_status raw_fetch rendered_fetch
        raw_content rendered_content differences
        fetch_errors render_errors (errors1 ++ errors2 ++ errors3)).

(** The analysis built for a task that ended with an exception. *)
Definition failed_analysis (url : string) (e : exn) : URLAnalysis :=
  mkURLAnalysis url url 0 None None None None None
    ["Unexpected error: " +:+ exn_str e] [] [].

(** One outcome returned by [asyncio.gather] with [return_exceptions=True],
    turned into an analysis. The exceptions of the model are instances of
    [Exception]. *)
Definition analysis_of (url : string) (r : result URLAnalysis) : URLAnalysis :=
  match r with
  | Raise e => failed_analysis url e
  | Ok a => a
  end.

(** [run_job_async]. [gather] returns the outcomes in the order of the
    tasks, so entry [i] belongs to [validated_urls[i]]. *)
Definition run_job_async (urls : list string) : JobResult :=
  let validated_urls := _validate_and_deduplicate urls in
  let results := map _process_url validated_urls in
  let analyses := zip_with analysis_of validated_urls results in
  let urls_succeeded := Z.of_nat (length (List.filter success analyses)) in
  let urls_failed := (Z.of_nat (length analyses) - urls_succeeded)%Z in
  mkJobResult clock_start (Some clock_end)
    (Z.of_nat (length validated_urls)) urls_succeeded urls_failed analyses.

(** How the task of one URL ends for [gather]: with an analysis, with an
    instance of [Exception], or cancelled. [CancelledError] derives from
    [BaseException] and not from [Exception], so no handler of the
    pipeline catches it; [cancelled] tells for which URLs the task ends
    so, because the loop cancelled it or because a collaborator raised
    [CancelledError]. *)
Inductive task_end : Type :=
| Finished (a : URLAnalysis)
| Failed (e : exn)
| Cancelled.

Definition task_of (cancelled : string -> bool) (url : string) : task_end :=
  if cancelled url then Cancelled
  else match _process_url url with
       | Ok a => Finished a
       | Raise e => Failed e
       end.

(** One pass of the loop over the results of [gather]: an instance of
    [Exception] becomes the failure record; anything else is appended as
    it is, an analysis or the [CancelledError] object that
    [gather(return_exceptions=True)] returns for a cancelled task. [None]
    stands for that object. *)
Definition entry_of (url : string) (t : task_end) : option URLAnalysis :=
  match t with
  | Finished a => Some a
  | Failed e => Some (failed_analysis url e)
  | Cancelled => None
  end.

(** [sum(1 for analysis in analyses if analysis.success)]: a
    [CancelledError] object has no attribute [success], and reading it
    raises [AttributeError] (an [OtherError] of the model). *)
Fixpoint count_succeeded (analyses : list (option URLAnalysis)) : result Z :=
  match analyses with
  | [] => Ok 0%Z
  | None :: _ => Raise (OtherError "'CancelledError' object has no attribute 'success'")
  | Some analysis :: analyses' =>
      n ← count_succeeded analyses';
      Ok (if success analysis then (1 + n)%Z else n)
  end.

(** How a job ends: with its result, with an exception, or not at all. *)
Inductive job_end : Type :=
| JobReturned (job : JobResult)
| JobRaised (e : exn)
| JobNeverReturns.

(** [run_job]: [asyncio.run(self.run_job_async(urls))], that is
    [run_job_async] on the event loop, with what the loop decides written
    out. [asyncio.Semaphore(max_concurrency)] raises [ValueError] for a
    negative value; with the value 0 every task waits for the semaphore
    for ever, so the job goes on only if the loop cancels every task; and
    a task may end cancelled. *)
Definition run_job (max_concurrency : Z) (cancelled : string -> bool) (urls : list string)
  : job_end :=
  let validated_urls := _validate_and_deduplicate urls in
  if (max_concurrency <? 0)%Z
  then JobRaised (ValueError "Semaphore initial value must be >= 0")
  else if (max_concurrency =? 0)%Z
          && existsb (fun url => negb (cancelled url)) validated_urls
  then JobNeverReturns
  else
    let results := map (task_of cancelled) validated_urls in
    let analyses := zip_with entry_of validated_urls results in
    match count_succeeded analyses with
    | Raise e => JobRaised e
    | Ok urls_succeeded =>
        let urls_failed := (Z.of_nat (length analyses) - urls_succeeded)%Z in
        JobReturned
          (mkJobResult clock_start (Some clock_end)
             (Z.of_nat (length validated_urls)) urls_succeeded urls_failed
             (omap id analyses))
    end.

End Runner.

(** The pipeline as [JobRunner.__init__] sets it up: the two fetchers of
    fetcher.py, on a network and a browser that answer per URL. *)
Section Repository.
Variable client_get : string -> Z -> httpx_outcome.
Variable browser_for : string -> Browser.
Variables raw_elapsed_ms rendered_elapsed_ms : string -> Z.
Variable raw_self : RawHTMLFetcher.
Variable js_self : JSRenderedFetcher.
Variable wait_frames : nat.

Definition repository_raw_fetcher : Fetcher RawFetchResult :=
  fun url timeout => raw_fetch_with client_get (raw_elapsed_ms url) raw_self url timeout.

Definition repository_js_fetcher : Fetcher RenderedFetchResult :=
  fun url timeout =>
    rendered_fetch_with wait_frames (browser_for url) (rendered_elapsed_ms url)
      js_self url timeout.
End Repository.

End JobRunner.

(** ** storage.py *)

Module Storage.
Import Models.

(** [_format_errors] *)
Definition _format_errors (analysis : URLAnalysis) : string :=
  let all_errors :=
    (map (fun e => "Fetch: " +:+ e) (fetch_errors analysis)
     ++ map (fun e => "Render: " +:+ e) (render_errors analysis)
     ++ map (fun e => "Extraction: " +:+ e) (extraction_errors analysis))%list in
  Py.join "; " all_errors.

End Storage.

(** ** cli/main.py *)

Module Cli.

(** [read_urls_from_file] on the lines of the file, [None] standing for a
    file that does not exist; the answer [None] is [sys.exit(1)]. *)
Definition read_urls_from_file (file : option (list string)) : option (list string) :=
  match file with
  | None => None
  | Some lines =>
      let urls :=
        map Py.strip (List.filter (fun line => Dom.nonempty (Py.strip line)) lines) in
      match urls with
      | [] => None
      | _ => Some urls
      end
  end.

End Cli.

(** ** Concrete documents and collaborators for the examples *)

Module Samples.
Import Dom Models Fetcher.

(** [<h2>B</h2><h1>A</h1>] *)
Definition h2_before_h1 : node :=
  soup_of [Element "html" ∅ [Element "body" ∅
    [Element "h2" ∅ [Text "B"]; Element "h1" ∅ [Text "A"]]]].

(** The page of [test_heading_order_preserved]. *)
Definition heading_order_page : node :=
  soup_of [Element "html" ∅ [Element "body" ∅
    [Element "h3" ∅ [Text "Third"];
     Element "h1" ∅ [Text "First"];
     Element "h2" ∅ [Text "Second"]]]].

(** [n] nested [div]s around one word. *)
Fixpoint nested_divs (n : nat) : node :=
  match n with
  | O => Text "deep"
  | S n' => Element "div" ∅ [nested_divs n']
  end.

Definition deep_document (n : nat) : node := soup_of [nested_divs n].

(** The chain of tags around the word of [nested_divs n] placed under
    [chain]. *)
Fixpoint under_divs (n : nat) (chain : list tag) : list tag :=
  match n with
  | O => chain
  | S n' => under_divs n' (mkTag "div" ∅ :: chain)
  end.

(** An extractor for pages fetched from [base]. *)
Definition extractor_at (base : string) : Extractor.ContentExtractor :=
  Extractor.mkContentExtractor (Some base).

Definition extractor_without_base : Extractor.ContentExtractor :=
  Extractor.mkContentExtractor None.

(** [<div class="nav-hiddenish">menu</div><p>body</p>] *)
Definition hiddenish_page : node :=
  soup_of [Element "html" ∅ [Element "body" ∅
    [Element "div" {[ "class" := "nav-hiddenish" ]} [Text "menu"];
     Element "p" ∅ [Text "body"]]]].

(** A page that always settles. *)
Definition quiet_page : Page := mkPage (fun _ _ => Ok tt).

Definition fetcher_with (strategy : string) : JSRenderedFetcher :=
  mkJSRenderedFetcher "Mozilla/5.0" strategy true.

(** The strategies [_wait_for_content] has a branch for. *)
Definition recognised (strategy : string) : bool :=
  String.eqb strategy "network_idle" || String.eqb strategy "load"
  || String.eqb strategy "timeout".

(** A report with the given word counts and nothing else. *)
Definition report (raw rendered : Z) : DifferenceReport :=
  mkDifferenceReport [] [] [] [] [] [] raw rendered 0 0 0 0.

(** An instance of [urlparse(url).netloc] for URLs of the shape
    [scheme://authority/rest]: what lies between the first [://] and the
    next [/], [?] or [#]. *)
Fixpoint until_delim (s : string) : string :=
  match s with
  | EmptyString => EmptyString
  | String c s' =>
      if Ascii.eqb c "/" || Ascii.eqb c "?" || Ascii.eqb c "#" then EmptyString
      else String c (until_delim s')
  end.

Fixpoint after_scheme (s : string) : option string :=
  match s with
  | EmptyString => None
  | String ":" (String "/" (String "/" rest)) => Some rest
  | String _ s' => after_scheme s'
  end.

Definition sample_netloc (url : string) : result string :=
  Ok (match after_scheme url with
      | Some rest => until_delim rest
      | None => EmptyString
      end).

(** An instance of [urljoin]: an absolute URL is kept, a path is put
    behind the base. *)
Definition sample_urljoin (base url : string) : result string :=
  Ok (if Py.contains "://" url then url else base +:+ url).

(** An instance of [urljoin] that, like urllib, refuses a URL whose
    authority has a bracket without its partner. *)
Definition strict_urljoin (base url : string) : result string :=
  netloc ← sample_netloc url;
  if xorb (Py.contains "[" netloc) (Py.contains "]" netloc)
  then Raise (ValueError "Invalid IPv6 URL")
  else sample_urljoin base url.

(** [<a href="http://[">more</a>] *)
Definition bad_href_page : node :=
  soup_of [Element "html" ∅ [Element "body" ∅
    [Element "a" {[ "href" := "http://[" ]} [Text "more"]]]].

(** Two orders in which a set may be enumerated. *)
Definition ascending (s : gset string) : list string := elements s.
Definition descending (s : gset string) : list string := reverse (elements s).

(** A raw fetcher that breaks on one URL, and a rendered fetcher, a parser
    and a differ that always answer. *)
Definition breaking_raw_fetcher : Fetcher RawFetchResult :=
  fun url _ =>
    if String.eqb url "http://b.example" then Raise (OtherError "boom")
    else Ok (Some (mkRawFetchResult url url 200 ∅ "<p>hi</p>" 5), None).

Definition steady_js_fetcher : Fetcher RenderedFetchResult :=
  fun url _ => Ok (Some (mkRenderedFetchResult url url "<p>hi</p>" true 7 None), None).

Definition sample_parser (html : string) : node :=
  soup_of [Element "html" ∅ [Element "body" ∅ [Element "p" ∅ [Text "hi"]]]].

Definition sample_compare (raw rendered : ExtractedContent) : result DifferenceReport :=
  Ok (report (word_count raw) (word_count rendered)).

Definition sample_urls : list string :=
  ["http://b.example"; "  http://a.example  "; "ftp://c.example"; "http://b.example"].

(** [<p>  Hello   big </p><p>world</p>] *)
Definition spaced_page : node :=
  soup_of [Element "html" ∅ [Element "body" ∅
    [Element "p" ∅ [Text "  Hello   big "]; Element "p" ∅ [Text "world"]]]].

(** [<a href=" /about ">About</a><a href="mailto:x@a.example">Mail</a>
    <a href="/empty"></a><a href="/contact">Contact</a>] *)
Definition links_page : node :=
  soup_of [Element "html" ∅ [Element "body" ∅
    [Element "a" {[ "href" := " /about " ]} [Text "About"];
     Element "a" {[ "href" := "mailto:x@a.example" ]} [Text "Mail"];
     Element "a" {[ "href" := "/empty" ]} [];
     Element "a" {[ "href" := "/contact" ]} [Text "Contact"]]]].

(** An order in which a set of link tuples may be enumerated. *)
Definition ascending_pairs (s : gset (string * string)) : list (string * string) :=
  elements s.

Definition sample_raw_links : list Link :=
  [mkLink "/about" "About"; mkLink "/old" "Old"; mkLink "/about" "About"].

Definition sample_rendered_links : list Link :=
  [mkLink "/about" "About"; mkLink "/about" "About us"; mkLink "/new" "New"].

Definition sample_content : ExtractedContent :=
  mkExtractedContent "Hello big world" ["Intro"; "Details"] sample_raw_links.

(** A network that answers every request, and a browser in which every
    call succeeds. *)
Definition sample_client_get (url : string) (timeout : Z) : httpx_outcome :=
  Responded (mkResponse url 200 ∅ "<p>hi</p>").

Definition sample_browser : Browser :=
  mkBrowser (Ok tt) (Ok tt) (Ok tt) (Ok tt) (fun _ _ => Ok true) quiet_page
    "http://a.example/" (Ok "<p>hi</p>") (Ok tt) (Ok tt).

(** A page that never settles, in a browser that is otherwise steady. *)
Definition restless_page : Page := mkPage (fun _ _ => Raise PlaywrightTimeoutError).

Definition restless_browser : Browser :=
  mkBrowser (Ok tt) (Ok tt) (Ok tt) (Ok tt) (fun _ _ => Ok true) restless_page
    "http://a.example/" (Ok "<p>hi</p>") (Ok tt) (Ok tt).

(** The analysis of one URL by the pipeline of the examples. *)
Definition sample_analysis : URLAnalysis :=
  JobRunner.analysis_of "http://a.example"
    (JobRunner._process_url (raw_fetcher := breaking_raw_fetcher)
       (js_fetcher := steady_js_fetcher) sample_parser sample_urljoin sample_netloc
       sample_compare 100 30000 30000 "http://a.example").

(** The lines of an input file, each with its line break. *)
Definition line_break : string := String "010"%char EmptyString.

Definition sample_lines : list string :=
  ["http://a.example" +:+ line_break; line_break;
   "  ftp://c.example  " +:+ line_break].

End Samples.

(** * Properties *)

(** ** Facts about the string operations *)

Section StringFacts.

Lemma prefix_cons a p b s :
  String.prefix (String a p) (String b s) = Ascii.eqb a b && String.prefix p s.
Proof.
  simpl. destruct (ascii_dec a b) as [->|Hne].
  - rewrite Ascii.eqb_refl. reflexivity.
  - apply Ascii.eqb_neq in Hne. rewrite Hne. reflexivity.
Qed.

Lemma prefix_strip_prefix p s :
  String.prefix p s = match Py.strip_prefix p s with Some _ => true | None => false end.
Proof.
  revert s. induction p as [|a p IH]; intros s.
  - destruct s; reflexivity.
  - destruct s as [|b s]; [reflexivity|].
    rewrite prefix_cons. simpl. destruct (Ascii.eqb a b); [apply IH|reflexivity].
Qed.

Lemma strip_prefix_Some p s rest :
  Py.strip_prefix p s = Some rest <-> s = p +:+ rest.
Proof.
  revert s. induction p as [|a p IH]; intros s; simpl.
  - split; [intros [= ->]; reflexivity|intros ->; reflexivity].
  - destruct s as [|b s].
    + split; discriminate.
    + destruct (Ascii.eqb_spec a b) as [->|Hne].
      * rewrite IH. split; [intros ->; reflexivity|intros [= ->]; reflexivity].
      * split; [discriminate|]. intros [= E _]. congruence.
Qed.

(** Once an occurrence is replaced, the scan resumes behind it. *)
Lemma replace_go_skip old new t s :
  Py.replace_go old new (String.length t) (t +:+ s) = Py.replace_go old new 0 s.
Proof.
  induction t as [|c t IH]; [reflexivity|]. simpl. exact IH.
Qed.

Lemma replace_prefix a old new s :
  Py.replace (String a old) new (String a old +:+ s)
  = new +:+ Py.replace (String a old) new s.
Proof.
  unfold Py.replace.
  change (String a old +:+ s) with (String a (old +:+ s)).
  cbn [Py.replace_go].
  assert (Hp : String.prefix (String a old) (String a (old +:+ s)) = true).
  { rewrite prefix_strip_prefix.
    destruct (Py.strip_prefix (String a old) (String a (old +:+ s))) eqn:E; [reflexivity|].
    assert (H : Py.strip_prefix (String a old) (String a (old +:+ s)) = Some s)
      by (apply strip_prefix_Some; reflexivity).
    congruence. }
  rewrite Hp. f_equal.
  replace (String.length (String a old) - 1)%nat with (String.length old)
    by (simpl; lia).
  apply replace_go_skip.
Qed.

Lemma replace_absent old new s :
  Py.contains old s = false -> Py.replace old new s = s.
Proof.
  unfold Py.replace. induction s as [|c s IH]; intros H; [reflexivity|].
  cbn [Py.contains] in H. apply orb_false_elim in H as [Hp Hc].
  cbn [Py.replace_go]. rewrite Hp. f_equal. apply IH. exact Hc.
Qed.

(** On a host with no [www.] behind a possible leading one, deleting every
    occurrence and removing the leading one are the same. *)
Lemma replace_www_removeprefix host :
  Py.contains "www." (Py.removeprefix "www." host) = false ->
  Py.replace "www." "" host = Py.removeprefix "www." host.
Proof.
  unfold Py.removeprefix. destruct (Py.strip_prefix "www." host) as [rest|] eqn:E; intros H.
  - apply strip_prefix_Some in E. subst host. rewrite replace_prefix.
    simpl. apply replace_absent. exact H.
  - apply replace_absent. exact H.
Qed.

Lemma prefix_app_l sub a b :
  String.prefix sub a = true -> String.prefix sub (a +:+ b) = true.
Proof.
  revert a. induction sub as [|x sub IH]; intros a H; [destruct (a +:+ b); reflexivity|].
  destruct a as [|y a]; [discriminate|].
  change (String y a +:+ b) with (String y (a +:+ b)).
  rewrite prefix_cons in *. apply andb_prop in H as [-> H]. simpl. apply IH. exact H.
Qed.

Lemma contains_app_l sub a b :
  Py.contains sub a = true -> Py.contains sub (a +:+ b) = true.
Proof.
  induction a as [|c a IH]; intros H.
  - cbn [Py.contains] in H. rewrite orb_false_r in H.
    destruct sub; [|discriminate]. destruct b; reflexivity.
  - change (String c a +:+ b) with (String c (a +:+ b)).
    cbn [Py.contains] in *. apply orb_prop in H as [H|H].
    + apply (prefix_app_l _ (String c a) b) in H.
      change (String c a +:+ b) with (String c (a +:+ b)) in H. rewrite H. reflexivity.
    + rewrite (IH H). apply orb_true_r.
Qed.

Lemma contains_app_r sub a b :
  Py.contains sub b = true -> Py.contains sub (a +:+ b) = true.
Proof.
  intros H. induction a as [|c a IH]; [exact H|].
  change (String c a +:+ b) with (String c (a +:+ b)).
  cbn [Py.contains]. rewrite IH. apply orb_true_r.
Qed.

(** A word without the separator [c] that starts in front of a [c] ends in
    front of it. *)
Lemma prefix_before_separator c sub a b :
  Py.free_of c sub = true ->
  String.prefix sub (a +:+ String c b) = true -> String.prefix sub a = true.
Proof.
  revert a. induction sub as [|x sub IH]; intros a Hfree H; [destruct a; reflexivity|].
  cbn [Py.free_of] in Hfree. apply andb_prop in Hfree as [Hx Hfree].
  destruct a as [|y a].
  - change ("" +:+ String c b) with (String c b) in H.
    rewrite prefix_cons in H. apply andb_prop in H as [H _].
    rewrite H in Hx. discriminate.
  - change (String y a +:+ String c b) with (String y (a +:+ String c b)) in H.
    rewrite prefix_cons in *. apply andb_prop in H as [-> H]. simpl. eapply IH; eauto.
Qed.

Lemma contains_across_separator c x sub a b :
  Py.free_of c (String x sub) = true ->
  Py.contains (String x sub) (a +:+ String c b) = true ->
  Py.contains (String x sub) a = true \/ Py.contains (String x sub) b = true.
Proof.
  intros Hfree. induction a as [|y a IH]; intros H.
  - change ("" +:+ String c b) with (String c b) in H.
    cbn [Py.contains] in H. apply orb_prop in H as [H|H]; [|right; exact H].
    rewrite prefix_cons in H. apply andb_prop in H as [H _].
    cbn [Py.free_of] in Hfree. apply andb_prop in Hfree as [Hx _].
    rewrite H in Hx. discriminate.
  - change (String y a +:+ String c b) with (String y (a +:+ String c b)) in H.
    cbn [Py.contains] in H. apply orb_prop in H as [H|H].
    + left. cbn [Py.contains].
      change (String y (a +:+ String c b)) with (String y a +:+ String c b) in H.
      rewrite (prefix_before_separator c _ _ _ Hfree H). reflexivity.
    + destruct (IH H) as [Ha|Hb]; [left|right; exact Hb].
      cbn [Py.contains]. rewrite Ha. apply orb_true_r.
Qed.

Lemma lower_app a b : Py.lower (a +:+ b) = Py.lower a +:+ Py.lower b.
Proof. induction a as [|c a IH]; [reflexivity|]. simpl. rewrite IH. reflexivity. Qed.

Lemma join_cons sep (t : string) (ts : list string) :
  Py.join sep (t :: ts)
  = match ts with [] => t | _ => t +:+ sep +:+ Py.join sep ts end.
Proof. destruct ts; reflexivity. Qed.

Lemma contains_lower_join sub (toks : list string) :
  (exists tok, tok ∈ toks /\ Py.contains sub (Py.lower tok) = true) ->
  Py.contains sub (Py.lower (Py.join " " toks)) = true.
Proof.
  intros (tok & Hin & H). induction toks as [|t toks IH]; [inversion Hin|].
  rewrite join_cons. destruct toks as [|t' toks].
  - apply list_elem_of_singleton in Hin. subst. exact H.
  - rewrite lower_app. apply elem_of_cons in Hin as [->|Hin].
    + apply contains_app_l. exact H.
    + apply contains_app_r. rewrite lower_app. apply contains_app_r. apply IH. exact Hin.
Qed.

Lemma contains_lower_join_inv x sub (toks : list string) :
  Py.free_of " " (String x sub) = true ->
  Py.contains (String x sub) (Py.lower (Py.join " " toks)) = true ->
  exists tok, tok ∈ toks /\ Py.contains (String x sub) (Py.lower tok) = true.
Proof.
  intros Hfree. induction toks as [|t toks IH]; intros H.
  - discriminate.
  - rewrite join_cons in H. destruct toks as [|t' toks].
    + exists t. split; [set_solver|exact H].
    + rewrite !lower_app in H.
      change (Py.lower " " +:+ ?s) with (String " "%char s) in H.
      apply (contains_across_separator " " x sub) in H as [H|H]; [| |exact Hfree].
      * exists t. split; [set_solver|exact H].
      * destruct (IH H) as (tok & Hin & Htok). exists tok. split; [set_solver|exact Htok].
Qed.

End StringFacts.

(** ** URL validation *)

Section URLInputFacts.
Import Models.

(** What the constructor accepts. *)
Lemma new_URLInput_returns_iff (u : string) :
  returns (new_URLInput u)
  <-> u <> ""
      /\ Py.startswith_any (Py.strip (Py.lower u)) ["http://"; "https://"] = true.
Proof.
  unfold new_URLInput, URLInput_post_init, returns.
  destruct (String.eqb_spec u "") as [->|Hne].
  - split; [intros [a H]; discriminate H|intros [H _]; done].
  - destruct (Py.startswith_any (Py.strip (Py.lower u)) ["http://"; "https://"]) eqn:E.
    + split; [intros _; split; [exact Hne|reflexivity]|]. intros _. eexists. reflexivity.
    + split; [intros [a H]; discriminate H|intros [_ H]; discriminate H].
Qed.

(** C5: on the string of [test_url_trims_whitespace] the constructor
    returns: the validation hook strips the lower-cased copy of the URL
    before it tests the scheme, and the padded string is stored as it came. *)
Theorem URLInput_accepts_padded_url :
  new_URLInput "  https://example.com  "
  = Ok (mkURLInput "  https://example.com  ").
Proof. vm_compute. reflexivity. Qed.

End URLInputFacts.

(** ** Visibility and visible text *)

Section VisibilityFacts.
Import Dom Extractor Samples.
Local Open Scope list_scope.

(** The marks of one tag, read off its attributes. *)
Lemma marked_hidden_iff (element : tag) :
  marked_hidden element = true
  <-> Py.contains "display:none" (Py.lower (get (tag_attrs element) "style")) = true
      \/ Py.contains "visibility:hidden" (Py.lower (get (tag_attrs element) "style")) = true
      \/ (exists tok, tok ∈ get_class (tag_attrs element)
                      /\ Py.contains "hidden" (Py.lower tok) = true)
      \/ Py.lower (get (tag_attrs element) "aria-hidden") = "true".
Proof.
  unfold marked_hidden. rewrite !orb_true_iff, String.eqb_eq.
  split.
  - intros [[[H|H]|H]|H]; auto.
    right. right. left. apply (contains_lower_join_inv "h" "idden"); [reflexivity|exact H].
  - intros [H|[H|[H|H]]]; auto.
    left. right. apply contains_lower_join. exact H.
Qed.

(** With a frame for every tag of the chain the walk reaches the root. *)
Lemma _is_element_visible_within_budget (frames : nat) (chain : list tag) :
  chain <> [] -> length chain <= frames -> Forall named chain ->
  _is_element_visible frames chain = Ok (negb (existsb marked_hidden chain)).
Proof.
  revert frames. induction chain as [|element parents IH]; intros frames Hne Hlen Hnamed; [done|].
  destruct frames as [|frames]; [simpl in Hlen; lia|].
  cbn [_is_element_visible existsb]. destruct (marked_hidden element); [reflexivity|].
  destruct parents as [|parent parents]; [reflexivity|].
  inversion Hnamed as [|? ? _ Hp]; subst. inversion Hp as [|? ? Hparent _]; subst.
  unfold named in Hparent. rewrite Hparent. simpl orb.
  apply IH; [done|simpl in *; lia|exact Hp].
Qed.

Lemma _is_element_visible_returns (frames : nat) (chain : list tag) :
  length chain <= frames -> chain <> [] -> returns (_is_element_visible frames chain).
Proof.
  revert frames. induction chain as [|element parents IH]; intros frames Hlen Hne; [done|].
  destruct frames as [|frames]; [simpl in Hlen; lia|].
  cbn [_is_element_visible]. destruct (marked_hidden element); [eexists; reflexivity|].
  destruct parents as [|parent parents]; [eexists; reflexivity|].
  destruct (nonempty (tag_name parent)); [|eexists; reflexivity].
  apply IH; [simpl in *; lia|done].
Qed.

(** Without a frame for every tag of an unmarked chain the walk does not
    end. *)
Lemma _is_element_visible_out_of_frames (frames : nat) (chain : list tag) :
  frames < length chain -> Forall named chain ->
  existsb marked_hidden chain = false ->
  _is_element_visible frames chain = Raise RecursionError.
Proof.
  revert frames. induction chain as [|element parents IH]; intros frames Hlen Hnamed Hun.
  - simpl in Hlen. lia.
  - destruct frames as [|frames]; [reflexivity|].
    cbn [existsb] in Hun. apply orb_false_elim in Hun as [Hel Hun].
    cbn [_is_element_visible]. rewrite Hel.
    destruct parents as [|parent parents]; [simpl in Hlen; lia|].
    inversion Hnamed as [|? ? _ Hp]; subst. inversion Hp as [|? ? Hparent _]; subst.
    unfold named in Hparent. rewrite Hparent.
    apply IH; [simpl in *; lia|exact Hp|exact Hun].
Qed.

Lemma visible_parts_within_budget (frames : nat) (l : list (list tag * string)) :
  Forall (fun entry => entry.1 <> [] /\ length entry.1 <= frames /\ Forall named entry.1) l ->
  visible_parts frames l = Ok (map snd (List.filter unmarked l)).
Proof.
  induction 1 as [|[chain s] l (Hne & Hlen & Hnamed) _ IH]; [reflexivity|].
  cbn [visible_parts]. simpl in Hne, Hlen, Hnamed.
  destruct chain as [|element parents]; [done|].
  rewrite _is_element_visible_within_budget by done.
  rewrite IH. cbn [List.filter]. unfold unmarked at 2. cbn [fst].
  destruct (negb (existsb marked_hidden (element :: parents))); reflexivity.
Qed.

Lemma visible_parts_returns (frames : nat) (l : list (list tag * string)) :
  Forall (fun entry => length entry.1 <= frames) l ->
  returns (visible_parts frames l).
Proof.
  induction 1 as [|[chain s] l Hlen _ [rest IH]]; [eexists; reflexivity|].
  cbn [visible_parts]. simpl in Hlen.
  destruct chain as [|element parents]; [eexists; exact IH|].
  destruct (_is_element_visible_returns frames (element :: parents) Hlen) as [v ->]; [done|].
  rewrite IH. eexists. reflexivity.
Qed.

(** Whatever the frames, an answer of the walk is the right one. *)
Lemma _is_element_visible_sound (frames : nat) (chain : list tag) (v : bool) :
  chain <> [] -> Forall named chain ->
  _is_element_visible frames chain = Ok v ->
  v = negb (existsb marked_hidden chain).
Proof.
  revert frames. induction chain as [|element parents IH]; intros frames Hne Hnamed H; [done|].
  destruct frames as [|frames]; [discriminate|].
  cbn [_is_element_visible existsb] in *.
  destruct (marked_hidden element); [injection H as <-; reflexivity|].
  destruct parents as [|parent parents]; [injection H as <-; reflexivity|].
  inversion Hnamed as [|? ? _ Hp]; subst. inversion Hp as [|? ? Hparent _]; subst.
  unfold named in Hparent. rewrite Hparent in H. simpl orb.
  eapply IH; [done|exact Hp|exact H].
Qed.

Lemma visible_parts_sound (frames : nat) (l : list (list tag * string)) :
  Forall (fun entry => entry.1 <> [] /\ Forall named entry.1) l ->
  forall parts, visible_parts frames l = Ok parts ->
  parts = map snd (List.filter unmarked l).
Proof.
  induction 1 as [|[chain s] l (Hne & Hnamed) _ IH]; intros parts H.
  - injection H as <-. reflexivity.
  - cbn [visible_parts] in H. simpl in Hne, Hnamed.
    destruct chain as [|element parents]; [done|].
    destruct (_is_element_visible frames (element :: parents)) as [v|e] eqn:Hv;
      [|discriminate].
    apply _is_element_visible_sound in Hv; [|done|exact Hnamed].
    destruct (visible_parts frames l) as [rest|e]; [|discriminate].
    simpl in H. injection H as <-. rewrite (IH rest eq_refl).
    cbn [List.filter].
    change (unmarked (element :: parents, s))
      with (negb (existsb marked_hidden (element :: parents))).
    rewrite <- Hv. destruct v; reflexivity.
Qed.

Lemma depth_child (c : node) (cs : list node) :
  c ∈ cs -> depth c <= fold_right (fun c d => Nat.max (depth c) d) 0 cs.
Proof.
  induction 1 as [c cs|c c' cs _ IH]; simpl; lia.
Qed.

(** A string lies below no more tags than the document is deep. *)
Lemma find_all_strings_lengths (n : node) : forall chain,
  Forall (fun entry => (chain <> [] -> entry.1 <> [])
                       /\ length entry.1 <= depth n + length chain)
    (find_all_strings chain n).
Proof.
  induction n as [s|s|nm attrs cs IH] using node_forall_ind; intros chain.
  - repeat constructor; simpl; auto.
  - repeat constructor; simpl; auto.
  - cbn [find_all_strings depth].
    rewrite Forall_forall in IH.
    apply Forall_flat_map. apply Forall_forall. intros c Hc.
    specialize (IH c Hc (mkTag nm attrs :: chain)).
    eapply Forall_impl; [exact IH|].
    intros entry (H1 & H2). split.
    + intros _. apply H1. done.
    + pose proof (depth_child c cs Hc). simpl in H2. lia.
Qed.

Lemma find_all_strings_named (n : node) : forall chain,
  well_named n = true -> Forall named chain ->
  Forall (fun entry => Forall named entry.1) (find_all_strings chain n).
Proof.
  induction n as [s|s|nm attrs cs IH] using node_forall_ind; intros chain Hwn Hch.
  - repeat constructor; simpl; auto.
  - repeat constructor; simpl; auto.
  - cbn [find_all_strings well_named] in *.
    apply andb_prop in Hwn as [Hnm Hcs].
    rewrite forallb_forall in Hcs.
    rewrite Forall_forall in IH.
    apply Forall_flat_map. apply Forall_forall. intros c Hc.
    assert (Hc' : In c cs) by (apply list_elem_of_In; exact Hc).
    apply (IH c Hc (mkTag nm attrs :: chain) (Hcs c Hc')).
    constructor; [exact Hnm|exact Hch].
Qed.

(** The strings of a whole document lie below the root and at most
    [depth] tags. *)
Lemma find_all_strings_soup children :
  Forall (fun entry => entry.1 <> []
                       /\ length entry.1 <= depth (soup_of children))
    (find_all_strings [] (soup_of children)).
Proof.
  cbn [soup_of find_all_strings depth].
  apply Forall_flat_map, Forall_forall. intros c Hc.
  pose proof (find_all_strings_lengths c [mkTag "[document]" ∅]) as H.
  eapply Forall_impl; [exact H|].
  intros entry (H1 & H2). split; [apply H1; done|].
  pose proof (depth_child c children Hc). simpl in H2. lia.
Qed.

(** C8 as it is stated fails on a tag whose only class is
    nav-hiddenish: its text is left out of the visible text. *)
Lemma hiddenish_class_counterexample :
  ~ (exists text, _extract_visible_text 100 hiddenish_page = Ok text
                  /\ Py.contains "menu" text = true).
Proof.
  intros (text & H & Hmenu). vm_compute in H. injection H as <-.
  vm_compute in Hmenu. discriminate.
Qed.

(** C8 (amended): a tag is marked when its lower-cased inline style
    contains display:none or visibility:hidden, when one of its class
    tokens contains hidden as a substring (whatever the case of the
    letters; nav-hiddenish is such a token), or when its aria-hidden
    attribute is true in any case. In a document whose nesting fits the
    frames of the interpreter, the parent of a string is judged invisible
    exactly when it or one of its ancestors up to the root is marked, and
    the strings collected for the visible text are exactly those with no
    marked tag above them, in document order, at any depth; and with any
    number of frames, strings that are collected have no marked tag above
    them. *)
Theorem visibility_is_inherited (frames : nat) (children : list node) :
  well_named (soup_of children) = true ->
  depth (soup_of children) <= frames ->
  (forall element : tag,
     marked_hidden element = true
     <-> Py.contains "display:none" (Py.lower (get (tag_attrs element) "style")) = true
         \/ Py.contains "visibility:hidden" (Py.lower (get (tag_attrs element) "style")) = true
         \/ (exists tok, tok ∈ get_class (tag_attrs element)
                         /\ Py.contains "hidden" (Py.lower tok) = true)
         \/ Py.lower (get (tag_attrs element) "aria-hidden") = "true")
  /\ (forall entry, entry ∈ find_all_strings [] (soup_of children) ->
        _is_element_visible frames entry.1
        = Ok (negb (existsb marked_hidden entry.1)))
  /\ visible_parts frames (find_all_strings [] (soup_of children))
     = Ok (map snd (List.filter unmarked (find_all_strings [] (soup_of children))))
  /\ (forall fewer parts,
        visible_parts fewer (find_all_strings [] (soup_of children)) = Ok parts ->
        parts = map snd (List.filter unmarked (find_all_strings [] (soup_of children)))).
Proof.
  intros Hwn Hd.
  assert (Hall : Forall (fun entry => entry.1 <> [] /\ length entry.1 <= frames
                                      /\ Forall named entry.1)
                   (find_all_strings [] (soup_of children))).
  { pose proof (find_all_strings_soup children) as H1.
    pose proof (find_all_strings_named (soup_of children) [] Hwn ltac:(constructor)) as H2.
    rewrite Forall_forall in *. intros entry Hin.
    destruct (H1 entry Hin) as [Hne Hlen]. split; [exact Hne|]. split; [lia|].
    apply H2. exact Hin. }
  split; [exact marked_hidden_iff|]. split; [|split].
  - intros entry Hin. rewrite Forall_forall in Hall.
    destruct (Hall entry Hin) as (Hne & Hlen & Hnamed).
    apply _is_element_visible_within_budget; assumption.
  - apply visible_parts_within_budget. exact Hall.
  - intros fewer parts. apply visible_parts_sound.
    eapply Forall_impl; [exact Hall|]. intros entry (Hne & _ & Hnamed). done.
Qed.

Lemma visibility_is_inherited_witness :
  visible_parts 10 (find_all_strings [] hiddenish_page)
  = Ok (map snd (List.filter unmarked (find_all_strings [] hiddenish_page))).
Proof.
  apply (visibility_is_inherited 10
           [Element "html" ∅ [Element "body" ∅
              [Element "div" {[ "class" := "nav-hiddenish" ]} [Text "menu"];
               Element "p" ∅ [Text "body"]]]]).
  - reflexivity.
  - vm_compute. lia.
Defined.

End VisibilityFacts.

(** ** Extraction as a whole *)

Section ExtractFacts.
Import Dom Extractor Samples.
Local Open Scope list_scope.

Variable urljoin : string -> string -> result string.
Variable urlparse_netloc : string -> result string.

Lemma prune_depth drop (n : node) : depth (prune drop n) <= depth n.
Proof.
  induction n as [s|s|nm attrs cs IH] using node_forall_ind; try done.
  cbn [prune depth]. apply le_n_S.
  induction IH as [|c cs Hc _ IHcs]; [done|].
  simpl. destruct (drop c); simpl; lia.
Qed.

(** Removing the ignored elements leaves a document that is no deeper. *)
Lemma _remove_ignored_elements_shape children :
  exists children',
    _remove_ignored_elements (soup_of children) = soup_of children'
    /\ depth (soup_of children') <= depth (soup_of children).
Proof.
  unfold _remove_ignored_elements.
  set (p1 := prune _ (soup_of children)).
  set (p2 := prune is_comment p1).
  assert (H2 : exists c2, p2 = soup_of c2
                          /\ depth (soup_of c2) <= depth (soup_of children)).
  { eexists. split; [reflexivity|].
    etransitivity; [apply (prune_depth is_comment p1)|]. apply prune_depth. }
  clearbody p2. clear p1.
  revert p2 H2. induction COOKIE_BANNER_SELECTORS as [|selector selectors IH];
    intros p2 (c2 & -> & Hd2).
  - exists c2. done.
  - cbn [fold_left]. apply IH. eexists. split; [reflexivity|].
    etransitivity; [apply (prune_depth _ (soup_of c2))|]. exact Hd2.
Qed.

Lemma link_of_anchor_returns self link :
  (base_url_given self = None \/ forall base href, returns (urljoin base href)) ->
  returns (link_of_anchor urljoin urlparse_netloc self link).
Proof.
  intros Hjoin. unfold link_of_anchor.
  destruct link as [s|s|nm attrs cs]; try (eexists; reflexivity).
  destruct (negb (nonempty (Py.strip (get attrs "href"))) || _); [eexists; reflexivity|].
  destruct (Py.startswith_any _ _); [eexists; reflexivity|].
  destruct (base_url_given self) as [base|] eqn:Hbase.
  - destruct Hjoin as [?|Hjoin]; [done|].
    destruct (Hjoin base (Py.strip (get attrs "href"))) as [joined ->].
    eexists. reflexivity.
  - eexists. reflexivity.
Qed.

Lemma collect_links_returns self anchors :
  (base_url_given self = None \/ forall base href, returns (urljoin base href)) ->
  returns (collect_links urljoin urlparse_netloc self anchors).
Proof.
  intros Hjoin. induction anchors as [|link anchors [rest IH]]; [eexists; reflexivity|].
  cbn [collect_links]. destruct (link_of_anchor_returns self link Hjoin) as [l ->].
  rewrite IH. eexists. reflexivity.
Qed.

Lemma prune_nested_divs drop n :
  (forall k, drop (nested_divs k) = false) -> prune drop (nested_divs n) = nested_divs n.
Proof.
  intros Hdrop. induction n as [|n IH]; [reflexivity|].
  cbn [nested_divs prune prune_children]. rewrite Hdrop, IH. reflexivity.
Qed.

Lemma prune_deep_document drop n :
  (forall k, drop (nested_divs k) = false) -> prune drop (deep_document n) = deep_document n.
Proof.
  intros Hdrop. unfold deep_document, soup_of.
  cbn [prune prune_children]. rewrite Hdrop, prune_nested_divs by exact Hdrop. reflexivity.
Qed.

Lemma _remove_ignored_elements_deep_document n :
  _remove_ignored_elements (deep_document n) = deep_document n.
Proof.
  unfold _remove_ignored_elements, COOKIE_BANNER_SELECTORS. cbn [fold_left].
  rewrite !prune_deep_document; try reflexivity; intros [|k]; reflexivity.
Qed.

Lemma find_all_strings_nested_divs n chain :
  find_all_strings chain (nested_divs n) = [(under_divs n chain, "deep")].
Proof.
  revert chain. induction n as [|n IH]; intros chain; [reflexivity|].
  cbn [nested_divs find_all_strings flat_map]. rewrite IH, app_nil_r. reflexivity.
Qed.

Lemma under_divs_facts n chain :
  length (under_divs n chain) = n + length chain
  /\ (Forall named chain -> Forall named (under_divs n chain))
  /\ existsb marked_hidden (under_divs n chain) = existsb marked_hidden chain.
Proof.
  revert chain. induction n as [|n IH]; intros chain; [done|].
  cbn [under_divs]. destruct (IH (mkTag "div" ∅ :: chain)) as (Hl & Hn & Hm).
  split; [rewrite Hl; simpl; lia|]. split.
  - intros H. apply Hn. constructor; [reflexivity|exact H].
  - rewrite Hm. reflexivity.
Qed.

(** A word below as many [div]s as there are frames, or more, is out of
    reach of the walk. *)
Lemma extract_raises_on_deep_document frames n self :
  frames <= n ->
  extract urljoin urlparse_netloc frames self (deep_document n) = Raise RecursionError.
Proof.
  intros Hle. unfold extract. rewrite _remove_ignored_elements_deep_document.
  unfold _extract_visible_text, deep_document, soup_of.
  cbn [find_all_strings flat_map]. rewrite find_all_strings_nested_divs, app_nil_r.
  destruct (under_divs_facts n [mkTag "[document]" ∅]) as (Hl & Hn & Hm).
  cbn [visible_parts].
  destruct (under_divs n [mkTag "[document]" ∅]) as [|element parents] eqn:E.
  { simpl in Hl. lia. }
  rewrite _is_element_visible_out_of_frames; [reflexivity| | |].
  - rewrite Hl. simpl. lia.
  - apply Hn. repeat constructor.
  - rewrite Hm. reflexivity.
Qed.

Lemma link_of_anchor_returns_iff self link :
  returns (link_of_anchor urljoin urlparse_netloc self link)
  <-> forall base href,
        base_url_given self = Some base -> href_to_resolve link = Some href ->
        returns (urljoin base href).
Proof.
  unfold link_of_anchor, href_to_resolve.
  destruct link as [s|s|nm attrs cs];
    try (split; [intros _ base href _ H; discriminate H|intros _; eexists; reflexivity]).
  destruct (negb (nonempty (Py.strip (get attrs "href"))) || _).
  { split; [intros _ base href _ H; discriminate H|intros _; eexists; reflexivity]. }
  destruct (Py.startswith_any _ _).
  { split; [intros _ base href _ H; discriminate H|intros _; eexists; reflexivity]. }
  destruct (base_url_given self) as [base|] eqn:Hbase.
  - split.
    + intros [l Hl] base' href [= <-] [= <-].
      destruct (urljoin base (Py.strip (get attrs "href"))) as [joined|e];
        [eexists; reflexivity|discriminate].
    + intros H. destruct (H base _ eq_refl eq_refl) as [joined ->].
      eexists. reflexivity.
  - split; [intros _ base href H; discriminate H|intros _; eexists; reflexivity].
Qed.

Lemma collect_links_returns_iff self anchors :
  returns (collect_links urljoin urlparse_netloc self anchors)
  <-> forall base link href,
        base_url_given self = Some base -> link ∈ anchors ->
        href_to_resolve link = Some href -> returns (urljoin base href).
Proof.
  induction anchors as [|link anchors IH].
  - split; [intros _ base link href _ H; inversion H|intros _; eexists; reflexivity].
  - cbn [collect_links]. split.
    + intros [links H] base link' href Hbase Hin Hhref.
      destruct (link_of_anchor urljoin urlparse_netloc self link) as [l|e] eqn:El;
        [|discriminate].
      destruct (collect_links urljoin urlparse_netloc self anchors) as [rest|e] eqn:Er;
        [|discriminate].
      apply elem_of_cons in Hin as [->|Hin].
      * apply (proj1 (link_of_anchor_returns_iff self link)); [eexists; exact El|done..].
      * apply (proj1 IH (ex_intro _ rest eq_refl) base link' href); assumption.
    + intros H.
      destruct (proj2 (link_of_anchor_returns_iff self link)) as [l ->].
      { intros base href Hbase Hhref. apply (H base link href); [done|left|done]. }
      destruct (proj2 IH) as [rest ->].
      { intros base link' href Hbase Hin Hhref. apply (H base link' href); [done|right; done|done]. }
      eexists. reflexivity.
Qed.

Lemma _is_element_visible_raises frames chain e :
  _is_element_visible frames chain = Raise e -> e = RecursionError.
Proof.
  revert chain. induction frames as [|frames IH]; intros chain H.
  - injection H as <-. reflexivity.
  - cbn [_is_element_visible] in H.
    destruct chain as [|element parents]; [discriminate|].
    destruct (marked_hidden element); [discriminate|].
    destruct parents as [|parent parents]; [discriminate|].
    destruct (nonempty (tag_name parent)); [|discriminate].
    apply (IH _ H).
Qed.

(** One string out of reach of the walk is enough for the loop to end in
    [RecursionError]. *)
Lemma visible_parts_raises frames (l : list (list tag * string)) chain s :
  (chain, s) ∈ l -> chain <> [] ->
  _is_element_visible frames chain = Raise RecursionError ->
  visible_parts frames l = Raise RecursionError.
Proof.
  intros Hin Hne Hraise. induction l as [|[chain' s'] l IH]; [inversion Hin|].
  cbn [visible_parts].
  destruct chain' as [|element parents].
  - apply elem_of_cons in Hin as [[= -> _]|Hin]; [done|]. apply IH. exact Hin.
  - destruct (_is_element_visible frames (element :: parents)) as [v|e] eqn:Hv.
    + apply elem_of_cons in Hin as [[= -> _]|Hin]; [congruence|].
      rewrite (IH Hin). reflexivity.
    + apply _is_element_visible_raises in Hv as ->. reflexivity.
Qed.

(** A check that decides whether [urljoin] accepts the hrefs of a list
    of anchors. *)
Lemma hrefs_accepted_by_check self base anchors :
  base_url_given self = Some base ->
  forallb (fun link =>
             match href_to_resolve link with
             | Some href => match urljoin base href with Ok _ => true | Raise _ => false end
             | None => true
             end) anchors = true ->
  forall base' link href,
    base_url_given self = Some base' -> link ∈ anchors ->
    href_to_resolve link = Some href -> returns (urljoin base' href).
Proof.
  intros Hbase Hall base' link href Hbase' Hin Hhref.
  rewrite Hbase in Hbase'. injection Hbase' as <-.
  rewrite forallb_forall in Hall. apply list_elem_of_In in Hin.
  specialize (Hall link Hin). rewrite Hhref in Hall.
  destruct (urljoin base href) as [joined|e]; [eexists; reflexivity|discriminate].
Qed.

End ExtractFacts.

Section ExtractExamples.
Import Dom Extractor Samples.


(** The call of [urljoin] is outside any handler: an href it refuses makes
    [extract] raise when a base URL is set. *)
Lemma extract_raises_on_refused_href :
  extract strict_urljoin sample_netloc 100 (extractor_at "https://example.com")
    bad_href_page
  = Raise (ValueError "Invalid IPv6 URL").
Proof. vm_compute. reflexivity. Qed.


End ExtractExamples.

(** ** Heading extraction *)

Section HeadingFacts.
Import Dom Extractor Samples.

(** The list is built level by level. *)
Lemma _extract_headings_by_level soup :
  _extract_headings soup
  = concat (map (fun heading_tag =>
                   List.filter nonempty (map get_text_strip (find_all heading_tag soup)))
                HEADING_TAGS).
Proof.
  unfold _extract_headings. rewrite flat_map_concat_map. f_equal.
  apply map_ext. intros heading_tag.
  induction (find_all heading_tag soup) as [|element l IH]; [reflexivity|].
  simpl. rewrite IH. destruct (nonempty (get_text_strip element)); reflexivity.
Qed.

(** C1: on a page with an h2 before an h1 the code returns the h1's text
    first, and on the page of [test_heading_order_preserved] it returns
    First, Second, Third where the page reads Third, First, Second, also
    through [extract]: the headings come grouped by level, not in document
    order. *)
Theorem _extract_headings_groups_by_level :
  _extract_headings h2_before_h1 = ["A"; "B"]
  /\ _extract_headings heading_order_page = ["First"; "Second"; "Third"]
  /\ exists content,
       extract sample_urljoin sample_netloc 100 extractor_without_base heading_order_page
       = Ok content
       /\ Models.headings content = ["First"; "Second"; "Third"].
Proof.
  split; [vm_compute; reflexivity|]. split; [vm_compute; reflexivity|].
  eexists. split; vm_compute; reflexivity.
Qed.

End HeadingFacts.

(** ** Internal links *)

Section LinkFacts.
Import Dom Extractor.

Variable urlparse_netloc : string -> result string.
Local Abbreviation is_internal := (_is_internal_link urlparse_netloc).

(** What [_is_internal_link] answers, case by case: without a base URL,
    when [urlparse] raises on either URL, and when both netlocs are
    there. *)
Lemma _is_internal_link_cases (self : ContentExtractor) (href : string) :
  (base_url_given self = None -> is_internal self href = true)
  /\ (forall base, base_url_given self = Some base ->
      (forall e, urlparse_netloc base = Raise e -> is_internal self href = true)
      /\ (forall base_netloc e,
            urlparse_netloc base = Ok base_netloc -> urlparse_netloc href = Raise e ->
            is_internal self href = true)
      /\ (forall base_netloc link_netloc,
            urlparse_netloc base = Ok base_netloc ->
            urlparse_netloc href = Ok link_netloc ->
            (is_internal self href = true
             <-> Py.replace "www." "" base_netloc = Py.replace "www." "" link_netloc)
            /\ (Py.contains "www." (Py.removeprefix "www." base_netloc) = false ->
                Py.contains "www." (Py.removeprefix "www." link_netloc) = false ->
                (is_internal self href = true
                 <-> Py.removeprefix "www." base_netloc
                     = Py.removeprefix "www." link_netloc)))).
Proof.
  split.
  - intros H. unfold _is_internal_link. rewrite H. reflexivity.
  - intros base Hbase. split; [|split].
    + intros e He. unfold _is_internal_link. rewrite Hbase, He. reflexivity.
    + intros b e Hb He. unfold _is_internal_link. rewrite Hbase, Hb, He. reflexivity.
    + intros b l Hb Hl.
      assert (Hcode : is_internal self href = true
                      <-> Py.replace "www." "" b = Py.replace "www." "" l).
      { unfold _is_internal_link. rewrite Hbase, Hb, Hl. simpl.
        apply String.eqb_eq. }
      split; [exact Hcode|].
      intros Hfb Hfl. rewrite Hcode.
      rewrite (replace_www_removeprefix b Hfb), (replace_www_removeprefix l Hfl).
      reflexivity.
Qed.

End LinkFacts.

Section LinkExamples.
Import Dom Extractor Samples.

(** C6: the code does not do what the claim and the docstring of
    [_is_internal_link] ("points to the same domain") say. For the base
    https://myexample.com it classifies the link
    https://mywww.example.com/page as internal, although the two hosts
    differ after a leading "www." is stripped from each: [replace]
    deletes the "www." inside the link's host as well. In general, for
    every [urlparse]: without a base URL every link is internal; when
    [urlparse] raises on the base URL or on the link, the link is
    internal; otherwise the link is internal exactly when the two netlocs
    are equal after every occurrence of "www." has been deleted, which is
    equality after stripping a leading "www." only for netlocs that have
    no "www." behind a possible leading one. There a distinct subdomain
    is external, as the claim says. *)
Theorem _is_internal_link_deletes_every_www :
  (_is_internal_link sample_netloc (extractor_at "https://myexample.com")
     "https://mywww.example.com/page" = true
   /\ sample_netloc "https://myexample.com" = Ok "myexample.com"
   /\ sample_netloc "https://mywww.example.com/page" = Ok "mywww.example.com"
   /\ Py.removeprefix "www." "myexample.com" <> Py.removeprefix "www." "mywww.example.com"
   /\ Py.replace "www." "" "myexample.com" = Py.replace "www." "" "mywww.example.com")
  /\ _is_internal_link sample_netloc (extractor_at "https://www.example.com")
       "https://sub.example.com/page" = false
  /\ forall (urlparse_netloc : string -> result string) (self : ContentExtractor)
        (href : string),
       (base_url_given self = None -> _is_internal_link urlparse_netloc self href = true)
       /\ (forall base, base_url_given self = Some base ->
           (forall e, urlparse_netloc base = Raise e ->
                      _is_internal_link urlparse_netloc self href = true)
           /\ (forall base_netloc e,
                 urlparse_netloc base = Ok base_netloc -> urlparse_netloc href = Raise e ->
                 _is_internal_link urlparse_netloc self href = true)
           /\ (forall base_netloc link_netloc,
                 urlparse_netloc base = Ok base_netloc ->
                 urlparse_netloc href = Ok link_netloc ->
                 (_is_internal_link urlparse_netloc self href = true
                  <-> Py.replace "www." "" base_netloc = Py.replace "www." "" link_netloc)
                 /\ (Py.contains "www." (Py.removeprefix "www." base_netloc) = false ->
                     Py.contains "www." (Py.removeprefix "www." link_netloc) = false ->
                     (_is_internal_link urlparse_netloc self href = true
                      <-> Py.removeprefix "www." base_netloc
                          = Py.removeprefix "www." link_netloc)))).
Proof.
  split; [|split].
  - split; [reflexivity|]. split; [reflexivity|]. split; [reflexivity|].
    split; [|reflexivity]. vm_compute. congruence.
  - reflexivity.
  - intros urlparse_netloc self href. apply _is_internal_link_cases.
Qed.

End LinkExamples.

(** ** Grouping of unique words into blocks *)

Section GroupingFacts.
Import Differ.
Local Open Scope list_scope.

Variable unique_words : gset string.

Local Abbreviation unique := (fun w : string => is_unique unique_words w = true).
Local Abbreviation long_enough := (fun r : list string => (3 <=? length r)%nat).
Local Abbreviation emitted :=
  (fun rs : list (list string) => map (Py.join " ") (List.filter long_enough rs)).

(** The loop invariant: what is flushed in the end is what was emitted so
    far, followed by the long runs of what is still to be read, the first
    of them continuing the current block. *)
Lemma flush_scan_runs (words : list string) (st : scan) :
  unique_count st = length (current_block st) ->
  flush (fold_left (scan_word unique_words) words st)
  = blocks st ++ emitted (runs_go unique_words (current_block st) words).
Proof.
  revert st. induction words as [|w words IH]; intros [bl cur n] Hn;
    cbn [unique_count current_block] in Hn; subst n.
  - cbn [fold_left runs_go]. unfold flush. cbn [blocks current_block unique_count].
    destruct cur as [|c cur]; cbn [List.filter map].
    + rewrite app_nil_r. reflexivity.
    + destruct (3 <=? length (c :: cur))%nat; [reflexivity|].
      rewrite app_nil_r. reflexivity.
  - cbn [fold_left runs_go]. unfold scan_word at 2. cbn [current_block blocks unique_count].
    unfold is_unique.
    destruct (bool_decide (Py.lower w ∈ unique_words)).
    + rewrite IH; [reflexivity|].
      cbn [unique_count current_block]. rewrite length_app. simpl. lia.
    + rewrite IH; [|reflexivity]. cbn [blocks current_block].
      unfold flush; cbn [blocks current_block unique_count].
      destruct cur as [|c cur]; [reflexivity|].
      cbn [List.filter map].
      destruct (3 <=? length (c :: cur))%nat; [|reflexivity].
      rewrite <- app_assoc. reflexivity.
Qed.

Lemma runs_go_none (cur words : list string) :
  unique_words = ∅ -> cur = [] -> runs_go unique_words cur words = [].
Proof.
  intros -> ->. induction words as [|w words IH]; [reflexivity|].
  simpl. unfold is_unique. rewrite bool_decide_eq_false_2 by set_solver. exact IH.
Qed.

Lemma _group_words_into_blocks_runs (text : string) :
  _group_words_into_blocks text unique_words
  = emitted (runs unique_words (Py.split text)).
Proof.
  unfold _group_words_into_blocks, runs. case_bool_decide as He.
  - rewrite runs_go_none by done. reflexivity.
  - unfold group_tokens. rewrite flush_scan_runs by reflexivity. reflexivity.
Qed.

Lemma unique_not_both (l : list string) (w : string) :
  Forall unique l -> w ∈ l -> is_unique unique_words w = false -> False.
Proof.
  intros Hall Hin Hw. rewrite Forall_forall in Hall. specialize (Hall _ Hin). congruence.
Qed.

(** What [runs_go] lists are the maximal runs, the current one included. *)
Lemma runs_go_maximal (words cur r : list string) :
  Forall unique cur ->
  r ∈ runs_go unique_words cur words
  <-> exists before after,
        cur ++ words = before ++ r ++ after
        /\ maximal_run unique_words before r after.
Proof.
  revert cur. induction words as [|w words IH]; intros cur Hcur.
  - simpl. rewrite app_nil_r. split.
    + intros Hin. assert (cur <> [] /\ r = cur) as [Hne ->].
      { destruct cur; [inversion Hin|]. apply list_elem_of_singleton in Hin. subst. done. }
      exists [], []. rewrite app_nil_r. split; [reflexivity|].
      repeat split; auto.
    + intros (before & after & Heq & Hne & Hall & Hl & Hr).
      destruct Hl as [->|(b & x & -> & Hx)].
      2:{ exfalso. eapply (unique_not_both cur x); eauto. rewrite Heq. set_solver. }
      destruct Hr as [->|(x & a & -> & Hx)].
      2:{ exfalso. eapply (unique_not_both cur x); eauto. rewrite Heq. set_solver. }
      simpl in Heq. rewrite app_nil_r in Heq. subst cur.
      destruct r; [done|]. apply list_elem_of_singleton. reflexivity.
  - cbn [runs_go]. destruct (is_unique unique_words w) eqn:Hw.
    + rewrite IH.
      * rewrite <- app_assoc. reflexivity.
      * apply Forall_app. split; [exact Hcur|]. constructor; [exact Hw|constructor].
    + assert (Hmem : r ∈ match cur with
                        | [] => runs_go unique_words [] words
                        | _ :: _ => cur :: runs_go unique_words [] words
                        end
                     <-> (cur <> [] /\ r = cur) \/ r ∈ runs_go unique_words [] words).
      { destruct cur; [naive_solver|]. rewrite elem_of_cons. naive_solver. }
      rewrite Hmem. clear Hmem. rewrite (IH []) by constructor. simpl. split.
      * intros [[Hne ->]|(b & a & -> & Hne & Hall & Hl & Hr)].
        -- exists [], (w :: words). split; [reflexivity|].
           repeat split; eauto.
        -- exists (cur ++ w :: b), a. split; [rewrite <- app_assoc; reflexivity|].
           repeat split; auto. right.
           destruct Hl as [->|(b' & x & -> & Hx)].
           ++ exists cur, w. done.
           ++ exists (cur ++ w :: b'), x. rewrite <- app_assoc. done.
      * intros (before & after & Heq & Hne & Hall & Hl & Hr).
        apply app_eq_app in Heq as [l [[Hc Hrest]|[Hb Hrest]]].
        -- (* the run starts inside [cur] *)
           assert (before = []) as ->.
           { destruct Hl as [->|(b & x & -> & Hx)]; [reflexivity|].
             exfalso. eapply (unique_not_both cur x); eauto. rewrite Hc. set_solver. }
           simpl in Hc. subst l. left.
           apply app_eq_app in Hrest as [l [[Hr' Hw']|[Hc' Ha']]].
           ++ destruct l as [|x l].
              ** rewrite app_nil_r in Hr'. subst r. done.
              ** simpl in Hw'. injection Hw' as <- _.
                 exfalso. eapply (unique_not_both r w); eauto. rewrite Hr'. set_solver.
           ++ destruct l as [|x l].
              ** rewrite app_nil_r in Hc'. subst r. done.
              ** exfalso. destruct Hr as [->|(y & a & -> & Hy)]; [discriminate|].
                 simpl in Ha'. injection Ha' as -> _.
                 eapply (unique_not_both cur x); eauto. rewrite Hc'. set_solver.
        -- (* the run starts behind [w] *)
           right. destruct l as [|x l].
           ++ simpl in Hrest. exfalso. destruct r as [|y r]; [done|].
              simpl in Hrest. injection Hrest as <- _.
              eapply (unique_not_both (w :: r) w); eauto. set_solver.
           ++ simpl in Hrest. injection Hrest as <- Hwords.
              exists l, after. split; [exact Hwords|].
              repeat split; auto.
              destruct l as [|y l] using rev_ind; [left; reflexivity|]. right.
              destruct Hl as [->|(b & z & Hbz & Hz)].
              { destruct cur; discriminate. }
              rewrite Hbz in Hb.
              change (cur ++ w :: l ++ [y]) with (cur ++ (w :: l) ++ [y]) in Hb.
              rewrite app_assoc in Hb. apply app_inj_tail in Hb as [_ ->].
              exists l, y. done.
Qed.

End GroupingFacts.

(** ** The metrics of a difference report *)

Section MetricFacts.
Import Models Samples.
Open Scope Q_scope.

Lemma round_half_even_near (x : Q) :
  Qabs (inject_Z (round_half_even x) - x) <= 1 # 2.
Proof.
  unfold round_half_even.
  pose proof (Qfloor_le x) as Hlo. pose proof (Qlt_floor x) as Hhi.
  rewrite inject_Z_plus in Hhi. change (inject_Z 1) with 1 in Hhi.
  apply Qabs_Qle_condition.
  destruct (Qcompare_spec (x - inject_Z (Qfloor x)) (1 # 2)) as [He|Hl|Hg].
  - destruct (Z.even (Qfloor x)); [|rewrite inject_Z_plus; change (inject_Z 1) with 1];
      split; lra.
  - split; lra.
  - rewrite inject_Z_plus. change (inject_Z 1) with 1. split; lra.
Qed.

Lemma round_half_even_comp (x y : Q) : x == y -> round_half_even x = round_half_even y.
Proof.
  intros H. unfold round_half_even. rewrite (Qfloor_comp x y H).
  assert (Hc : (x - inject_Z (Qfloor y) ?= 1 # 2) = (y - inject_Z (Qfloor y) ?= 1 # 2)).
  { apply Qcompare_comp; [rewrite H|]; reflexivity. }
  rewrite Hc. reflexivity.
Qed.

Lemma round2_comp (x y : Q) : x == y -> round2 x == round2 y.
Proof.
  intros H. unfold round2.
  rewrite (round_half_even_comp (x * 100) (y * 100)); [reflexivity|].
  rewrite H. reflexivity.
Qed.

(** Rounding moves a value by at most half a hundredth. *)
Lemma round2_near (x : Q) : Qabs (round2 x - x) <= 1 # 200.
Proof.
  unfold round2. pose proof (round_half_even_near (x * 100)) as H.
  apply Qabs_Qle_condition in H as [H1 H2]. apply Qabs_Qle_condition.
  set (n := inject_Z (round_half_even (x * 100))) in *.
  unfold Qdiv. change (/ 100) with (1 # 100).
  split; lra.
Qed.

End MetricFacts.

(** ** The percentage in the floats of the interpreter *)

Section FloatDivisionFacts.
Import SpecFloat.
Local Open Scope Z_scope.

Lemma digits2_pos_size (p : positive) : digits2_pos p = Pos.size p.
Proof. induction p as [p IH|p IH|]; simpl; rewrite ?IH; reflexivity. Qed.

(** A number below [2 ^ k] has at most [k] binary digits. *)
Lemma Zdigits2_le (m k : Z) : 0 <= m < 2 ^ k -> 0 <= k -> Zdigits2 m <= k.
Proof.
  intros [Hm Hlt] Hk. destruct m as [|p|p]; [simpl; lia| |lia].
  simpl. rewrite digits2_pos_size.
  pose proof (Pos.size_le p) as Hs.
  destruct (Z.le_gt_cases (Zpos (Pos.size p)) k) as [H|H]; [exact H|exfalso].
  assert (Hpow : 2 ^ (k + 1) <= 2 ^ Zpos (Pos.size p)) by (apply Z.pow_le_mono_r; lia).
  assert (Hs' : 2 ^ Zpos (Pos.size p) <= 2 * Zpos p).
  { change (2 * Zpos p) with (Zpos p~0). rewrite <- Pos2Z.inj_pow.
    apply Pos2Z.pos_le_pos. exact Hs. }
  rewrite Z.pow_add_r in Hpow by lia. lia.
Qed.

Lemma Zdigits2_nonneg m : 0 <= Zdigits2 m.
Proof. destruct m; simpl; lia. Qed.

Lemma Zdigits2_mono (a b : positive) : (a <= b)%positive -> Zdigits2 (Zpos a) <= Zdigits2 (Zpos b).
Proof.
  intros Hab. apply Zdigits2_le; [|apply Zdigits2_nonneg].
  split; [lia|]. simpl. rewrite digits2_pos_size.
  pose proof (Pos.size_gt b) as Hb.
  rewrite <- Pos2Z.inj_pow. apply Pos2Z.pos_lt_pos. lia.
Qed.

(** Shifting to the right does not make a mantissa larger. *)
Lemma shr_1_m (r : shr_record) : 0 <= shr_m r -> 0 <= shr_m (shr_1 r) <= shr_m r.
Proof.
  destruct r as [m rr ss]. simpl. intros Hm.
  destruct m as [|[p|p|]|p]; simpl; lia.
Qed.

Lemma iter_shr_1_m (n : positive) : forall r : shr_record,
  0 <= shr_m r -> 0 <= shr_m (iter_pos shr_1 n r) <= shr_m r.
Proof.
  induction n as [n IH|n IH|]; intros r Hr; simpl.
  - pose proof (shr_1_m r Hr) as H1.
    pose proof (IH (shr_1 r) (proj1 H1)) as H2.
    pose proof (IH _ (proj1 H2)) as H3. lia.
  - pose proof (IH r Hr) as H2.
    pose proof (IH _ (proj1 H2)) as H3. lia.
  - apply shr_1_m. exact Hr.
Qed.

Lemma shr_record_of_loc_m m l : shr_m (shr_record_of_loc m l) = m.
Proof. destruct l as [|[]]; reflexivity. Qed.

(** What [shr_fexp] does to the exponent and to the mantissa. *)
Lemma shr_fexp_bounds prec emax m e l :
  0 <= m ->
  let '(mrs, e') := shr_fexp prec emax m e l in
  0 <= shr_m mrs <= m
  /\ (e' = e \/ e' = fexp prec emax (Zdigits2 m + e)).
Proof.
  intros Hm. unfold shr_fexp, shr.
  destruct (fexp prec emax (Zdigits2 m + e) - e) as [|n|n] eqn:En.
  - rewrite shr_record_of_loc_m. split; [lia|left; reflexivity].
  - pose proof (iter_shr_1_m n (shr_record_of_loc m l)) as H.
    rewrite shr_record_of_loc_m in H. split; [apply H; exact Hm|].
    right. lia.
  - rewrite shr_record_of_loc_m. split; [lia|left; reflexivity].
Qed.

Lemma round_nearest_even_bounds m l :
  0 <= m -> 0 <= round_nearest_even m l <= m + 1.
Proof.
  intros Hm. unfold round_nearest_even.
  destruct l as [|[]]; try destruct (Z.even m); lia.
Qed.

Lemma fexp_le (x : Z) : x <= 1024 -> fexp 53 1024 x <= 971.
Proof. unfold fexp, emin. lia. Qed.

Lemma Zdigits2_gt (m : Z) : 0 <= m -> m < 2 ^ Zdigits2 m.
Proof.
  intros Hm. destruct m as [|p|p]; [reflexivity| |lia].
  simpl Zdigits2. rewrite digits2_pos_size, <- Pos2Z.inj_pow.
  apply Pos2Z.pos_lt_pos. apply Pos.size_gt.
Qed.

Lemma Zdigits2_le_mono (a b : Z) : 0 <= a <= b -> Zdigits2 a <= Zdigits2 b.
Proof.
  intros [Ha Hab]. apply Zdigits2_le; [|apply Zdigits2_nonneg].
  pose proof (Zdigits2_gt b ltac:(lia)). lia.
Qed.

(** Rounding a mantissa that is short for its exponent gives no
    infinity. *)
Lemma binary_round_aux_finite s m e l :
  0 <= m -> -1074 <= e <= 0 -> Zdigits2 (m + 1) + e <= 1 ->
  forall s', binary_round_aux 53 1024 s m e l <> S754_infinity s'.
Proof.
  intros Hm He Hd s'. unfold binary_round_aux.
  pose proof (shr_fexp_bounds 53 1024 m e l Hm) as H1.
  destruct (shr_fexp 53 1024 m e l) as [mrs1 e1].
  destruct H1 as [Hm1 He1].
  set (m1 := round_nearest_even (shr_m mrs1) (loc_of_shr_record mrs1)).
  pose proof (round_nearest_even_bounds (shr_m mrs1) (loc_of_shr_record mrs1) (proj1 Hm1))
    as Hr. fold m1 in Hr.
  pose proof (shr_fexp_bounds 53 1024 m1 e1 loc_Exact (proj1 Hr)) as H2.
  destruct (shr_fexp 53 1024 m1 e1 loc_Exact) as [mrs2 e2].
  destruct H2 as [Hm2 He2].
  pose proof (Zdigits2_le_mono m (m + 1) ltac:(lia)) as Hdm.
  pose proof (Zdigits2_le_mono m1 (m + 1) ltac:(lia)) as Hdm1.
  pose proof (Zdigits2_nonneg m) as Hn. pose proof (Zdigits2_nonneg m1) as Hn1.
  assert (He1' : e1 <= 0).
  { destruct He1 as [->| ->]; [lia|]. unfold fexp, emin. lia. }
  assert (He2' : e2 <= 971).
  { destruct He2 as [->| ->]; [lia|]. apply fexp_le.
    destruct He1 as [->| ->]; [lia|]. unfold fexp, emin. lia. }
  destruct (shr_m mrs2) as [|p|p]; [discriminate| |discriminate].
  change (1024 - 53) with 971.
  destruct (Z.leb_spec e2 971) as [_|H]; [discriminate|lia].
Qed.

(** The quotient of two positive integers, the first not above the
    second, is a float: the division does not overflow. *)
Lemma SFdiv_no_overflow (a b : positive) :
  (a <= b)%positive ->
  forall s',
    SFdiv 53 1024 (S754_finite false a 0) (S754_finite false b 0) <> S754_infinity s'.
Proof.
  intros Hab s'. unfold SFdiv, SFdiv_core_binary.
  pose proof (Zdigits2_mono a b Hab) as Hd.
  pose proof (Zdigits2_nonneg (Zpos a)) as Hda.
  set (d1 := Zdigits2 (Zpos a)) in *. set (d2 := Zdigits2 (Zpos b)) in *.
  change (0 - 0) with 0. rewrite !Z.add_0_r.
  set (e' := Z.min (fexp 53 1024 (d1 - d2)) 0).
  assert (He' : -1074 <= e' <= -53) by (unfold e', fexp, emin; lia).
  destruct (0 - e') as [|sp|sp] eqn:Es; [lia| |lia].
  rewrite Z.shiftl_mul_pow2 by lia.
  pose proof (Z_div_mod (Zpos a * 2 ^ Zpos sp) (Zpos b) ltac:(lia)) as Hdiv.
  destruct (Z.div_eucl (Zpos a * 2 ^ Zpos sp) (Zpos b)) as [q r].
  destruct Hdiv as [Heq Hr].
  assert (Hpow : 0 < 2 ^ Zpos sp) by (apply Z.pow_pos_nonneg; lia).
  assert (Hq0 : 0 <= q) by nia.
  assert (Hq : q <= 2 ^ Zpos sp) by nia.
  apply binary_round_aux_finite; [exact Hq0|lia|].
  assert (Hdq : Zdigits2 (q + 1) <= Zpos sp + 1).
  { apply Zdigits2_le; [|lia]. split; [lia|].
    rewrite Z.pow_add_r by lia. change (2 ^ 1) with 2.
    assert (2 <= 2 ^ Zpos sp).
    { change 2 with (2 ^ 1) at 1. apply Z.pow_le_mono_r; lia. }
    lia. }
  lia.
Qed.

(** The quotient of a positive integer by one that is not smaller is
    computed without [ZeroDivisionError] and without [OverflowError]. *)
Lemma truediv_returns (a b : Z) :
  0 < a <= b ->
  Binary64.truediv a b
  = Ok (SFdiv Binary64.prec Binary64.emax (Binary64.exact a) (Binary64.exact b)).
Proof.
  intros [Ha Hab]. unfold Binary64.truediv.
  destruct (Z.eqb_spec b 0) as [E|_]; [lia|].
  destruct a as [|a|a]; [lia| |lia]. destruct b as [|b|b]; [lia| |lia].
  pose proof (SFdiv_no_overflow a b ltac:(lia)) as H.
  cbn [Binary64.exact]. change Binary64.prec with 53. change Binary64.emax with 1024.
  destruct (SFdiv 53 1024 (S754_finite false a 0) (S754_finite false b 0)) as [| sq | |];
    try reflexivity.
  exfalso. apply (H sq). reflexivity.
Qed.

End FloatDivisionFacts.

Section FloatMetricFacts.
Import Models Samples.

(** C9 as it is stated fails for one raw word and three rendered words:
    the code answers the float 66.67, which is neither the number 200/3
    nor the float that (3 - 1) / 3 * 100 gives without the rounding to
    two decimal places. *)
Lemma percentage_is_rounded_counterexample :
  exists x : Binary64.float,
    Binary64.content_invisible_without_js_percentage (report 1 3) = Ok x
    /\ x = SpecFloat.SFdiv Binary64.prec Binary64.emax
             (Binary64.exact 6667) (Binary64.exact 100)
    /\ ~ (Binary64.float_value x == inject_Z (3 - 1) / inject_Z 3 * 100)%Q
    /\ (quotient ← Binary64.truediv (3 - 1) 3;
        Ok (Binary64.mul quotient (Binary64.float_of_int 100))) <> Ok x.
Proof.
  eexists. split; [vm_compute; reflexivity|]. split; [vm_compute; reflexivity|]. split.
  - unfold Qeq. vm_compute. discriminate.
  - vm_compute. discriminate.
Qed.

(** The rounding of the code works on the float: for 73 raw and 160
    rendered words the product is a float just below 54.375, so the code
    answers 54.37, where rounding the number 87/160 * 100 = 54.375 itself
    would give 54.38; and for 67 raw and 160 rendered words the product
    is a float just above 58.125 and the code answers 58.13, where the
    number itself would give 58.12. *)
Lemma percentage_rounds_the_float :
  Binary64.content_invisible_without_js_percentage (report 73 160)
  = Ok (SpecFloat.SFdiv Binary64.prec Binary64.emax
          (Binary64.exact 5437) (Binary64.exact 100))
  /\ (content_invisible_without_js_percentage (report 73 160) == 5438 # 100)%Q
  /\ Binary64.content_invisible_without_js_percentage (report 67 160)
     = Ok (SpecFloat.SFdiv Binary64.prec Binary64.emax
             (Binary64.exact 5813) (Binary64.exact 100))
  /\ (content_invisible_without_js_percentage (report 67 160) == 5812 # 100)%Q.
Proof.
  split; [vm_compute; reflexivity|]. split; [unfold Qeq; vm_compute; reflexivity|].
  split; [vm_compute; reflexivity|]. unfold Qeq. vm_compute. reflexivity.
Qed.

(** C9 (amended): for word counts that are not negative, the delta is
    rendered minus raw, and the percentage is what the specification
    describes once the rounding is added: when rendered exceeds raw, the
    quotient (rendered - raw) / rendered and its product with 100, both
    taken in double precision, rounded to two decimal places by
    [round(x, 2)], and the float 0.0 otherwise. The property always
    returns a float: the division is never one by zero and never
    overflows. 3 raw and 6 rendered words give delta 3 and the float
    50.0, which stands for the number 50. *)
Theorem difference_report_metrics (d : DifferenceReport) :
  (0 <= raw_word_count d)%Z ->
  word_count_delta d = (rendered_word_count d - raw_word_count d)%Z
  /\ Binary64.content_invisible_without_js_percentage d
     = Binary64.invisible_share (raw_word_count d) (rendered_word_count d)
  /\ ((raw_word_count d < rendered_word_count d)%Z ->
      Binary64.content_invisible_without_js_percentage d
      = Ok (Binary64.round_2
              (Binary64.mul
                 (SpecFloat.SFdiv Binary64.prec Binary64.emax
                    (Binary64.exact (rendered_word_count d - raw_word_count d))
                    (Binary64.exact (rendered_word_count d)))
                 (Binary64.float_of_int 100))))
  /\ ((rendered_word_count d <= raw_word_count d)%Z ->
      Binary64.content_invisible_without_js_percentage d = Ok Binary64.zero)
  /\ returns (Binary64.content_invisible_without_js_percentage d)
  /\ (raw_word_count d = 3%Z -> rendered_word_count d = 6%Z ->
      word_count_delta d = 3%Z
      /\ Binary64.content_invisible_without_js_percentage d
         = Ok (Binary64.float_of_int 50)
      /\ (Binary64.float_value (Binary64.float_of_int 50) == 50)%Q).
Proof.
  intros Hraw.
  assert (Hlt : (raw_word_count d < rendered_word_count d)%Z ->
                Binary64.content_invisible_without_js_percentage d
                = Ok (Binary64.round_2
                        (Binary64.mul
                           (SpecFloat.SFdiv Binary64.prec Binary64.emax
                              (Binary64.exact (rendered_word_count d - raw_word_count d))
                              (Binary64.exact (rendered_word_count d)))
                           (Binary64.float_of_int 100)))
                /\ Binary64.invisible_share (raw_word_count d) (rendered_word_count d)
                   = Binary64.content_invisible_without_js_percentage d).
  { intros H. unfold Binary64.content_invisible_without_js_percentage,
      Binary64.invisible_share.
    destruct (Z.eqb_spec (rendered_word_count d) 0); [lia|].
    destruct (Z.geb_spec (raw_word_count d) (rendered_word_count d)); [lia|].
    destruct (Z.ltb_spec (raw_word_count d) (rendered_word_count d)); [|lia].
    rewrite truediv_returns by lia. split; reflexivity. }
  assert (Hle : (rendered_word_count d <= raw_word_count d)%Z ->
                Binary64.content_invisible_without_js_percentage d = Ok Binary64.zero
                /\ Binary64.invisible_share (raw_word_count d) (rendered_word_count d)
                   = Ok Binary64.zero).
  { intros H. unfold Binary64.content_invisible_without_js_percentage,
      Binary64.invisible_share.
    destruct (Z.ltb_spec (raw_word_count d) (rendered_word_count d)); [lia|].
    destruct (Z.eqb_spec (rendered_word_count d) 0); [split; reflexivity|].
    destruct (Z.geb_spec (raw_word_count d) (rendered_word_count d));
      [split; reflexivity|lia]. }
  split; [reflexivity|].
  split; [|split; [apply Hlt|split; [apply Hle|split]]].
  - destruct (Z.lt_ge_cases (raw_word_count d) (rendered_word_count d)) as [H|H].
    + symmetry. apply Hlt. exact H.
    + destruct (Hle H) as [-> ->]. reflexivity.
  - destruct (Z.lt_ge_cases (raw_word_count d) (rendered_word_count d)) as [H|H].
    + destruct (Hlt H) as [-> _]. eexists. reflexivity.
    + destruct (Hle H) as [-> _]. eexists. reflexivity.
  - intros H3 H6. unfold word_count_delta.
    rewrite (proj1 (Hlt ltac:(lia))), H3, H6.
    split; [reflexivity|]. split; [vm_compute; reflexivity|].
    unfold Qeq. vm_compute. reflexivity.
Qed.

Lemma difference_report_metrics_witness :
  word_count_delta (report 3 6) = 3%Z
  /\ Binary64.content_invisible_without_js_percentage (report 3 6)
     = Ok (Binary64.float_of_int 50)
  /\ (Binary64.float_value (Binary64.float_of_int 50) == 50)%Q.
Proof.
  destruct (difference_report_metrics (report 3 6)) as (_ & _ & _ & _ & _ & H).
  - simpl. lia.
  - apply H; reflexivity.
Defined.

End FloatMetricFacts.

(** ** The job runner *)

Section RunnerFacts.
Import Models Fetcher JobRunner.

Variable set_order : gset string -> list string.
Context {raw_fetcher : Fetcher RawFetchResult}.
Context {js_fetcher : Fetcher RenderedFetchResult}.
Variable html_parser : string -> Dom.node.
Variable urljoin : string -> string -> result string.
Variable urlparse_netloc : string -> result string.
Variable differ_compare : ExtractedContent -> ExtractedContent -> result DifferenceReport.
Variable frames : nat.
Variables fetch_timeout render_timeout : Z.
Variables clock_start clock_end : Z.

Local Abbreviation process_url :=
  (_process_url html_parser urljoin urlparse_netloc differ_compare frames
     fetch_timeout render_timeout).
Local Abbreviation run_job :=
  (run_job_async set_order html_parser urljoin urlparse_netloc differ_compare frames
     fetch_timeout render_timeout clock_start clock_end).
Local Abbreviation validated_urls := (_validate_and_deduplicate set_order).

(** An analysis the pipeline returns carries the URL it was started with. *)
Lemma _process_url_keeps_url url a : process_url url = Ok a -> analysis_url a = url.
Proof.
  unfold _process_url. intros H.
  destruct (fetch url fetch_timeout) as [[raw_fetch raw_error]|e]; simpl in H; [|discriminate].
  destruct (match raw_fetch with Some r => _ | None => _ end) as [http final].
  destruct raw_fetch as [r|]; simpl in H.
  - destruct (fetch url render_timeout) as [[rendered_fetch render_error]|e];
      simpl in H; [|discriminate].
    repeat match type of H with
           | context [let '(_, _) := ?x in _] => destruct x
           end.
    injection H as <-. reflexivity.
  - injection H as <-. reflexivity.
Qed.

Lemma analyses_urls (l : list string) :
  map analysis_url (zip_with analysis_of l (map process_url l)) = l.
Proof.
  induction l as [|url l IH]; [reflexivity|].
  simpl. rewrite IH. f_equal.
  destruct (process_url url) as [a|e] eqn:E; [|reflexivity].
  simpl. eapply _process_url_keeps_url. exact E.
Qed.

Lemma analyses_lookup (l : list string) i url :
  l !! i = Some url ->
  zip_with analysis_of l (map process_url l) !! i
  = Some (analysis_of url (process_url url)).
Proof.
  revert i. induction l as [|u l IH]; intros [|i] H; simpl in *; try discriminate.
  - injection H as ->. reflexivity.
  - apply IH. exact H.
Qed.

(** The set the validation loop builds holds the URLs of the first-seen
    pass, which has no repetition. *)
Lemma validate_step_first_seen (urls : list string) (seen : gset string) :
  fold_left validate_step urls seen = seen ∪ list_to_set (first_seen_go seen urls)
  /\ NoDup (first_seen_go seen urls)
  /\ forall x, x ∈ first_seen_go seen urls -> x ∉ seen.
Proof.
  revert seen. induction urls as [|url urls IH]; intros seen; simpl.
  - split; [set_solver|]. split; [constructor|]. intros x Hx. inversion Hx.
  - unfold validate_step at 2.
    destruct (Dom.nonempty (Py.strip url)); simpl.
    2:{ apply IH. }
    destruct (new_URLInput (Py.strip url)) as [v|e]; simpl.
    2:{ apply IH. }
    case_bool_decide as Hin; simpl.
    + replace ({[Py.strip url]} ∪ seen) with seen by set_solver. apply IH.
    + destruct (IH ({[Py.strip url]} ∪ seen)) as (Hset & Hnd & Hfresh).
      split; [rewrite Hset; set_solver|]. split.
      * constructor; [|exact Hnd]. intros Hx. apply Hfresh in Hx. set_solver.
      * intros x Hx. apply elem_of_cons in Hx as [->|Hx]; [exact Hin|].
        apply Hfresh in Hx. set_solver.
Qed.

(** C2 (amended): when enumerating a set yields every member once, the
    validation step returns the valid, stripped URLs without repetition,
    as a rearrangement of their first-seen order (the arrangement is that
    of the set's enumeration), and the analyses of the job result follow
    exactly the order of that returned list. *)
Theorem validated_urls_enumerate_first_seen (urls : list string) :
  enumerates set_order ->
  validated_urls urls ≡ₚ first_seen_order urls
  /\ NoDup (validated_urls urls)
  /\ map analysis_url (results (run_job urls)) = validated_urls urls.
Proof.
  intros Henum. unfold _validate_and_deduplicate, first_seen_order.
  destruct (validate_step_first_seen urls ∅) as (Hset & Hnd & _).
  destruct (Henum (fold_left validate_step urls ∅)) as [Hnd' Hmem].
  split; [|split].
  - apply NoDup_Permutation; [exact Hnd'|exact Hnd|].
    intros x. rewrite Hmem, Hset. set_solver.
  - exact Hnd'.
  - apply analyses_urls.
Qed.

End RunnerFacts.

Section RunnerExamples.
Import Models Fetcher JobRunner Samples.

Lemma ascending_enumerates : enumerates ascending.
Proof. intros s. split; [apply NoDup_elements|]. intros x. apply elem_of_elements. Qed.

Lemma descending_enumerates : enumerates descending.
Proof.
  intros s. split.
  - unfold descending. rewrite reverse_Permutation. apply NoDup_elements.
  - intros x. unfold descending. rewrite elem_of_reverse. apply elem_of_elements.
Qed.

(** C2 as it is stated fails: two enumerations of the same set
    give two different lists for the same input, so they cannot both be
    the first-seen order. *)
Lemma validated_order_depends_on_set_counterexample :
  ~ (forall set_order, enumerates set_order ->
       _validate_and_deduplicate set_order sample_urls = first_seen_order sample_urls).
Proof.
  intros H.
  pose proof (H _ ascending_enumerates) as H1.
  pose proof (H _ descending_enumerates) as H2.
  rewrite <- H2 in H1. vm_compute in H1. congruence.
Qed.

Lemma validated_urls_enumerate_first_seen_witness :
  _validate_and_deduplicate descending sample_urls ≡ₚ first_seen_order sample_urls
  /\ NoDup (_validate_and_deduplicate descending sample_urls)
  /\ map analysis_url
       (results (run_job_async descending (raw_fetcher := breaking_raw_fetcher)
                   (js_fetcher := steady_js_fetcher) sample_parser sample_urljoin
                   sample_netloc sample_compare 100 30000 30000 0 1 sample_urls))
     = _validate_and_deduplicate descending sample_urls.
Proof.
  apply (validated_urls_enumerate_first_seen descending (raw_fetcher := breaking_raw_fetcher)
           (js_fetcher := steady_js_fetcher)).
  exact descending_enumerates.
Defined.

End RunnerExamples.

(** ** Failures of single tasks and of the whole job *)

Section IsolationFacts.
Import Models Fetcher JobRunner.
Local Open Scope list_scope.

Variable set_order : gset string -> list string.
Context {raw_fetcher : Fetcher RawFetchResult}.
Context {js_fetcher : Fetcher RenderedFetchResult}.
Variable html_parser : string -> Dom.node.
Variable urljoin : string -> string -> result string.
Variable urlparse_netloc : string -> result string.
Variable differ_compare : ExtractedContent -> ExtractedContent -> result DifferenceReport.
Variable frames : nat.
Variables fetch_timeout render_timeout : Z.
Variables clock_start clock_end : Z.

Local Abbreviation process_url :=
  (_process_url html_parser urljoin urlparse_netloc differ_compare frames
     fetch_timeout render_timeout).
Local Abbreviation job_on_loop :=
  (JobRunner.run_job set_order html_parser urljoin urlparse_netloc differ_compare frames
     fetch_timeout render_timeout clock_start clock_end).
Local Abbreviation job_body :=
  (run_job_async set_order html_parser urljoin urlparse_netloc differ_compare frames
     fetch_timeout render_timeout clock_start clock_end).
Local Abbreviation validated_urls := (_validate_and_deduplicate set_order).
Local Abbreviation entries cancelled l :=
  (zip_with entry_of l
     (map (task_of html_parser urljoin urlparse_netloc differ_compare frames
             fetch_timeout render_timeout cancelled) l)).

(** Without a cancelled task the entries are the analyses of
    [run_job_async], and counting the successful ones raises nothing. *)
Lemma entries_without_cancellation cancelled (l : list string) :
  (forall url, url ∈ l -> cancelled url = false) ->
  entries cancelled l = map Some (zip_with analysis_of l (map process_url l))
  /\ count_succeeded (entries cancelled l)
     = Ok (Z.of_nat (length (List.filter success
                               (zip_with analysis_of l (map process_url l))))).
Proof.
  induction l as [|url l IH]; intros Hc; [split; reflexivity|].
  destruct IH as [IH1 IH2]; [intros u Hu; apply Hc; right; exact Hu|].
  assert (E : entry_of url
                (task_of html_parser urljoin urlparse_netloc differ_compare frames
                   fetch_timeout render_timeout cancelled url)
              = Some (analysis_of url (process_url url))).
  { unfold task_of. rewrite (Hc url) by left. destruct (process_url url); reflexivity. }
  cbn [map zip_with]. rewrite E. split.
  - rewrite IH1. reflexivity.
  - cbn [count_succeeded]. rewrite IH2. cbn [mbind result_bind List.filter].
    destruct (success (analysis_of url (process_url url))); [|reflexivity].
    cbn [length]. f_equal. lia.
Qed.

Lemma omap_id_Some {A} (l : list A) : omap id (map Some l) = l.
Proof. induction l as [|x l IH]; [reflexivity|]. cbn. rewrite IH. reflexivity. Qed.

(** With room for a task and no task cancelled, the job on the loop
    returns what [run_job_async] computes. *)
Lemma run_job_returns max_concurrency cancelled urls :
  (1 <= max_concurrency)%Z ->
  (forall url, url ∈ validated_urls urls -> cancelled url = false) ->
  job_on_loop max_concurrency cancelled urls = JobReturned (job_body urls).
Proof.
  intros Hmc Hc. unfold JobRunner.run_job.
  destruct (Z.ltb_spec max_concurrency 0); [lia|].
  destruct (Z.eqb_spec max_concurrency 0); [lia|]. cbn [andb].
  destruct (entries_without_cancellation cancelled _ Hc) as [E1 E2].
  rewrite E2, E1, omap_id_Some, length_map. reflexivity.
Qed.

(** A cancelled task makes the job raise instead of returning. *)
Lemma count_succeeded_cancelled cancelled (l : list string) url :
  url ∈ l -> cancelled url = true ->
  count_succeeded (entries cancelled l)
  = Raise (OtherError "'CancelledError' object has no attribute 'success'").
Proof.
  intros Hin Hc. induction l as [|u l IH]; [inversion Hin|].
  cbn [map zip_with]. unfold task_of at 1.
  destruct (cancelled u) eqn:Hu; [reflexivity|].
  apply elem_of_cons in Hin as [->|Hin]; [congruence|].
  destruct (process_url u); cbn [entry_of count_succeeded]; rewrite (IH Hin); reflexivity.
Qed.

(** Outside these conditions the job does not return a result: a
    negative [max_concurrency] makes the semaphore raise, with the value
    0 a task that is not cancelled waits for ever, and a cancelled task
    makes the count of the successes raise. *)
Lemma run_job_ends_otherwise (max_concurrency : Z) cancelled urls :
  ((max_concurrency < 0)%Z ->
   job_on_loop max_concurrency cancelled urls
   = JobRaised (ValueError "Semaphore initial value must be >= 0"))
  /\ (max_concurrency = 0%Z ->
      (exists url, url ∈ validated_urls urls /\ cancelled url = false) ->
      job_on_loop max_concurrency cancelled urls = JobNeverReturns)
  /\ ((1 <= max_concurrency)%Z ->
      (exists url, url ∈ validated_urls urls /\ cancelled url = true) ->
      job_on_loop max_concurrency cancelled urls
      = JobRaised (OtherError "'CancelledError' object has no attribute 'success'")).
Proof.
  unfold JobRunner.run_job. split; [|split].
  - intros H. destruct (Z.ltb_spec max_concurrency 0); [reflexivity|lia].
  - intros -> (url & Hin & Hc). cbn.
    replace (existsb _ _) with true; [reflexivity|].
    symmetry. apply existsb_exists. exists url.
    split; [apply list_elem_of_In; exact Hin|]. rewrite Hc. reflexivity.
  - intros H (url & Hin & Hc).
    destruct (Z.ltb_spec max_concurrency 0); [lia|].
    destruct (Z.eqb_spec max_concurrency 0); [lia|]. cbn [andb].
    rewrite (count_succeeded_cancelled cancelled _ url Hin Hc). reflexivity.
Qed.

End IsolationFacts.

Section IsolationExamples.
Import Models Fetcher JobRunner Samples.



End IsolationExamples.

(** ** The wait step of the rendered fetcher *)

Section WaitFacts.
Import Fetcher Samples.

(** With a strategy that is none of the three, the call only calls itself
    again: it touches neither the page nor the clock and ends when the
    frames are used up. *)
Lemma _wait_for_content_unrecognised frames self page timeout :
  recognised (wait_strategy self) = false ->
  _wait_for_content frames self page timeout = ([], Raise RecursionError).
Proof.
  unfold recognised. intros H.
  apply orb_false_elim in H as [H H3]. apply orb_false_elim in H as [H1 H2].
  induction frames as [|frames IH]; simpl; [reflexivity|].
  rewrite H1, H2, H3. exact IH.
Qed.

(** C10: with the strategy [networkidle] (none of the three recognised
    spellings) the wait step never waits for the network to be idle and
    never returns, however many frames it is given; it ends in
    [RecursionError]. With [network_idle] the same page is waited for and
    the call returns. *)
Theorem _wait_for_content_unrecognised_never_returns :
  (forall frames page timeout,
     _wait_for_content frames (fetcher_with "networkidle") page timeout
     = ([], Raise RecursionError))
  /\ (forall frames timeout,
        _wait_for_content (S frames) (fetcher_with "network_idle") quiet_page timeout
        = ([WaitForLoadState "networkidle" timeout], Ok tt)).
Proof.
  split.
  - intros. apply _wait_for_content_unrecognised. reflexivity.
  - intros. reflexivity.
Qed.

End WaitFacts.

(** ** White space and tokens *)

Section TokenFacts.
Import Extractor.
Local Open Scope list_scope.

Lemma string_app_cons x (a b : string) : String x a +:+ b = String x (a +:+ b).
Proof. reflexivity. Qed.

Lemma string_app_assoc (a b c : string) : (a +:+ b) +:+ c = a +:+ (b +:+ c).
Proof.
  induction a as [|x a IH]; [reflexivity|]. rewrite !string_app_cons, IH. reflexivity.
Qed.

Lemma string_app_nil_r (a : string) : a +:+ "" = a.
Proof.
  induction a as [|x a IH]; [reflexivity|]. rewrite string_app_cons, IH. reflexivity.
Qed.

Lemma no_space_app a b :
  Py.no_space (a +:+ b) = Py.no_space a && Py.no_space b.
Proof.
  induction a as [|x a IH]; [reflexivity|].
  change (String x a +:+ b) with (String x (a +:+ b)). cbn [Py.no_space].
  rewrite IH. apply andb_assoc.
Qed.

Lemma rstrip_no_space w : Py.no_space w = true -> Py.rstrip w = w.
Proof.
  induction w as [|c w IH]; [reflexivity|]. simpl. intros H.
  apply andb_prop in H as [Hc Hw]. rewrite (IH Hw).
  destruct w; [|reflexivity]. apply negb_true_iff in Hc. rewrite Hc. reflexivity.
Qed.

Lemma rstrip_app a b :
  Py.rstrip (a +:+ b)
  = match Py.rstrip b with EmptyString => Py.rstrip a | r => a +:+ r end.
Proof.
  induction a as [|c a IH].
  - change ("" +:+ b) with b. cbn [Py.rstrip]. destruct (Py.rstrip b); reflexivity.
  - change (String c a +:+ b) with (String c (a +:+ b)).
    cbn [Py.rstrip]. rewrite IH. destruct (Py.rstrip b) as [|y r]; [reflexivity|].
    destruct a; reflexivity.
Qed.

(** The tokens [split] returns have no white space and are not empty. *)
Lemma split_go_tokens s : forall w,
  Py.no_space w = true -> Forall (fun t => Py.is_token t = true) (Py.split_go w s).
Proof.
  induction s as [|c s IH]; intros w Hw; cbn [Py.split_go].
  - destruct w; [constructor|]. repeat constructor. unfold Py.is_token. rewrite Hw. reflexivity.
  - destruct (Py.is_space c) eqn:Hc.
    + destruct w.
      * apply IH. reflexivity.
      * constructor; [unfold Py.is_token; rewrite Hw; reflexivity|]. apply IH. reflexivity.
    + apply IH. rewrite no_space_app, Hw. simpl. rewrite Hc. reflexivity.
Qed.

Lemma split_tokens s : Forall (fun t => Py.is_token t = true) (Py.split s).
Proof. apply split_go_tokens. reflexivity. Qed.

Lemma lstrip_collapse_run s : Py.lstrip (collapse_ws true s) = collapse_ws true s.
Proof.
  induction s as [|c s IH]; [reflexivity|]. cbn [collapse_ws].
  destruct (Py.is_space c) eqn:Hc; [exact IH|]. cbn [Py.lstrip]. rewrite Hc. reflexivity.
Qed.

Lemma lstrip_collapse s : Py.lstrip (collapse_ws false s) = collapse_ws true s.
Proof.
  destruct s as [|c s]; [reflexivity|]. cbn [collapse_ws].
  destruct (Py.is_space c) eqn:Hc.
  - cbn [Py.lstrip]. change (Py.is_space " ") with true. cbv iota. apply lstrip_collapse_run.
  - cbn [Py.lstrip]. rewrite Hc. reflexivity.
Qed.

Lemma join_tokens_nonempty (t : string) (ts : list string) :
  t <> "" -> Py.join " " (t :: ts) <> "".
Proof.
  intros Ht. rewrite join_cons. destruct ts; [exact Ht|].
  destruct t; [done|discriminate].
Qed.

(** The word being read, then what [collapse_ws] leaves of the rest,
    stripped on the right, is the tokens joined with single spaces. *)
Lemma rstrip_collapse_split s : forall w,
  Py.no_space w = true ->
  Py.rstrip (w +:+ (if String.eqb w "" then collapse_ws true s else collapse_ws false s))
  = Py.join " " (Py.split_go w s).
Proof.
  induction s as [|c s IH]; intros w Hw.
  - cbn [collapse_ws Py.split_go].
    assert (E : (if String.eqb w "" then "" else "") = "") by (destruct (String.eqb w ""); reflexivity).
    rewrite E, string_app_nil_r, rstrip_no_space by exact Hw. destruct w; reflexivity.
  - cbn [collapse_ws Py.split_go]. destruct (Py.is_space c) eqn:Hc.
    + assert (IH0 : Py.rstrip (collapse_ws true s) = Py.join " " (Py.split_go "" s))
        by exact (IH "" eq_refl).
      destruct w as [|x w]; [exact IH0|].
      change (String.eqb (String x w) "") with false. cbv iota.
      rewrite rstrip_app. cbn [Py.rstrip]. rewrite IH0.
      pose proof (split_go_tokens s "" eq_refl) as Htok.
      destruct (Py.split_go "" s) as [|t ts] eqn:E.
      * change (Py.join " " []) with "". cbv iota.
        change (Py.is_space " ") with true. cbv iota.
        change (Py.rstrip (String x w) = String x w).
        apply rstrip_no_space. exact Hw.
      * inversion Htok as [|? ? Ht _]; subst.
        assert (Hne : Py.join " " (t :: ts) <> "").
        { apply join_tokens_nonempty. unfold Py.is_token in Ht.
          apply andb_prop in Ht as [_ Ht]. apply negb_true_iff in Ht.
          apply String.eqb_neq in Ht. exact Ht. }
        rewrite (join_cons " " (String x w) (t :: ts)).
        destruct (Py.join " " (t :: ts)) as [|y r] eqn:EJ; [done|]. reflexivity.
    + assert (Hw' : Py.no_space (w +:+ String c "") = true).
      { rewrite no_space_app, Hw. cbn [Py.no_space]. rewrite Hc. reflexivity. }
      specialize (IH _ Hw').
      assert (Hne : String.eqb (w +:+ String c "") "" = false) by (destruct w; reflexivity).
      rewrite Hne in IH. rewrite <- IH.
      rewrite string_app_assoc. change (String c "" +:+ collapse_ws false s)
        with (String c (collapse_ws false s)).
      destruct (String.eqb w ""); reflexivity.
Qed.

Lemma normalize_joins_tokens (text : string) :
  _normalize_whitespace text = Py.join " " (Py.split text).
Proof.
  unfold _normalize_whitespace, Py.strip, Py.split.
  rewrite lstrip_collapse. exact (rstrip_collapse_split text "" eq_refl).
Qed.

(** X1: [_normalize_whitespace] returns the tokens of the text (its
    maximal runs of characters that are not white space), in their order,
    joined by single spaces; a text of white space only gives the empty
    string. *)
Theorem _normalize_whitespace_joins_tokens (text : string) :
  _normalize_whitespace text = Py.join " " (Py.split text).
Proof. apply normalize_joins_tokens. Qed.


Lemma split_go_app_token t : forall w r,
  Py.no_space t = true -> Py.split_go w (t +:+ r) = Py.split_go (w +:+ t) r.
Proof.
  induction t as [|c t IH]; intros w r Ht.
  - rewrite string_app_nil_r. reflexivity.
  - cbn [Py.no_space] in Ht. apply andb_prop in Ht as [Hc Ht].
    apply negb_true_iff in Hc.
    rewrite string_app_cons. cbn [Py.split_go]. rewrite Hc.
    rewrite IH by exact Ht. rewrite string_app_assoc. reflexivity.
Qed.

(** Splitting what was joined with single spaces gives the tokens back. *)
Lemma split_join_tokens (ts : list string) :
  Forall (fun t => Py.is_token t = true) ts -> Py.split (Py.join " " ts) = ts.
Proof.
  unfold Py.split. induction 1 as [|t ts Ht _ IH]; [reflexivity|].
  unfold Py.is_token in Ht. apply andb_prop in Ht as [Hns Hne].
  rewrite join_cons. destruct ts as [|t' ts].
  - rewrite <- (string_app_nil_r t) at 1. rewrite split_go_app_token by exact Hns.
    change ("" +:+ t) with t. cbn [Py.split_go]. destruct t; [discriminate|reflexivity].
  - rewrite split_go_app_token by exact Hns. change ("" +:+ t) with t.
    change (" " +:+ Py.join " " (t' :: ts)) with (String " " (Py.join " " (t' :: ts))).
    cbn [Py.split_go]. change (Py.is_space " ") with true. cbv iota.
    rewrite IH. destruct t; [discriminate|reflexivity].
Qed.

Lemma normalized_tokens_round_trip (s : string) :
  Py.split (Py.join " " (Py.split s)) = Py.split s.
Proof. apply split_join_tokens, split_tokens. Qed.

Lemma lstrip_starts_clean s : Py.starts_clean (Py.lstrip s) = true.
Proof.
  induction s as [|c s IH]; [reflexivity|]. cbn [Py.lstrip].
  destruct (Py.is_space c) eqn:Hc; [exact IH|]. simpl. rewrite Hc. reflexivity.
Qed.

Lemma lstrip_clean s : Py.starts_clean s = true -> Py.lstrip s = s.
Proof.
  destruct s as [|c s]; [reflexivity|]. simpl. intros H.
  apply negb_true_iff in H. rewrite H. reflexivity.
Qed.

Lemma rstrip_starts_clean s : Py.starts_clean s = true -> Py.starts_clean (Py.rstrip s) = true.
Proof.
  destruct s as [|c s]; [reflexivity|]. cbn [Py.starts_clean Py.rstrip]. intros H.
  destruct (Py.rstrip s); [|exact H].
  apply negb_true_iff in H. rewrite H. simpl. rewrite H. reflexivity.
Qed.

Lemma rstrip_idempotent s : Py.rstrip (Py.rstrip s) = Py.rstrip s.
Proof.
  induction s as [|c s IH]; [reflexivity|]. cbn [Py.rstrip].
  destruct (Py.rstrip s) as [|y r] eqn:E.
  - destruct (Py.is_space c) eqn:Hc; [reflexivity|]. cbn [Py.rstrip]. rewrite Hc. reflexivity.
  - cbn [Py.rstrip] in *. rewrite IH. reflexivity.
Qed.

(** Stripping twice is stripping once. *)
Lemma strip_idempotent s : Py.strip (Py.strip s) = Py.strip s.
Proof.
  unfold Py.strip.
  rewrite (lstrip_clean (Py.rstrip (Py.lstrip s))).
  - apply rstrip_idempotent.
  - apply rstrip_starts_clean, lstrip_starts_clean.
Qed.

Lemma split_go_app_space a : forall w b,
  Py.split_go w (a +:+ String " " b) = Py.split_go w a ++ Py.split_go "" b.
Proof.
  induction a as [|c a IH]; intros w b.
  - change ("" +:+ String " " b) with (String " " b). cbn [Py.split_go].
    change (Py.is_space " ") with true. cbv iota. destruct w; reflexivity.
  - rewrite string_app_cons. cbn [Py.split_go]. destruct (Py.is_space c).
    + destruct w; [apply IH|]. rewrite IH. reflexivity.
    + apply IH.
Qed.

(** The tokens of strings joined with spaces are the tokens of each. *)
Lemma split_join (parts : list string) :
  Py.split (Py.join " " parts) = flat_map Py.split parts.
Proof.
  induction parts as [|p parts IH]; [reflexivity|].
  rewrite join_cons. destruct parts as [|p' parts].
  - simpl. rewrite app_nil_r. reflexivity.
  - change (" " +:+ Py.join " " (p' :: parts)) with (String " " (Py.join " " (p' :: parts))).
    unfold Py.split at 1. rewrite split_go_app_space.
    cbn [flat_map]. f_equal. exact IH.
Qed.

(** X2: normalising twice is normalising once, and normalising keeps the
    tokens of the text, so the word count taken from a normalised text is
    the one of the text itself. *)
Theorem _normalize_whitespace_idempotent (text : string) :
  _normalize_whitespace (_normalize_whitespace text) = _normalize_whitespace text
  /\ Py.split (_normalize_whitespace text) = Py.split text.
Proof.
  rewrite !normalize_joins_tokens. rewrite normalized_tokens_round_trip. done.
Qed.

(** X3: when [_extract_visible_text] returns, the text is made of the
    tokens of the visible strings of the page, in document order, joined
    by single spaces: it has no white space at its ends, no run of white
    space inside, and splitting it gives back exactly those tokens. *)
Theorem visible_text_is_joined_tokens (frames : nat) (soup : Dom.node) (text : string) :
  _extract_visible_text frames soup = Ok text ->
  exists parts,
    visible_parts frames (Dom.find_all_strings [] soup) = Ok parts
    /\ text = Py.join " " (flat_map Py.split parts)
    /\ Py.split text = flat_map Py.split parts.
Proof.
  unfold _extract_visible_text. intros H.
  destruct (visible_parts frames (Dom.find_all_strings [] soup)) as [parts|e]; [|discriminate].
  exists parts. split; [reflexivity|].
  simpl in H. injection H as <-.
  assert (E : Py.strip (_normalize_whitespace (Py.join " " parts))
              = Py.join " " (flat_map Py.split parts)).
  { unfold _normalize_whitespace at 1. rewrite strip_idempotent.
    fold (_normalize_whitespace (Py.join " " parts)).
    rewrite normalize_joins_tokens, split_join. reflexivity. }
  rewrite E. split; [reflexivity|].
  rewrite <- split_join. apply normalized_tokens_round_trip.
Qed.

End TokenFacts.

Section TokenExamples.
Import Extractor Samples.

Lemma visible_text_is_joined_tokens_witness :
  exists parts,
    visible_parts 10 (Dom.find_all_strings [] spaced_page) = Ok parts
    /\ "Hello big world" = Py.join " " (flat_map Py.split parts)
    /\ Py.split "Hello big world" = flat_map Py.split parts.
Proof.
  apply (visible_text_is_joined_tokens 10 spaced_page "Hello big world").
  vm_compute. reflexivity.
Defined.

End TokenExamples.

(** ** The text comparison of the differ *)

Section BlockFacts.
Import Differ.
Local Open Scope list_scope.

Lemma is_space_lower_char c : Py.is_space (Py.lower_char c) = Py.is_space c.
Proof.
  destruct c as [[] [] [] [] [] [] [] []]; reflexivity.
Qed.

Lemma split_go_lower s : forall w,
  Py.split_go (Py.lower w) (Py.lower s) = map Py.lower (Py.split_go w s).
Proof.
  induction s as [|c s IH]; intros w.
  - cbn [Py.lower Py.split_go]. destruct w; reflexivity.
  - cbn [Py.lower Py.split_go]. rewrite is_space_lower_char.
    destruct (Py.is_space c).
    + destruct w; [apply (IH "")|]. cbn [Py.lower map]. f_equal. apply (IH "").
    + rewrite <- IH. rewrite lower_app. reflexivity.
Qed.

(** Lower-casing a text lower-cases its tokens. *)
Lemma split_lower s : Py.split (Py.lower s) = map Py.lower (Py.split s).
Proof. exact (split_go_lower s ""). Qed.

Lemma Forall_app_parts {A} (P : A -> Prop) (a b c : list A) :
  Forall P (a ++ b ++ c) -> Forall P b.
Proof. rewrite !Forall_app. tauto. Qed.

Lemma block_facts (text : string) (unique_words : gset string) (block : string) :
  block ∈ _group_words_into_blocks text unique_words ->
  3 <= length (Py.split block)
  /\ Forall (fun w => Py.lower w ∈ unique_words) (Py.split block)
  /\ block = Py.join " " (Py.split block)
  /\ exists before after, Py.split text = before ++ Py.split block ++ after.
Proof.
  rewrite _group_words_into_blocks_runs. intros Hin.
  apply list_elem_of_fmap in Hin as (r & -> & Hr).
  apply list_elem_of_In, filter_In in Hr as [Hr Hlen]. apply list_elem_of_In in Hr.
  unfold runs in Hr. apply runs_go_maximal in Hr as (before & after & Heq & Hne & Hall & _);
    [|constructor].
  simpl in Heq.
  assert (Htok : Forall (fun t => Py.is_token t = true) r).
  { apply (Forall_app_parts _ before r after). rewrite <- Heq. apply split_tokens. }
  rewrite (split_join_tokens r Htok).
  split; [apply Nat.leb_le; exact Hlen|]. split; [|split; [reflexivity|eauto]].
  eapply Forall_impl; [exact Hall|]. intros w Hw. unfold is_unique in Hw.
  apply bool_decide_eq_true in Hw. exact Hw.
Qed.

(** X8: every block of [_group_words_into_blocks] splits into at least
    three tokens, all of them unique words once lower-cased; the block is
    those tokens joined by single spaces, and they stand next to each
    other in the text. *)
Theorem blocks_retokenize (text : string) (unique_words : gset string) :
  Forall (fun block =>
            3 <= length (Py.split block)
            /\ Forall (fun w => Py.lower w ∈ unique_words) (Py.split block)
            /\ block = Py.join " " (Py.split block)
            /\ exists before after, Py.split text = before ++ Py.split block ++ after)
    (_group_words_into_blocks text unique_words).
Proof. apply Forall_forall. intros block. apply block_facts. Qed.

(** X9: every word of a block reported as present only with JavaScript is
    a word of the rendered text that the raw text has in no spelling of
    upper and lower case, and the other way round for the blocks reported
    as present only without JavaScript. *)
Theorem _compare_text_blocks_are_absent_words (raw_text rendered_text : string) :
  (forall block w,
     block ∈ (_compare_text raw_text rendered_text).1 -> w ∈ Py.split block ->
     w ∈ Py.split rendered_text
     /\ forall w', w' ∈ Py.split raw_text -> Py.lower w' <> Py.lower w)
  /\ (forall block w,
        block ∈ (_compare_text raw_text rendered_text).2 -> w ∈ Py.split block ->
        w ∈ Py.split raw_text
        /\ forall w', w' ∈ Py.split rendered_text -> Py.lower w' <> Py.lower w).
Proof.
  unfold _compare_text. cbn [fst snd].
  split; intros block w Hb Hw;
    apply block_facts in Hb as (_ & Hall & _ & before & after & Heq);
    rewrite Forall_forall in Hall; specialize (Hall w Hw);
    apply elem_of_difference in Hall as [_ Hnot].
  - split; [rewrite Heq; set_solver|].
    intros w' Hw' E. apply Hnot. rewrite elem_of_list_to_set, split_lower, <- E.
    apply list_elem_of_fmap. eauto.
  - split; [rewrite Heq; set_solver|].
    intros w' Hw' E. apply Hnot. rewrite elem_of_list_to_set, split_lower, <- E.
    apply list_elem_of_fmap. eauto.
Qed.

(** A token of one text is unique to its side exactly when no token of
    the other text has the same lower-cased form. *)
Lemma unique_to_side (mine other : string) (w : string) :
  w ∈ Py.split mine ->
  is_unique (list_to_set (Py.split (Py.lower mine)) ∖ list_to_set (Py.split (Py.lower other))) w
  = true
  <-> forall w', w' ∈ Py.split other -> Py.lower w' <> Py.lower w.
Proof.
  intros Hw. unfold is_unique. rewrite bool_decide_eq_true, elem_of_difference.
  rewrite !elem_of_list_to_set, !split_lower, !list_elem_of_fmap. split.
  - intros [_ Hnot] w' Hw' E. apply Hnot. exists w'. auto.
  - intros H. split; [exists w; auto|]. intros (w' & E & Hw'). apply (H w' Hw'). auto.
Qed.

(** C7: for every pair of texts, the blocks the text comparison reports
    for a side are, from left to right, the maximal runs of that side's
    unique tokens that have three tokens or more, each joined with single
    spaces in its order and spelling; shorter runs give no block. A token
    is unique to its side when its lower-cased form is in the side's
    unique set, that is when no token of the other side has the same
    lower-cased form. The runs listed are exactly the stretches of the
    token list that are not empty, consist of unique tokens and are
    bounded on each side by an end of the list or a token that is not
    unique. The two lists of text blocks in the report of [compare] are
    those of the text comparison on the two visible texts. *)
Theorem blocks_are_long_maximal_runs (raw_text rendered_text : string) :
  let only_with_js : gset string :=
    list_to_set (Py.split (Py.lower rendered_text))
    ∖ list_to_set (Py.split (Py.lower raw_text)) in
  let only_without_js : gset string :=
    list_to_set (Py.split (Py.lower raw_text))
    ∖ list_to_set (Py.split (Py.lower rendered_text)) in
  let emitted (unique_words : gset string) (text : string) :=
    map (Py.join " ")
      (List.filter (fun r => (3 <=? length r)%nat) (runs unique_words (Py.split text))) in
  _compare_text raw_text rendered_text
  = (emitted only_with_js rendered_text, emitted only_without_js raw_text)
  /\ (forall w, w ∈ Py.split rendered_text ->
      is_unique only_with_js w = true
      <-> forall w', w' ∈ Py.split raw_text -> Py.lower w' <> Py.lower w)
  /\ (forall w, w ∈ Py.split raw_text ->
      is_unique only_without_js w = true
      <-> forall w', w' ∈ Py.split rendered_text -> Py.lower w' <> Py.lower w)
  /\ (forall (unique_words : gset string) (text : string) (r : list string),
       r ∈ runs unique_words (Py.split text)
       <-> exists before after,
             Py.split text = before ++ r ++ after
             /\ maximal_run unique_words before r after)
  /\ forall set_order pair_order (raw rendered : Models.ExtractedContent),
       Models.visible_text raw = raw_text -> Models.visible_text rendered = rendered_text ->
       Models.text_only_with_js (compare set_order pair_order raw rendered)
       = emitted only_with_js rendered_text
       /\ Models.text_only_without_js (compare set_order pair_order raw rendered)
          = emitted only_without_js raw_text.
Proof.
  intros only_with_js only_without_js emitted.
  assert (Htext : _compare_text raw_text rendered_text
                  = (emitted only_with_js rendered_text, emitted only_without_js raw_text)).
  { unfold _compare_text. fold only_with_js only_without_js.
    rewrite !_group_words_into_blocks_runs. reflexivity. }
  split; [exact Htext|]. split; [|split; [|split]].
  4:{ intros set_order pair_order raw rendered Hraw Hrendered. unfold compare.
      rewrite Hraw, Hrendered, Htext.
      destruct (_compare_headings _ _ _) as [hm he].
      destruct (_compare_internal_links _ _ _) as [lm le].
      split; reflexivity. }
  - intros w Hw. apply unique_to_side. exact Hw.
  - intros w Hw. apply unique_to_side. exact Hw.
  - intros unique_words text r. unfold runs. rewrite runs_go_maximal by constructor.
    reflexivity.
Qed.

Lemma _compare_text_blocks_are_absent_words_witness :
  "brown" ∈ Py.split "The quick brown fox"
  /\ forall w', w' ∈ Py.split "The end" -> Py.lower w' <> Py.lower "brown".
Proof.
  apply (proj1 (_compare_text_blocks_are_absent_words "The end" "The quick brown fox")
           "quick brown fox" "brown").
  - apply list_elem_of_In. vm_compute. left. reflexivity.
  - apply list_elem_of_In. vm_compute. right. left. reflexivity.
Defined.

Lemma _compare_text_same (text : string) : _compare_text text text = ([], []).
Proof.
  unfold _compare_text. rewrite difference_diag_L.
  unfold _group_words_into_blocks. rewrite bool_decide_eq_true_2 by reflexivity. reflexivity.
Qed.
End BlockFacts.

(** ** What the cleaning of the document leaves *)

Section CleaningFacts.
Import Dom Extractor.
Local Open Scope list_scope.

Lemma descendants_prune drop (n : node) : forall x,
  x ∈ descendants (prune drop n) ->
  exists d, d ∈ descendants n /\ x = prune drop d /\ drop d = false.
Proof.
  induction n as [s|s|nm attrs cs IH] using node_forall_ind; intros x Hx;
    try (inversion Hx; fail).
  cbn [prune descendants] in *.
  apply list_elem_of_In, in_flat_map in Hx as (c' & Hc' & Hx).
  induction cs as [|c cs IHcs]; [inversion Hc'|].
  inversion IH as [|? ? IHc IHrest]; subst.
  cbn [prune_children] in Hc'. cbn [flat_map].
  destruct (drop c) eqn:Hdrop.
  - destruct (IHcs IHrest Hc') as (d & Hd & E). exists d. split; [|exact E].
    apply elem_of_app. right. exact Hd.
  - destruct Hc' as [<-|Hc'].
    + destruct Hx as [<-|Hx].
      * exists c. split; [set_solver|done].
      * apply list_elem_of_In in Hx. destruct (IHc x Hx) as (d & Hd & E).
        exists d. split; [|exact E]. apply elem_of_app. left. right. exact Hd.
    + destruct (IHcs IHrest Hc') as (d & Hd & E). exists d. split; [|exact E].
      apply elem_of_app. right. exact Hd.
Qed.

Lemma is_comment_prune drop n : is_comment (prune drop n) = is_comment n.
Proof. destruct n; reflexivity. Qed.

Lemma is_named_prune p drop n : is_named p (prune drop n) = is_named p n.
Proof. destruct n; reflexivity. Qed.

(** What a pass removes stays away in the later passes, as long as the
    test looks at nothing a pass changes. *)
Lemma prune_keeps_clean (q : node -> bool) drop (n : node) :
  (forall d drop', q (prune drop' d) = q d) ->
  (forall x, x ∈ descendants n -> q x = false) ->
  forall x, x ∈ descendants (prune drop n) -> q x = false.
Proof.
  intros Hq Hclean x Hx. apply descendants_prune in Hx as (d & Hd & -> & _).
  rewrite Hq. apply Hclean. exact Hd.
Qed.

Lemma prune_cleans (q : node -> bool) (n : node) :
  (forall d drop', q (prune drop' d) = q d) ->
  forall x, x ∈ descendants (prune q n) -> q x = false.
Proof.
  intros Hq x Hx. apply descendants_prune in Hx as (d & Hd & -> & Hdrop).
  rewrite Hq. exact Hdrop.
Qed.

Lemma removed_everywhere (soup : node) (x : node) :
  x ∈ descendants (_remove_ignored_elements soup) ->
  is_comment x = false /\ ignored x = false.
Proof.
  unfold _remove_ignored_elements.
  set (p1 := prune _ soup). set (p2 := prune is_comment p1).
  assert (H2 : forall y, y ∈ descendants p2 -> is_comment y = false /\ ignored y = false).
  { intros y Hy. split.
    - revert y Hy. apply prune_cleans. intros. apply is_comment_prune.
    - revert y Hy. apply prune_keeps_clean; [intros; apply is_named_prune|].
      apply (prune_cleans ignored). intros. apply is_named_prune. }
  clearbody p2. clear p1. revert p2 H2 x.
  induction COOKIE_BANNER_SELECTORS as [|selector selectors IH]; intros p2 H2 x Hx.
  - apply H2. exact Hx.
  - cbn [fold_left] in Hx. revert x Hx. apply IH. intros y Hy. split.
    + revert y Hy. apply prune_keeps_clean; [intros; apply is_comment_prune|].
      intros y Hy. apply H2. exact Hy.
    + revert y Hy. apply prune_keeps_clean; [intros; apply is_named_prune|].
      intros y Hy. apply H2. exact Hy.
Qed.

Lemma child_descendants (c d : node) nm attrs (cs : list node) :
  c ∈ cs -> d ∈ c :: descendants c -> d ∈ descendants (Element nm attrs cs).
Proof.
  intros Hc Hd. cbn [descendants]. apply list_elem_of_In, in_flat_map.
  exists c. split; apply list_elem_of_In; assumption.
Qed.

Lemma find_all_strings_tags (n : node) : forall chain entry,
  entry ∈ find_all_strings chain n ->
  forall t, t ∈ entry.1 ->
  t ∈ chain \/ exists cs, Element (tag_name t) (tag_attrs t) cs ∈ n :: descendants n.
Proof.
  induction n as [s|s|nm attrs cs IH] using node_forall_ind; intros chain entry He t Ht.
  - apply list_elem_of_singleton in He. subst. left. exact Ht.
  - apply list_elem_of_singleton in He. subst. left. exact Ht.
  - cbn [find_all_strings] in He.
    apply list_elem_of_In, in_flat_map in He as (c & Hc & He).
    apply list_elem_of_In in Hc, He. rewrite Forall_forall in IH.
    destruct (IH c Hc _ _ He t Ht) as [Hin|(cs' & Hin)].
    + apply elem_of_cons in Hin as [->|Hin]; [|left; exact Hin].
      right. exists cs. left.
    + right. exists cs'. right. eapply child_descendants; eauto.
Qed.

(** X4: after [_remove_ignored_elements] the document holds, at any
    depth, no comment and no tag with a name of [IGNORED_TAGS]: the later
    passes bring nothing back. *)
Theorem _remove_ignored_elements_leaves_none (soup : node) :
  Forall (fun x => is_comment x = false /\ ignored x = false)
    (descendants (_remove_ignored_elements soup)).
Proof. apply Forall_forall. intros x. apply removed_everywhere. Qed.

(** X5: in a cleaned page no string lies inside a tag with a name of
    [IGNORED_TAGS], at any distance: the text of scripts, styles and
    drawings never reaches the visible text. *)
Theorem ignored_tags_hold_no_text (children : list node) :
  Forall (fun entry => Forall (fun t => tag_name t ∉ IGNORED_TAGS) entry.1)
    (find_all_strings [] (_remove_ignored_elements (soup_of children))).
Proof.
  apply Forall_forall. intros entry He. apply Forall_forall. intros t Ht.
  destruct (_remove_ignored_elements_shape children) as (children' & E & _).
  destruct (find_all_strings_tags _ _ _ He t Ht) as [Hin|(cs & Hin)]; [inversion Hin|].
  apply elem_of_cons in Hin as [Hroot|Hd].
  - rewrite E in Hroot. injection Hroot as -> _ _. vm_compute. intros H. discriminate.
  - apply removed_everywhere in Hd as [_ Hd].
    unfold ignored in Hd. simpl in Hd. apply bool_decide_eq_false in Hd. exact Hd.
Qed.
End CleaningFacts.

(** ** The headings *)

Section HeadingOrderFacts.
Import Dom Extractor.
Local Open Scope list_scope.

Lemma flat_map_nil {A B} (l : list A) : flat_map (fun _ : A => @nil B) l = [].
Proof. induction l; [reflexivity|]. simpl. assumption. Qed.

Lemma flat_map_app_perm {A B} (a b : A -> list B) (l : list A) :
  flat_map (fun x => a x ++ b x) l ≡ₚ flat_map a l ++ flat_map b l.
Proof.
  induction l as [|x l IH]; [reflexivity|]. cbn [flat_map]. rewrite IH.
  rewrite <- !app_assoc. f_equiv. rewrite !app_assoc. f_equiv. apply Permutation_app_comm.
Qed.

(** Two nested loops may be exchanged, up to the order of the result. *)
Lemma flat_map_swap {H X Y} (g : H -> X -> list Y) (hs : list H) (l : list X) :
  flat_map (fun h => flat_map (g h) l) hs
  ≡ₚ flat_map (fun x => flat_map (fun h => g h x) hs) l.
Proof.
  induction hs as [|h hs IH].
  - cbn [flat_map]. rewrite flat_map_nil. reflexivity.
  - cbn [flat_map]. rewrite IH. symmetry. apply flat_map_app_perm.
Qed.

Lemma flat_map_filter {A B} (p : A -> bool) (f : A -> list B) (l : list A) :
  flat_map f (List.filter p l) = flat_map (fun x => if p x then f x else []) l.
Proof.
  induction l as [|x l IH]; [reflexivity|]. cbn [List.filter flat_map].
  destruct (p x); cbn [flat_map]; rewrite IH; reflexivity.
Qed.

(** A tag has at most one of the six names. *)
Lemma one_level_per_tag (x : node) :
  flat_map (fun heading_tag =>
              if is_named (String.eqb heading_tag) x then heading_text x else [])
    HEADING_TAGS
  = if is_heading x then heading_text x else [].
Proof.
  destruct x as [s|s|nm attrs cs]; try reflexivity.
  unfold is_heading, HEADING_TAGS. cbn [is_named existsb flat_map].
  repeat match goal with
         | |- context [String.eqb ?h nm] =>
             destruct (String.eqb_spec h nm) as [<-|?]; [rewrite ?app_nil_r; reflexivity|]
         end.
  reflexivity.
Qed.

Lemma filter_map_flat_map (l : list node) :
  List.filter nonempty (map get_text_strip l) = flat_map heading_text l.
Proof.
  induction l as [|x l IH]; [reflexivity|]. cbn [map List.filter flat_map].
  unfold heading_text at 1. destruct (nonempty (get_text_strip x)); rewrite IH; reflexivity.
Qed.

(** X6: [_extract_headings] returns the non-empty texts of the tags h1 to
    h6 of the document, each tag once: a rearrangement of the headings in
    document order, and never an empty string. *)
Theorem _extract_headings_rearranges_document_order (soup : node) :
  _extract_headings soup ≡ₚ headings_in_document_order soup
  /\ Forall (fun text => text <> "") (_extract_headings soup).
Proof.
  assert (Hperm : _extract_headings soup ≡ₚ headings_in_document_order soup).
  { set (g := fun (heading_tag : string) (x : node) =>
                if is_named (String.eqb heading_tag) x then heading_text x else []).
    assert (E1 : _extract_headings soup
                 = flat_map (fun h => flat_map (g h) (descendants soup)) HEADING_TAGS).
    { unfold _extract_headings, find_all. apply flat_map_ext. intros h.
      apply (flat_map_filter _ heading_text). }
    assert (E2 : headings_in_document_order soup
                 = flat_map (fun x => flat_map (fun h => g h x) HEADING_TAGS)
                     (descendants soup)).
    { unfold headings_in_document_order. rewrite filter_map_flat_map, flat_map_filter.
      apply flat_map_ext. intros x. symmetry. apply one_level_per_tag. }
    rewrite E1, E2. apply flat_map_swap. }
  split; [exact Hperm|].
  rewrite Hperm. unfold headings_in_document_order.
  apply Forall_forall. intros text Hin. apply list_elem_of_In, filter_In in Hin as [_ Hin].
  unfold nonempty in Hin. apply negb_true_iff, String.eqb_neq in Hin. exact Hin.
Qed.
End HeadingOrderFacts.

(** ** The links *)

Section LinkFilterFacts.
Import Dom Extractor Models.
Local Open Scope list_scope.

Variable urljoin : string -> string -> result string.
Variable urlparse_netloc : string -> result string.

Lemma link_of_anchor_kept self anchor l :
  link_of_anchor urljoin urlparse_netloc self anchor = Ok (Some l) ->
  anchor_text l <> ""
  /\ anchor_text l = get_text_strip anchor
  /\ _is_internal_link urlparse_netloc self (href l) = true
  /\ (base_url_given self = None ->
      href l <> "" /\ Py.strip (href l) = href l
      /\ Py.startswith_any (href l) ["javascript:"; "mailto:"; "tel:"; "#"] = false).
Proof.
  unfold link_of_anchor. destruct anchor as [s|s|nm attrs cs]; try discriminate.
  destruct (nonempty (Py.strip (get attrs "href"))) eqn:Hh; [|discriminate].
  destruct (nonempty (get_text_strip (Element nm attrs cs))) eqn:Ht; [|discriminate].
  cbn [negb orb].
  destruct (Py.startswith_any (Py.strip (get attrs "href")) _) eqn:Hs; [discriminate|].
  assert (Hne : forall x, nonempty x = true -> x <> "").
  { intros x Hx. unfold nonempty in Hx. apply negb_true_iff, String.eqb_neq in Hx. exact Hx. }
  destruct (base_url_given self) as [base|] eqn:Hbase.
  - destruct (urljoin base (Py.strip (get attrs "href"))) as [joined|e]; [|discriminate].
    simpl. destruct (_is_internal_link urlparse_netloc self joined) eqn:Hi; [|discriminate].
    intros [= <-]. simpl. split; [apply Hne; exact Ht|]. split; [reflexivity|].
    split; [exact Hi|discriminate].
  - simpl.
    destruct (_is_internal_link urlparse_netloc self (Py.strip (get attrs "href"))) eqn:Hi;
      [|discriminate].
    intros [= <-]. simpl. split; [apply Hne; exact Ht|]. split; [reflexivity|].
    split; [exact Hi|]. intros _. split; [apply Hne; exact Hh|].
    split; [apply strip_idempotent|exact Hs].
Qed.

(** X7: the links [_extract_internal_links] returns are at most as many
    as the anchors with an href, each has a non-empty anchor text and is
    classified internal; without a base URL the call always returns, and
    every href is stripped, not empty and starts with none of
    [javascript:], [mailto:], [tel:] and [#]. *)
Theorem internal_links_are_filtered (self : ContentExtractor) (soup : node) :
  (forall links,
     _extract_internal_links urljoin urlparse_netloc self soup = Ok links ->
     length links <= length (List.filter has_href (descendants soup))
     /\ Forall (fun l => anchor_text l <> ""
                         /\ _is_internal_link urlparse_netloc self (href l) = true) links)
  /\ (base_url_given self = None ->
      exists links,
        _extract_internal_links urljoin urlparse_netloc self soup = Ok links
        /\ Forall (fun l => href l <> "" /\ Py.strip (href l) = href l
                            /\ Py.startswith_any (href l)
                                 ["javascript:"; "mailto:"; "tel:"; "#"] = false) links).
Proof.
  unfold _extract_internal_links.
  generalize (List.filter has_href (descendants soup)). intros anchors. split.
  - induction anchors as [|anchor anchors IH]; intros links H.
    + injection H as <-. split; [done|constructor].
    + cbn [collect_links] in H.
      destruct (link_of_anchor urljoin urlparse_netloc self anchor) as [l|e] eqn:El;
        [|discriminate].
      destruct (collect_links urljoin urlparse_netloc self anchors) as [rest|e];
        [|discriminate].
      destruct (IH rest eq_refl) as [Hlen Hall].
      simpl in H. injection H as <-. destruct l as [l|].
      * apply link_of_anchor_kept in El as (H1 & _ & H3 & _).
        split; [simpl; lia|]. constructor; auto.
      * split; [simpl; lia|exact Hall].
  - intros Hbase.
    induction anchors as [|anchor anchors (rest & Hrest & Hall)].
    + exists []. split; [reflexivity|constructor].
    + cbn [collect_links].
      destruct (link_of_anchor_returns urljoin urlparse_netloc self anchor (or_introl Hbase))
        as [l El].
      rewrite El, Hrest. simpl. destruct l as [l|].
      * exists (l :: rest). split; [reflexivity|]. constructor; [|exact Hall].
        apply link_of_anchor_kept in El as (_ & _ & _ & H4). apply H4. exact Hbase.
      * exists rest. split; [reflexivity|exact Hall].
Qed.
End LinkFilterFacts.

Section LinkFilterExamples.
Import Dom Extractor Models Samples.

Lemma internal_links_are_filtered_witness :
  (length [mkLink "/about" "About"; mkLink "/contact" "Contact"]
   <= length (List.filter has_href (descendants links_page)))%nat
  /\ Forall (fun l => anchor_text l <> ""
                      /\ _is_internal_link sample_netloc extractor_without_base (href l) = true)
       [mkLink "/about" "About"; mkLink "/contact" "Contact"].
Proof.
  apply (proj1 (internal_links_are_filtered sample_urljoin sample_netloc
                  extractor_without_base links_page)).
  vm_compute. reflexivity.
Defined.

End LinkFilterExamples.

(** ** The comparison of headings and links *)

Section SortFacts.
Context {A : Type}.
Variable key : A -> nat.
Local Open Scope list_scope.

Lemma by_key_trans : Transitive (Py.by_key key).
Proof. intros x y z. unfold Py.by_key. lia. Qed.

Lemma insert_by_perm x (l : list A) : Py.insert_by key x l ≡ₚ x :: l.
Proof.
  induction l as [|y l IH]; [reflexivity|]. cbn [Py.insert_by].
  destruct (key x <=? key y)%nat; [reflexivity|].
  rewrite IH. apply Permutation_swap.
Qed.

Lemma sorted_by_perm (l : list A) : Py.sorted_by key l ≡ₚ l.
Proof.
  induction l as [|x l IH]; [reflexivity|].
  cbn [Py.sorted_by fold_right]. fold (Py.sorted_by key l).
  rewrite insert_by_perm, IH. reflexivity.
Qed.

Lemma insert_by_sorted x (l : list A) :
  Sorted (Py.by_key key) l -> Sorted (Py.by_key key) (Py.insert_by key x l).
Proof.
  induction 1 as [|y l Hl IH Hhd]; [repeat constructor|].
  cbn [Py.insert_by]. destruct (Nat.leb_spec (key x) (key y)).
  - constructor; [constructor; assumption|]. constructor. assumption.
  - constructor; [exact IH|].
    destruct l as [|z l]; cbn [Py.insert_by].
    + constructor. unfold Py.by_key. lia.
    + destruct (key x <=? key z)%nat; constructor.
      * unfold Py.by_key. lia.
      * inversion Hhd. assumption.
Qed.

Lemma sorted_by_sorted (l : list A) : Sorted (Py.by_key key) (Py.sorted_by key l).
Proof.
  induction l as [|x l IH]; [constructor|].
  cbn [Py.sorted_by fold_right]. apply insert_by_sorted. exact IH.
Qed.
End SortFacts.

Section HeadingComparisonFacts.
Import Differ Models.
Local Open Scope list_scope.

Lemma index_of_app_fresh x (pre l : list string) :
  x ∉ pre -> Py.index_of x (pre ++ l) = length pre + Py.index_of x l.
Proof.
  induction pre as [|y pre IH]; intros Hx; [reflexivity|].
  cbn [app Py.index_of length]. destruct (String.eqb_spec y x) as [->|_]; [set_solver|].
  rewrite IH by set_solver. reflexivity.
Qed.

Lemma index_of_head x l : Py.index_of x (x :: l) = 0.
Proof. cbn [Py.index_of]. rewrite String.eqb_refl. reflexivity. Qed.

Lemma index_of_inj x y (l : list string) :
  x ∈ l -> y ∈ l -> Py.index_of x l = Py.index_of y l -> x = y.
Proof.
  induction l as [|z l IH]; intros Hx Hy; [inversion Hx|].
  cbn [Py.index_of].
  destruct (String.eqb_spec z x) as [Ezx|Hzx], (String.eqb_spec z y) as [Ezy|Hzy];
    try discriminate.
  - intros _. congruence.
  - intros [= E]. apply IH; [set_solver..|exact E].
Qed.

(** The first-occurrence pass lists, in increasing position, the headings
    of [mine] not yet passed that [other] does not have. *)
Lemma missing_from_go_facts (whole : list string) (other : gset string) (mine : list string) :
  forall (pre : list string) (seen : gset string),
  whole = pre ++ mine ->
  (forall x, x ∈ seen <-> x ∈ pre) ->
  let res := missing_from_go seen other mine in
  StronglySorted (Py.by_key (fun x => Py.index_of x whole)) res
  /\ NoDup res
  /\ (forall x, x ∈ res
        <-> (x ∈ mine /\ (x ∉ pre) /\ (x ∉ other)))
  /\ Forall (fun x => length pre <= Py.index_of x whole) res.
Proof.
  induction mine as [|h mine IH]; intros pre seen Hwhole Hseen res.
  - subst res. cbn. repeat split; try constructor; set_solver.
  - assert (Hwhole' : whole = (pre ++ [h]) ++ mine) by (rewrite <- app_assoc; exact Hwhole).
    assert (Hseen' : forall x, x ∈ {[h]} ∪ seen <-> x ∈ pre ++ [h]).
    { intros x. rewrite elem_of_union, elem_of_app, Hseen. set_solver. }
    destruct (IH (pre ++ [h]) ({[h]} ∪ seen) Hwhole' Hseen') as (Hs & Hnd & Hmem & Hge).
    subst res. cbn [missing_from_go].
    destruct (bool_decide (h ∈ seen) || bool_decide (h ∈ other)) eqn:Hskip.
    + split; [exact Hs|]. split; [exact Hnd|]. split.
      * intros x. rewrite Hmem.
        apply orb_true_iff in Hskip as [Hskip|Hskip]; apply bool_decide_eq_true in Hskip.
        -- apply Hseen in Hskip. set_solver.
        -- set_solver.
      * eapply Forall_impl; [exact Hge|]. intros x. rewrite length_app. simpl. lia.
    + apply orb_false_iff in Hskip as [Hs1 Hs2].
      apply bool_decide_eq_false in Hs1, Hs2.
      assert (Hpre : h ∉ pre) by (intros H; apply Hs1, Hseen, H).
      assert (Hkey : Py.index_of h whole = length pre).
      { rewrite Hwhole, index_of_app_fresh by exact Hpre. rewrite index_of_head. lia. }
      split; [|split; [|split]].
      * constructor; [exact Hs|]. eapply Forall_impl; [exact Hge|].
        intros x. unfold Py.by_key. rewrite length_app, Hkey. simpl. lia.
      * constructor; [|exact Hnd]. rewrite Hmem. set_solver.
      * intros x. rewrite elem_of_cons, Hmem. split.
        -- intros [->|(H1 & H2 & H3)]; set_solver.
        -- intros (H1 & H2 & H3). apply elem_of_cons in H1 as [->|H1]; [left; reflexivity|].
           destruct (decide (x = h)) as [->|Hne]; [left; reflexivity|].
           right. set_solver.
      * constructor; [lia|]. eapply Forall_impl; [exact Hge|].
        intros x. rewrite length_app. simpl. lia.
Qed.

Variable set_order : gset string -> list string.
Variable pair_order : gset (string * string) -> list (string * string).

Lemma sorted_enumeration_is_first_seen (other mine : list string) :
  lists_each_once set_order ->
  Py.sorted_by (fun x => Py.index_of x mine)
    (set_order (list_to_set mine ∖ list_to_set other))
  = missing_from other mine.
Proof.
  intros Henum. unfold missing_from.
  destruct (missing_from_go_facts mine (list_to_set other) mine [] ∅ eq_refl
              ltac:(set_solver)) as (Hs & Hnd & Hmem & _).
  destruct (Henum (list_to_set mine ∖ list_to_set other)) as [Hnd' Hmem'].
  pose proof (by_key_trans (fun x => Py.index_of x mine)) as Htrans.
  apply (Sorted_unique_strong (Py.by_key (fun x => Py.index_of x mine))).
  - intros x1 x2 H1 H2 Hle Hge. unfold Py.by_key in Hle, Hge.
    rewrite sorted_by_perm in H1. apply Hmem', elem_of_difference in H1 as [H1 _].
    apply Hmem in H2 as (H2 & _).
    apply elem_of_list_to_set in H1.
    apply (index_of_inj x1 x2 mine); [assumption..|lia].
  - apply sorted_by_sorted.
  - apply StronglySorted_Sorted. exact Hs.
  - rewrite sorted_by_perm. apply NoDup_Permutation; [exact Hnd'|exact Hnd|].
    intros x. rewrite Hmem', Hmem. set_solver.
Qed.

(** X10: whatever the order in which the sets are enumerated,
    [_compare_headings] lists the headings one side has and the other has
    not, each once, in the order of their first occurrence on their side;
    and every heading whose position is looked up with [index] occurs in
    the list searched, so the look-up finds it. *)
Theorem _compare_headings_in_first_seen_order (raw_headings rendered_headings : list string) :
  lists_each_once set_order ->
  _compare_headings set_order raw_headings rendered_headings
  = (missing_from raw_headings rendered_headings,
     missing_from rendered_headings raw_headings)
  /\ Forall (fun x => x ∈ rendered_headings)
       (set_order (list_to_set rendered_headings ∖ list_to_set raw_headings))
  /\ Forall (fun x => x ∈ raw_headings)
       (set_order (list_to_set raw_headings ∖ list_to_set rendered_headings)).
Proof.
  intros Henum. split; [|split].
  - unfold _compare_headings.
    rewrite !sorted_enumeration_is_first_seen by exact Henum. reflexivity.
  - apply Forall_forall. intros x Hx. apply Henum in Hx. set_solver.
  - apply Forall_forall. intros x Hx. apply Henum in Hx. set_solver.
Qed.

Lemma link_of_key_link_key (l : Link) : link_of_key (link_key l) = l.
Proof. destruct l. reflexivity. Qed.

Lemma link_key_link_of_key k : link_key (link_of_key k) = k.
Proof. destruct k. reflexivity. Qed.

Lemma enumerated_difference (mine other : list Link) :
  lists_each_once pair_order ->
  let listed :=
    map link_of_key
      (pair_order (list_to_set (map link_key mine) ∖ list_to_set (map link_key other))) in
  NoDup listed /\ forall l, l ∈ listed <-> (l ∈ mine /\ l ∉ other).
Proof.
  intros Henum listed. subst listed.
  destruct (Henum (list_to_set (map link_key mine) ∖ list_to_set (map link_key other)))
    as [Hnd Hmem].
  split.
  - apply NoDup_fmap_2; [|exact Hnd]. intros k1 k2 E.
    rewrite <- (link_key_link_of_key k1), <- (link_key_link_of_key k2), E. reflexivity.
  - intros l. rewrite list_elem_of_fmap. split.
    + intros (k & -> & Hk). apply Hmem, elem_of_difference in Hk as [Hin Hout].
      rewrite elem_of_list_to_set, list_elem_of_fmap in Hin.
      rewrite elem_of_list_to_set, list_elem_of_fmap in Hout.
      destruct Hin as (l & -> & Hl). rewrite link_of_key_link_key. split; [exact Hl|].
      intros Hl'. apply Hout. eauto.
    + intros [Hin Hout]. exists (link_key l). split; [symmetry; apply link_of_key_link_key|].
      apply Hmem, elem_of_difference. rewrite !elem_of_list_to_set, !list_elem_of_fmap.
      split; [eauto|]. intros (l' & E & Hl'). apply Hout.
      rewrite <- (link_of_key_link_key l), E, link_of_key_link_key. exact Hl'.
Qed.

(** X11: whatever the order in which the sets are enumerated,
    [_compare_internal_links] lists as missing exactly the links of the
    rendered page that the raw page has not (same href and same anchor
    text), as extra exactly the links of the raw page that the rendered
    page has not, and each of them once. *)
Theorem _compare_internal_links_lists_the_differences (raw_links rendered_links : list Link) :
  lists_each_once pair_order ->
  let '(missing, extra) := _compare_internal_links pair_order raw_links rendered_links in
  NoDup missing
  /\ (forall l, l ∈ missing <-> (l ∈ rendered_links /\ l ∉ raw_links))
  /\ NoDup extra
  /\ (forall l, l ∈ extra <-> (l ∈ raw_links /\ l ∉ rendered_links)).
Proof.
  intros Henum. unfold _compare_internal_links.
  destruct (enumerated_difference rendered_links raw_links Henum) as [H1 H2].
  destruct (enumerated_difference raw_links rendered_links Henum) as [H3 H4].
  auto.
Qed.

Lemma enumerate_empty `{Countable K} (order : gset K -> list K) :
  lists_each_once order -> order ∅ = [].
Proof.
  intros Henum. destruct (Henum ∅) as [_ Hmem].
  destruct (order ∅) as [|x l]; [reflexivity|].
  exfalso. apply (not_elem_of_empty (C := gset K) x). apply Hmem. left.
Qed.

(** X12: comparing a content with itself reports nothing: the six lists
    of differences are empty and the word count delta and the two
    percentages are zero. *)
Theorem compare_same_content (content : ExtractedContent) :
  lists_each_once set_order -> lists_each_once pair_order ->
  let d := compare set_order pair_order content content in
  text_only_with_js d = [] /\ text_only_without_js d = []
  /\ headings_missing_without_js d = [] /\ headings_extra_without_js d = []
  /\ internal_links_missing_without_js d = [] /\ internal_links_extra_without_js d = []
  /\ word_count_delta d = 0%Z
  /\ (word_count_percentage_change d == 0)%Q
  /\ (content_invisible_without_js_percentage d == 0)%Q.
Proof.
  intros Hs Hp. unfold compare. rewrite _compare_text_same.
  unfold _compare_headings, _compare_internal_links.
  rewrite !difference_diag_L, (enumerate_empty set_order Hs), (enumerate_empty pair_order Hp).
  cbn [Py.sorted_by fold_right map text_only_with_js text_only_without_js
       headings_missing_without_js headings_extra_without_js
       internal_links_missing_without_js internal_links_extra_without_js].
  repeat (split; [reflexivity|]).
  unfold word_count_delta, word_count_percentage_change,
    content_invisible_without_js_percentage.
  cbn [raw_word_count rendered_word_count]. rewrite Z.sub_diag.
  split; [reflexivity|]. split.
  - destruct (word_count content =? 0)%Z; [reflexivity|].
    rewrite (round2_comp _ 0); [reflexivity|].
    unfold word_count_delta. cbn [raw_word_count rendered_word_count].
    rewrite Z.sub_diag. change (inject_Z 0) with 0%Q. unfold Qdiv. ring.
  - destruct (word_count content =? 0)%Z; [reflexivity|].
    rewrite (proj2 (Z.geb_le _ _)) by lia. reflexivity.
Qed.
End HeadingComparisonFacts.

Section ComparisonExamples.
Import Differ Models Samples.

Lemma ascending_lists_each_once : lists_each_once ascending.
Proof. intros s. split; [apply NoDup_elements|]. intros x. apply elem_of_elements. Qed.

Lemma ascending_pairs_lists_each_once : lists_each_once ascending_pairs.
Proof. intros s. split; [apply NoDup_elements|]. intros x. apply elem_of_elements. Qed.

Lemma _compare_headings_in_first_seen_order_witness :
  _compare_headings ascending ["Intro"; "Old"] ["Zeta"; "Intro"; "Alpha"; "Zeta"]
  = (missing_from ["Intro"; "Old"] ["Zeta"; "Intro"; "Alpha"; "Zeta"],
     missing_from ["Zeta"; "Intro"; "Alpha"; "Zeta"] ["Intro"; "Old"])
  /\ Forall (fun x => x ∈ ["Zeta"; "Intro"; "Alpha"; "Zeta"])
       (ascending (list_to_set ["Zeta"; "Intro"; "Alpha"; "Zeta"]
                   ∖ list_to_set ["Intro"; "Old"]))
  /\ Forall (fun x => x ∈ ["Intro"; "Old"])
       (ascending (list_to_set ["Intro"; "Old"]
                   ∖ list_to_set ["Zeta"; "Intro"; "Alpha"; "Zeta"])).
Proof.
  apply (_compare_headings_in_first_seen_order ascending).
  exact ascending_lists_each_once.
Defined.

Lemma _compare_internal_links_lists_the_differences_witness :
  let '(missing, extra) :=
    _compare_internal_links ascending_pairs sample_raw_links sample_rendered_links in
  NoDup missing
  /\ (forall l, l ∈ missing <-> (l ∈ sample_rendered_links /\ l ∉ sample_raw_links))
  /\ NoDup extra
  /\ (forall l, l ∈ extra <-> (l ∈ sample_raw_links /\ l ∉ sample_rendered_links)).
Proof.
  apply (_compare_internal_links_lists_the_differences ascending_pairs).
  exact ascending_pairs_lists_each_once.
Defined.

Lemma compare_same_content_witness :
  let d := compare ascending ascending_pairs sample_content sample_content in
  text_only_with_js d = [] /\ text_only_without_js d = []
  /\ headings_missing_without_js d = [] /\ headings_extra_without_js d = []
  /\ internal_links_missing_without_js d = [] /\ internal_links_extra_without_js d = []
  /\ word_count_delta d = 0%Z
  /\ (word_count_percentage_change d == 0)%Q
  /\ (content_invisible_without_js_percentage d == 0)%Q.
Proof.
  apply (compare_same_content ascending ascending_pairs sample_content).
  - exact ascending_lists_each_once.
  - exact ascending_pairs_lists_each_once.
Defined.

End ComparisonExamples.

(** ** The percentages of a report *)

Section PercentageFacts.
Import Models.
Open Scope Q_scope.

Lemma round_half_even_ge (lo : Z) (x : Q) :
  inject_Z lo <= x -> (lo <= round_half_even x)%Z.
Proof.
  intros Hlo. unfold round_half_even.
  pose proof (Qlt_floor x) as Hfu.
  assert (Hf1 : (lo <= Qfloor x)%Z).
  { apply Z.lt_succ_r. rewrite Zlt_Qlt. rewrite <- Z.add_1_r. lra. }
  destruct (Qcompare (x - inject_Z (Qfloor x)) (1 # 2)); [destruct (Z.even _)| |]; lia.
Qed.

Lemma round_half_even_le (hi : Z) (x : Q) :
  x <= inject_Z hi -> (round_half_even x <= hi)%Z.
Proof.
  intros Hhi. unfold round_half_even.
  pose proof (Qfloor_le x) as Hfl.
  assert (Hf2 : (Qfloor x <= hi)%Z) by (rewrite Zle_Qle; lra).
  destruct (Z.eq_dec (Qfloor x) hi) as [E|NE].
  - assert (Hx : x - inject_Z (Qfloor x) <= 0) by (rewrite E; lra).
    destruct (Qcompare_spec (x - inject_Z (Qfloor x)) (1 # 2)) as [He|Hl|Hg];
      [lra|lia|lra].
  - destruct (Qcompare (x - inject_Z (Qfloor x)) (1 # 2)); [destruct (Z.even _)| |]; lia.
Qed.

(** Rounding to hundredths does not cross a whole number. *)
Lemma round2_ge (x : Q) (lo : Z) : inject_Z lo <= x -> inject_Z lo <= round2 x.
Proof.
  intros Hlo. unfold round2.
  assert (H1 : (lo * 100 <= round_half_even (x * 100))%Z).
  { apply round_half_even_ge. rewrite inject_Z_mult. change (inject_Z 100) with 100. lra. }
  rewrite Zle_Qle, inject_Z_mult in H1. change (inject_Z 100) with 100 in *.
  unfold Qdiv. change (/ 100) with (1 # 100).
  set (n := inject_Z (round_half_even (x * 100))) in *. lra.
Qed.

Lemma round2_le (x : Q) (hi : Z) : x <= inject_Z hi -> round2 x <= inject_Z hi.
Proof.
  intros Hhi. unfold round2.
  assert (H1 : (round_half_even (x * 100) <= hi * 100)%Z).
  { apply round_half_even_le. rewrite inject_Z_mult. change (inject_Z 100) with 100. lra. }
  rewrite Zle_Qle, inject_Z_mult in H1. change (inject_Z 100) with 100 in *.
  unfold Qdiv. change (/ 100) with (1 # 100).
  set (n := inject_Z (round_half_even (x * 100))) in *. lra.
Qed.

Lemma quotient_between (a b : Z) :
  (0 <= a <= b)%Z -> (0 < b)%Z ->
  0 <= inject_Z a / inject_Z b * 100 /\ inject_Z a / inject_Z b * 100 <= 100.
Proof.
  intros Ha Hb.
  assert (Hb' : 0 < inject_Z b) by (change 0 with (inject_Z 0); rewrite <- Zlt_Qlt; lia).
  assert (Ha0 : 0 <= inject_Z a) by (change 0 with (inject_Z 0); rewrite <- Zle_Qle; lia).
  assert (Hab : inject_Z a <= inject_Z b) by (rewrite <- Zle_Qle; lia).
  assert (H0 : 0 <= inject_Z a / inject_Z b).
  { apply Qle_shift_div_l; [exact Hb'|]. lra. }
  assert (H1 : inject_Z a / inject_Z b <= 1).
  { apply Qle_shift_div_r; [exact Hb'|]. lra. }
  split; lra.
Qed.

(** X13: for a report whose word counts are not negative, the share of
    content invisible without JavaScript lies between 0 and 100, and the
    percentage change of the word count is never below -100. *)
Theorem percentages_are_bounded (d : DifferenceReport) :
  (0 <= raw_word_count d)%Z -> (0 <= rendered_word_count d)%Z ->
  0 <= content_invisible_without_js_percentage d
  /\ content_invisible_without_js_percentage d <= 100
  /\ - (100) <= word_count_percentage_change d.
Proof.
  intros Hraw Hren.
  unfold content_invisible_without_js_percentage, word_count_percentage_change,
    word_count_delta.
  split; [|split].
  - destruct (Z.eqb_spec (rendered_word_count d) 0); [lra|].
    destruct (Z.geb_spec (raw_word_count d) (rendered_word_count d)); [lra|].
    destruct (quotient_between (rendered_word_count d - raw_word_count d)
                (rendered_word_count d)) as [H0 H1]; [lia..|].
    apply (round2_ge _ 0). exact H0.
  - destruct (Z.eqb_spec (rendered_word_count d) 0); [lra|].
    destruct (Z.geb_spec (raw_word_count d) (rendered_word_count d)); [lra|].
    destruct (quotient_between (rendered_word_count d - raw_word_count d)
                (rendered_word_count d)) as [H0 H1]; [lia..|].
    apply (round2_le _ 100). exact H1.
  - destruct (Z.eqb_spec (raw_word_count d) 0); [lra|].
    assert (Hb' : 0 < inject_Z (raw_word_count d))
      by (change 0 with (inject_Z 0); rewrite <- Zlt_Qlt; lia).
    assert (Hq : - (1) <= inject_Z (rendered_word_count d - raw_word_count d)
                          / inject_Z (raw_word_count d)).
    { apply Qle_shift_div_l; [exact Hb'|].
      unfold Z.sub. rewrite inject_Z_plus, inject_Z_opp.
      assert (0 <= inject_Z (rendered_word_count d))
        by (change 0 with (inject_Z 0); rewrite <- Zle_Qle; lia).
      lra. }
    apply (round2_ge _ (-100)). change (inject_Z (-100)) with (- (100)). lra.
Qed.

Lemma percentages_are_bounded_witness :
  0 <= content_invisible_without_js_percentage (Samples.report 1 3)
  /\ content_invisible_without_js_percentage (Samples.report 1 3) <= 100
  /\ - (100) <= word_count_percentage_change (Samples.report 1 3).
Proof.
  apply (percentages_are_bounded (Samples.report 1 3)); simpl; lia.
Defined.

End PercentageFacts.

(** ** The pipeline for one URL and the job *)

Section PipelineFacts.
Import Models Fetcher JobRunner.
Local Open Scope list_scope.

Variable set_order : gset string -> list string.
Context {raw_fetcher : Fetcher RawFetchResult}.
Context {js_fetcher : Fetcher RenderedFetchResult}.
Variable html_parser : string -> Dom.node.
Variable urljoin : string -> string -> result string.
Variable urlparse_netloc : string -> result string.
Variable differ_compare : ExtractedContent -> ExtractedContent -> result DifferenceReport.
Variable frames : nat.
Variables fetch_timeout render_timeout : Z.
Variables clock_start clock_end : Z.

Local Abbreviation process_url :=
  (_process_url html_parser urljoin urlparse_netloc differ_compare frames
     fetch_timeout render_timeout).
Local Abbreviation run_job :=
  (run_job_async set_order html_parser urljoin urlparse_netloc differ_compare frames
     fetch_timeout render_timeout clock_start clock_end).
Local Abbreviation validated_urls := (_validate_and_deduplicate set_order).

Lemma guarded_facts {A} prefix (r : result A) :
  length (guarded prefix r).2 <= 1
  /\ ((guarded prefix r).1 = None <-> (guarded prefix r).2 <> []).
Proof. destruct r; simpl; split; try lia; split; congruence. Qed.

(** X14: an analysis [_process_url] returns is for its URL; without a
    raw fetch nothing else was tried (no rendered fetch, no content, no
    report, no render or extraction error, status 0, final URL the URL);
    a rendered content comes from a rendered fetch flagged successful; a
    report is the comparison of the two contents and needs both; a
    successful analysis has a raw fetch, whose status and URL it carries;
    and there are at most three extraction errors. *)
Theorem _process_url_stages (url : string) (a : URLAnalysis) :
  process_url url = Ok a ->
  analysis_url a = url
  /\ (raw_fetch a = None ->
      rendered_fetch a = None /\ render_errors a = [] /\ raw_content a = None
      /\ rendered_content a = None /\ differences a = None /\ extraction_errors a = []
      /\ http_status a = 0%Z /\ final_url a = url)
  /\ (forall content, rendered_content a = Some content ->
      exists r, rendered_fetch a = Some r /\ rendered_success r = true)
  /\ (forall d, differences a = Some d ->
      exists raw rendered, raw_content a = Some raw /\ rendered_content a = Some rendered
                           /\ differ_compare raw rendered = Ok d)
  /\ (success a = true ->
      exists r, raw_fetch a = Some r /\ http_status a = status_code r
                /\ final_url a = raw_url r)
  /\ length (extraction_errors a) <= 3.
Proof.
  unfold _process_url. intros H.
  destruct (fetch url fetch_timeout) as [[raw_fetch raw_error]|e]; simpl in H; [|discriminate].
  destruct (match raw_fetch with Some r => _ | None => _ end) as [http final] eqn:Ehf.
  destruct raw_fetch as [r|]; simpl in H.
  - destruct (fetch url render_timeout) as [[rendered_fetch render_error]|e];
      simpl in H; [|discriminate].
    pose proof (guarded_facts "Raw content extraction failed: "
                  (run_extract html_parser urljoin urlparse_netloc frames
                     (raw_url r) (raw_html r))) as [Hl1 _].
    destruct (guarded "Raw content extraction failed: " _) as [raw_content errors1].
    simpl in Hl1.
    destruct (match rendered_fetch with Some r0 => _ | None => _ end)
      as [rendered_content errors2] eqn:E2.
    assert (H2 : length errors2 <= 1
                 /\ (forall c, rendered_content = Some c ->
                     exists r0, rendered_fetch = Some r0 /\ rendered_success r0 = true)).
    { destruct rendered_fetch as [r0|].
      - destruct (rendered_success r0) eqn:Hs.
        + pose proof (guarded_facts "Rendered content extraction failed: "
                        (run_extract html_parser urljoin urlparse_netloc frames
                           (rendered_url r0) (rendered_html r0))) as [Hl2 _].
          rewrite E2 in Hl2. split; [exact Hl2|]. intros c _. eauto.
        + injection E2 as <- <-. split; [simpl; lia|discriminate].
      - injection E2 as <- <-. split; [simpl; lia|discriminate]. }
    destruct H2 as [Hl2 Hrc]. clear E2.
    destruct (match raw_content with Some raw => _ | None => _ end)
      as [dd errors3] eqn:E3.
    assert (H3 : length errors3 <= 1
                 /\ (forall d, dd = Some d ->
                     exists raw rendered,
                       raw_content = Some raw /\ rendered_content = Some rendered
                       /\ differ_compare raw rendered = Ok d)).
    { destruct raw_content as [raw|], rendered_content as [rendered|];
        try (injection E3 as <- <-; split; [simpl; lia|discriminate]).
      destruct (differ_compare raw rendered) as [d|e] eqn:Ed; simpl in E3;
        injection E3 as <- <-.
      - split; [simpl; lia|]. intros d' [= <-]. eauto.
      - split; [simpl; lia|discriminate]. }
    destruct H3 as [Hl3 Hdd]. clear E3.
    injection H as <-. cbn.
    split; [reflexivity|]. split; [discriminate|]. split; [exact Hrc|]. split; [exact Hdd|].
    split.
    + unfold success. cbn. intros Hsucc.
      destruct (message raw_error) as [|m ms]; [|discriminate].
      injection Ehf as <- <-. exists r. auto.
    + rewrite !length_app. lia.
  - injection Ehf as <- <-. injection H as <-. cbn.
    split; [reflexivity|]. split; [intros _; repeat split; reflexivity|].
    split; [discriminate|]. split; [discriminate|]. split.
    + unfold success. cbn. rewrite ?andb_false_r. discriminate.
    + lia.
Qed.
Lemma filter_split_length {A} (p : A -> bool) (l : list A) :
  length (List.filter p l) + length (List.filter (fun x => negb (p x)) l) = length l.
Proof.
  induction l as [|x l IH]; [reflexivity|].
  simpl. destruct (p x); simpl; lia.
Qed.

(** X15: in the result of a job the number of processed URLs is the
    number of analyses, the succeeded ones are the analyses that are
    successful, the failed ones are those [get_failed_analyses] returns,
    the two add up to the processed ones, and the success rate lies
    between 0 and 100. *)
Theorem run_job_async_counts (urls : list string) :
  let job := run_job urls in
  urls_processed job = Z.of_nat (length (results job))
  /\ urls_succeeded job = Z.of_nat (length (List.filter success (results job)))
  /\ urls_failed job = Z.of_nat (length (get_failed_analyses job))
  /\ (urls_succeeded job + urls_failed job = urls_processed job)%Z
  /\ (0 <= success_rate job)%Q /\ (success_rate job <= 100)%Q.
Proof.
  intros job.
  assert (Hlen : length (results job) = length (validated_urls urls)).
  { unfold job, run_job_async. cbn [results].
    rewrite length_zip_with, length_map. lia. }
  pose proof (filter_split_length success (results job)) as Hsplit.
  assert (Hp : urls_processed job = Z.of_nat (length (results job))).
  { rewrite Hlen. reflexivity. }
  assert (Hs : urls_succeeded job = Z.of_nat (length (List.filter success (results job)))).
  { reflexivity. }
  assert (Hf : urls_failed job = Z.of_nat (length (get_failed_analyses job))).
  { unfold get_failed_analyses.
    change (urls_failed job)
      with (Z.of_nat (length (results job))
            - Z.of_nat (length (List.filter success (results job))))%Z.
    lia. }
  split; [exact Hp|]. split; [exact Hs|]. split; [exact Hf|].
  split; [unfold get_failed_analyses in Hf; lia|].
  unfold success_rate.
  destruct (Z.eqb_spec (urls_processed job) 0) as [E|NE]; [split; lra|].
  destruct (quotient_between (urls_succeeded job) (urls_processed job)) as [H0 H1];
    [lia..|].
  split; [apply (round2_ge _ 0); exact H0|apply (round2_le _ 100); exact H1].
Qed.

End PipelineFacts.

(** ** Validation of the input URLs *)

Section ValidationFacts.
Import Models JobRunner.
Local Open Scope list_scope.

(** What the validation loop has collected. *)
Lemma validate_step_members (urls : list string) (seen : gset string) (x : string) :
  x ∈ fold_left validate_step urls seen
  <-> x ∈ seen
      \/ exists u, u ∈ urls /\ x = Py.strip u /\ x <> "" /\ returns (new_URLInput x).
Proof.
  revert seen. induction urls as [|url urls IH]; intros seen; simpl.
  - split; [auto|]. intros [H|(u & Hu & _)]; [exact H|]. inversion Hu.
  - rewrite IH. unfold validate_step.
    destruct (Dom.nonempty (Py.strip url)) eqn:En; simpl.
    + destruct (new_URLInput (Py.strip url)) as [v|err] eqn:Ev.
      * split.
        -- intros [H|(u & Hu & Hx)].
           ++ apply elem_of_union in H as [H|H]; [|auto].
              apply elem_of_singleton in H as ->. right. exists url.
              split; [left|]. split; [reflexivity|]. split.
              ** unfold Dom.nonempty in En. intros E. rewrite E in En. discriminate.
              ** exists v. exact Ev.
           ++ right. exists u. split; [right; exact Hu|exact Hx].
        -- intros [H|(u & Hu & Hx)].
           ++ left. set_solver.
           ++ apply elem_of_cons in Hu as [->|Hu].
              ** left. destruct Hx as (-> & _). set_solver.
              ** right. exists u. auto.
      * split.
        -- intros [H|(u & Hu & Hx)]; [auto|]. right. exists u. split; [right; exact Hu|exact Hx].
        -- intros [H|(u & Hu & Hx)]; [auto|].
           apply elem_of_cons in Hu as [->|Hu]; [|right; exists u; auto].
           destruct Hx as (-> & _ & (v & Hv)). congruence.
    + split.
      * intros [H|(u & Hu & Hx)]; [auto|]. right. exists u. split; [right; exact Hu|exact Hx].
      * intros [H|(u & Hu & Hx)]; [auto|].
        apply elem_of_cons in Hu as [->|Hu]; [|right; exists u; auto].
        destruct Hx as (-> & Hne & _). unfold Dom.nonempty in En.
        apply negb_false_iff, String.eqb_eq in En. contradiction.
Qed.

Variable set_order : gset string -> list string.

Lemma validated_members (urls : list string) (x : string) :
  enumerates set_order ->
  x ∈ _validate_and_deduplicate set_order urls
  <-> exists u, u ∈ urls /\ x = Py.strip u /\ x <> "" /\ returns (new_URLInput x).
Proof.
  intros Henum. unfold _validate_and_deduplicate.
  destruct (Henum (fold_left validate_step urls ∅)) as [_ Hmem].
  rewrite Hmem, validate_step_members.
  split; [intros [H|H]; [set_solver|exact H]|auto].
Qed.

(** X16: the validated URLs are exactly the stripped forms of the inputs
    that are not empty and that [URLInput] accepts; blank entries and
    entries [URLInput] refuses are dropped without an error, and every
    URL returned is stripped. *)
Theorem _validate_and_deduplicate_members (urls : list string) (x : string) :
  enumerates set_order ->
  (x ∈ _validate_and_deduplicate set_order urls
   <-> exists u, u ∈ urls /\ x = Py.strip u /\ x <> "" /\ returns (new_URLInput x))
  /\ (x ∈ _validate_and_deduplicate set_order urls -> Py.strip x = x).
Proof.
  intros Henum. split; [apply validated_members; exact Henum|].
  intros Hx. apply validated_members in Hx as (u & _ & -> & _); [|exact Henum].
  apply strip_idempotent.
Qed.

(** X17: validating a list that was already validated changes nothing but,
    possibly, the order: the same URLs come back, each once. *)
Theorem _validate_and_deduplicate_idempotent (urls : list string) :
  enumerates set_order ->
  _validate_and_deduplicate set_order (_validate_and_deduplicate set_order urls) ≡ₚ _validate_and_deduplicate set_order urls.
Proof.
  intros Henum.
  apply NoDup_Permutation.
  - apply Henum.
  - apply Henum.
  - intros x. rewrite !validated_members by exact Henum.
    split.
    + intros (u & Hu & -> & Hne & Hr).
      apply validated_members in Hu as (u0 & Hu0 & -> & Hne0 & Hr0);
        [|exact Henum].
      rewrite strip_idempotent in *. exists u0. auto.
    + intros (u & Hu & -> & Hne & Hr).
      exists (Py.strip u). split.
      * apply validated_members; [exact Henum|]. exists u. auto.
      * rewrite strip_idempotent. auto.
Qed.
End ValidationFacts.

Section PipelineExamples.
Import Models Fetcher JobRunner Samples.

Lemma _process_url_stages_witness :
  analysis_url sample_analysis = "http://a.example"
  /\ (raw_fetch sample_analysis = None ->
      rendered_fetch sample_analysis = None /\ render_errors sample_analysis = []
      /\ raw_content sample_analysis = None /\ rendered_content sample_analysis = None
      /\ differences sample_analysis = None /\ extraction_errors sample_analysis = []
      /\ http_status sample_analysis = 0%Z /\ final_url sample_analysis = "http://a.example")
  /\ (forall content, rendered_content sample_analysis = Some content ->
      exists r, rendered_fetch sample_analysis = Some r /\ rendered_success r = true)
  /\ (forall d, differences sample_analysis = Some d ->
      exists raw rendered,
        raw_content sample_analysis = Some raw
        /\ rendered_content sample_analysis = Some rendered
        /\ sample_compare raw rendered = Ok d)
  /\ (success sample_analysis = true ->
      exists r, raw_fetch sample_analysis = Some r
                /\ http_status sample_analysis = status_code r
                /\ final_url sample_analysis = raw_url r)
  /\ (length (extraction_errors sample_analysis) <= 3)%nat.
Proof.
  apply (_process_url_stages (raw_fetcher := breaking_raw_fetcher)
           (js_fetcher := steady_js_fetcher) sample_parser sample_urljoin sample_netloc
           sample_compare 100 30000 30000 "http://a.example" sample_analysis).
  vm_compute. reflexivity.
Defined.

Lemma _validate_and_deduplicate_members_witness :
  ("http://a.example" ∈ _validate_and_deduplicate descending sample_urls
   <-> exists u, u ∈ sample_urls /\ "http://a.example" = Py.strip u
                 /\ "http://a.example" <> ""
                 /\ returns (new_URLInput "http://a.example"))
  /\ ("http://a.example" ∈ _validate_and_deduplicate descending sample_urls ->
      Py.strip "http://a.example" = "http://a.example").
Proof.
  apply (_validate_and_deduplicate_members descending sample_urls "http://a.example").
  exact descending_enumerates.
Defined.

Lemma _validate_and_deduplicate_idempotent_witness :
  _validate_and_deduplicate descending (_validate_and_deduplicate descending sample_urls)
  ≡ₚ _validate_and_deduplicate descending sample_urls.
Proof.
  apply (_validate_and_deduplicate_idempotent descending sample_urls).
  exact descending_enumerates.
Defined.

End PipelineExamples.

(** ** The input file of the command line *)

Section CliFacts.
Import Models Fetcher JobRunner Cli.
Local Open Scope list_scope.

Lemma validate_step_blank (line : string) (seen : gset string) :
  Dom.nonempty (Py.strip line) = false -> validate_step seen line = seen.
Proof. intros H. unfold validate_step. rewrite H. reflexivity. Qed.

Lemma validate_step_strip (line : string) (seen : gset string) :
  validate_step seen (Py.strip line) = validate_step seen line.
Proof. unfold validate_step. rewrite strip_idempotent. reflexivity. Qed.

Lemma validate_cleaned (lines : list string) (seen : gset string) :
  fold_left validate_step
    (map Py.strip (List.filter (fun line => Dom.nonempty (Py.strip line)) lines)) seen
  = fold_left validate_step lines seen.
Proof.
  revert seen. induction lines as [|line lines IH]; intros seen; [reflexivity|].
  simpl. destruct (Dom.nonempty (Py.strip line)) eqn:E; simpl.
  - rewrite validate_step_strip. apply IH.
  - rewrite (validate_step_blank _ _ E). apply IH.
Qed.

(** X23: the URLs [read_urls_from_file] returns are stripped and not
    empty, there is at least one, and validating them gives what
    validating the raw lines of the file gives: the cleaning of the
    command line and that of the job runner agree. *)
Theorem read_urls_from_file_then_validate (set_order : gset string -> list string)
    (lines urls : list string) :
  read_urls_from_file (Some lines) = Some urls ->
  urls <> []
  /\ Forall (fun u => u <> "" /\ Py.strip u = u) urls
  /\ _validate_and_deduplicate set_order urls = _validate_and_deduplicate set_order lines.
Proof.
  unfold read_urls_from_file. intros H.
  pose proof (validate_cleaned lines ∅) as Hv.
  assert (Hall : Forall (fun u => u <> "" /\ Py.strip u = u)
                   (map Py.strip
                      (List.filter (fun line => Dom.nonempty (Py.strip line)) lines))).
  { apply Forall_forall. intros u Hu.
    apply list_elem_of_In, in_map_iff in Hu as (line & <- & Hl).
    apply filter_In in Hl as [_ Hl]. split; [|apply strip_idempotent].
    unfold Dom.nonempty in Hl. intros E. rewrite E in Hl. discriminate. }
  destruct (map Py.strip _) as [|u us] eqn:E; [discriminate|].
  injection H as <-. split; [discriminate|]. split; [exact Hall|].
  unfold _validate_and_deduplicate. rewrite Hv. reflexivity.
Qed.

(** X24: [read_urls_from_file] ends the program exactly when the file
    does not exist or every line of it is blank; a file with one line
    that is not blank is read, whatever the line holds. *)
Theorem read_urls_from_file_exits (file : option (list string)) :
  read_urls_from_file file = None
  <-> file = None
      \/ exists lines, file = Some lines /\ Forall (fun line => Py.strip line = "") lines.
Proof.
  unfold read_urls_from_file. destruct file as [lines|]; [|split; auto].
  split.
  - intros H. right. exists lines. split; [reflexivity|].
    apply Forall_forall. intros line Hl.
    destruct (String.eqb_spec (Py.strip line) "") as [E|NE]; [exact E|].
    exfalso.
    assert (Hin : In (Py.strip line)
                    (map Py.strip
                       (List.filter (fun line => Dom.nonempty (Py.strip line)) lines))).
    { apply in_map, filter_In. split; [apply list_elem_of_In; exact Hl|].
      unfold Dom.nonempty. apply negb_true_iff, String.eqb_neq. exact NE. }
    destruct (map Py.strip _); [inversion Hin|discriminate].
  - intros [H|(l & [= <-] & Hall)]; [discriminate|].
    replace (List.filter (fun line => Dom.nonempty (Py.strip line)) lines) with (@nil string);
      [reflexivity|].
    symmetry. induction Hall as [|line l' Hl Hall IH]; [reflexivity|].
    simpl. rewrite Hl. simpl. exact IH.
Qed.

Lemma read_urls_from_file_then_validate_witness :
  ["http://a.example"; "ftp://c.example"] <> []
  /\ Forall (fun u => u <> "" /\ Py.strip u = u) ["http://a.example"; "ftp://c.example"]
  /\ _validate_and_deduplicate Samples.ascending ["http://a.example"; "ftp://c.example"]
     = _validate_and_deduplicate Samples.ascending Samples.sample_lines.
Proof.
  apply (read_urls_from_file_then_validate Samples.ascending Samples.sample_lines).
  vm_compute. reflexivity.
Defined.

End CliFacts.

(** ** The error column of the CSV file *)

Section StorageFacts.
Import Models Storage.
Local Open Scope list_scope.

Lemma join_nonempty sep (x : string) (l : list string) :
  x <> "" -> Py.join sep (x :: l) <> "".
Proof.
  intros Hx. destruct x as [|c x]; [contradiction|].
  destruct l; simpl; rewrite ?string_app_cons; discriminate.
Qed.

(** X25: the error text of an analysis is empty exactly when the
    analysis has no fetch, render or extraction error, also when an error
    message is itself empty; so a row with Success "Yes" has no error
    text. *)
Theorem _format_errors_empty (a : URLAnalysis) :
  (_format_errors a = ""
   <-> fetch_errors a = [] /\ render_errors a = [] /\ extraction_errors a = [])
  /\ (success a = true -> _format_errors a = "").
Proof.
  assert (Hiff : _format_errors a = ""
                 <-> fetch_errors a = [] /\ render_errors a = []
                     /\ extraction_errors a = []).
  2:{ split; [exact Hiff|]. intros Hs. apply Hiff. unfold success in Hs.
      destruct (fetch_errors a), (render_errors a), (extraction_errors a);
        try discriminate Hs. auto. }
  unfold _format_errors. split.
  - intros H.
    destruct (fetch_errors a) as [|e1 l1].
    2:{ exfalso. revert H. apply join_nonempty. discriminate. }
    destruct (render_errors a) as [|e2 l2].
    2:{ exfalso. revert H. apply join_nonempty. discriminate. }
    destruct (extraction_errors a) as [|e3 l3].
    2:{ exfalso. revert H. apply join_nonempty. discriminate. }
    auto.
  - intros (-> & -> & ->). reflexivity.
Qed.

Lemma _format_errors_empty_witness :
  (_format_errors Samples.sample_analysis = ""
   <-> fetch_errors Samples.sample_analysis = []
       /\ render_errors Samples.sample_analysis = []
       /\ extraction_errors Samples.sample_analysis = [])
  /\ (success Samples.sample_analysis = true -> _format_errors Samples.sample_analysis = "").
Proof. apply (_format_errors_empty Samples.sample_analysis). Defined.

End StorageFacts.

(** ** The two fetchers *)

Section FetcherFacts.
Import Models Fetcher JobRunner Samples.
Local Open Scope list_scope.

Lemma app_literal_nonempty (c : ascii) (p m : string) : String c p +:+ m <> "".
Proof. rewrite string_app_cons. discriminate. Qed.

Lemma raw_contract client_get elapsed_ms self url timeout :
  exists answer,
    raw_fetch_with client_get elapsed_ms self url timeout = Ok answer
    /\ answer_for raw_original_url url answer.
Proof.
  unfold raw_fetch_with.
  destruct (client_get url timeout) as [response| |text|e]; eexists; (split; [reflexivity|]).
  - constructor. reflexivity.
  - constructor. apply app_literal_nonempty.
  - constructor. apply app_literal_nonempty.
  - constructor. apply app_literal_nonempty.
Qed.

(** X18: however the request ends, [RawHTMLFetcher.fetch] raises nothing
    and keeps its contract: it answers with a result for the URL and no
    message, or with no result and a message that is not empty. *)
Theorem raw_fetch_with_keeps_contract client_get elapsed_ms self url timeout :
  exists answer,
    raw_fetch_with client_get elapsed_ms self url timeout = Ok answer
    /\ answer_for raw_original_url url answer.
Proof. apply raw_contract. Qed.

Lemma render_answers frames self browser elapsed_ms url timeout answer :
  render frames self browser elapsed_ms url timeout = Ok answer ->
  answer_for rendered_original_url url answer
  /\ forall r, answer.1 = Some r -> rendered_success r = true.
Proof.
  unfold render.
  destruct (goto browser url timeout) as [[|]|e]; simpl.
  - destruct (_wait_for_content frames self (page browser) timeout).2 as [[]|e]; simpl.
    + destruct (content browser) as [html|e]; simpl.
      * destruct (close browser) as [[]|e]; simpl.
        -- intros [= <-]. split; [constructor; reflexivity|]. intros r [= <-]. reflexivity.
        -- destruct e; destruct (close browser); simpl; intros [= <-]; congruence.
      * destruct e; destruct (close browser) as [[]|e']; simpl; intros [= <-];
          (split; [constructor; apply app_literal_nonempty|discriminate]).
    + destruct e; destruct (close browser) as [[]|e']; simpl; intros [= <-];
        (split; [constructor; apply app_literal_nonempty|discriminate]).
  - destruct (close browser) as [[]|e] eqn:Ec; simpl.
    + intros [= <-]. split; [constructor; discriminate|discriminate].
    + destruct e; rewrite ?Ec; simpl; discriminate.
  - destruct e; destruct (close browser) as [[]|e']; simpl; intros [= <-];
      (split; [constructor; apply app_literal_nonempty|discriminate]).
Qed.

Lemma rendered_contract frames browser elapsed_ms self url timeout :
  exists answer,
    rendered_fetch_with frames browser elapsed_ms self url timeout = Ok answer
    /\ answer_for rendered_original_url url answer
    /\ forall r, answer.1 = Some r -> rendered_success r = true.
Proof.
  unfold rendered_fetch_with, leaving.
  pose proof (render_answers frames self browser elapsed_ms url timeout) as Hr.
  destruct (playwright_enter browser) as [[]|e0]; simpl;
    [destruct (launch browser) as [[]|e1]; simpl;
     [destruct (new_page browser) as [[]|e2]; simpl;
      [destruct (set_extra_http_headers browser) as [[]|e3]; simpl;
       [destruct (render frames self browser elapsed_ms url timeout) as [answer|e4]|]|]|];
     destruct (playwright_exit browser) as [[]|e5]; simpl|].
  1: { exists answer. split; [reflexivity|]. apply Hr. reflexivity. }
  all: eexists; (split; [reflexivity|]);
    (split; [constructor; apply app_literal_nonempty|discriminate]).
Qed.

(** X19: whatever the browser does, also when closing it fails inside a
    handler, [JSRenderedFetcher.fetch] raises nothing and keeps its
    contract: a result for the URL, flagged successful, and no message, or
    no result and a message that is not empty. *)
Theorem rendered_fetch_with_keeps_contract frames browser elapsed_ms self url timeout :
  exists answer,
    rendered_fetch_with frames browser elapsed_ms self url timeout = Ok answer
    /\ answer_for rendered_original_url url answer
    /\ forall r, answer.1 = Some r -> rendered_success r = true.
Proof. apply rendered_contract. Qed.

Lemma render_unrecognised frames self browser elapsed_ms url timeout answer :
  recognised (wait_strategy self) = false ->
  render frames self browser elapsed_ms url timeout = Ok answer ->
  answer.1 = None.
Proof.
  intros Hs. unfold render.
  rewrite (_wait_for_content_unrecognised frames self (page browser) timeout Hs).
  destruct (goto browser url timeout) as [[|]|e]; simpl.
  - destruct (close browser) as [[]|e']; simpl; [|discriminate].
    intros [= <-]. reflexivity.
  - destruct (close browser) as [[]|e'] eqn:Ec; simpl.
    + intros [= <-]. reflexivity.
    + destruct e'; rewrite ?Ec; discriminate.
  - destruct e; destruct (close browser) as [[]|e']; simpl; intros [= <-]; reflexivity.
Qed.

Lemma unrecognised_never_renders frames browser elapsed_ms self url timeout :
  recognised (wait_strategy self) = false ->
  exists m, m <> ""
    /\ rendered_fetch_with frames browser elapsed_ms self url timeout = Ok (None, Some m).
Proof.
  intros Hs.
  destruct (rendered_contract frames browser elapsed_ms self url timeout)
    as (answer & E & Ha & _).
  destruct Ha as [r Hr|m Hm]; [|exists m; auto].
  exfalso. revert E. unfold rendered_fetch_with, leaving.
  pose proof (render_unrecognised frames self browser elapsed_ms url timeout) as Hn.
  destruct (playwright_enter browser) as [[]|e0]; simpl;
    [destruct (launch browser) as [[]|e1]; simpl;
     [destruct (new_page browser) as [[]|e2]; simpl;
      [destruct (set_extra_http_headers browser) as [[]|e3]; simpl;
       [destruct (render frames self browser elapsed_ms url timeout) as [answer|e4]|]|]|];
     destruct (playwright_exit browser) as [[]|e5]; simpl|]; try discriminate.
  intros [= ->]. specialize (Hn _ Hs eq_refl). discriminate.
Qed.

(** X20: a rendered fetcher whose wait strategy is none of
    [network_idle], [load] and [timeout] never delivers a page: whatever
    the browser does and however many frames the interpreter allows, the
    fetch answers with no result and an error message. *)
Theorem unrecognised_strategy_never_renders frames browser elapsed_ms self url timeout :
  recognised (wait_strategy self) = false ->
  exists m, m <> ""
    /\ rendered_fetch_with frames browser elapsed_ms self url timeout = Ok (None, Some m).
Proof. apply unrecognised_never_renders. Qed.

Lemma unrecognised_strategy_never_renders_witness :
  exists m, m <> ""
    /\ rendered_fetch_with 1000 sample_browser 7 (fetcher_with "networkidle")
         "http://a.example" 30000
       = Ok (None, Some m).
Proof.
  apply (unrecognised_strategy_never_renders 1000 sample_browser 7
           (fetcher_with "networkidle") "http://a.example" 30000).
  reflexivity.
Defined.

End FetcherFacts.

(** ** The pipeline on the fetchers of the repository *)

Section RepositoryPipeline.
Import Models Fetcher JobRunner Samples.
Local Open Scope list_scope.

Variable set_order : gset string -> list string.
Variable html_parser : string -> Dom.node.
Variable urljoin : string -> string -> result string.
Variable urlparse_netloc : string -> result string.
Variable differ_compare : ExtractedContent -> ExtractedContent -> result DifferenceReport.
Variable frames : nat.
Variables fetch_timeout render_timeout : Z.
Variables clock_start clock_end : Z.
Variable client_get : string -> Z -> httpx_outcome.
Variable browser_for : string -> Browser.
Variables raw_elapsed_ms rendered_elapsed_ms : string -> Z.
Variable raw_self : RawHTMLFetcher.
Variable js_self : JSRenderedFetcher.
Variable wait_frames : nat.

Local Abbreviation the_raw_fetcher :=
  (repository_raw_fetcher client_get raw_elapsed_ms raw_self).
Local Abbreviation the_js_fetcher :=
  (repository_js_fetcher browser_for rendered_elapsed_ms js_self wait_frames).
Local Abbreviation process_url :=
  (_process_url (raw_fetcher := the_raw_fetcher) (js_fetcher := the_js_fetcher)
     html_parser urljoin urlparse_netloc differ_compare frames
     fetch_timeout render_timeout).
Local Abbreviation run_job :=
  (run_job_async set_order (raw_fetcher := the_raw_fetcher) (js_fetcher := the_js_fetcher)
     html_parser urljoin urlparse_netloc differ_compare frames
     fetch_timeout render_timeout clock_start clock_end).

Local Arguments message : simpl never.

Lemma message_of_error (m : string) : m <> "" -> message (Some m) = [m].
Proof.
  intros H. unfold message, Dom.nonempty.
  destruct (String.eqb_spec m ""); [contradiction|reflexivity].
Qed.

(** X21: with the two fetchers of the repository [_process_url] never
    raises, so no task of a job ends with an exception; a raw fetch that
    failed leaves exactly one fetch error, and after a raw fetch that
    succeeded there is no fetch error and the rendered fetch either
    succeeded without a render error or failed with exactly one. *)
Theorem _process_url_never_raises (url : string) :
  exists a,
    _process_url (raw_fetcher := the_raw_fetcher) (js_fetcher := the_js_fetcher)
      html_parser urljoin urlparse_netloc differ_compare frames
      fetch_timeout render_timeout url = Ok a
    /\ (raw_fetch a = None -> exists m, fetch_errors a = [m])
    /\ (raw_fetch a <> None -> fetch_errors a = []
                               /\ (rendered_fetch a = None -> exists m, render_errors a = [m])
                               /\ (rendered_fetch a <> None -> render_errors a = [])).
Proof.
  unfold _process_url, fetch, repository_raw_fetcher, repository_js_fetcher.
  destruct (raw_contract client_get (raw_elapsed_ms url) raw_self url
              fetch_timeout) as (raw_answer & -> & Hraw).
  destruct Hraw as [r Hr|m Hm]; simpl.
  - destruct (rendered_contract wait_frames (browser_for url)
                (rendered_elapsed_ms url) js_self url render_timeout)
      as (js_answer & -> & Hjs & _).
    destruct Hjs as [r' Hr'|m Hm]; simpl.
    + repeat match goal with
             | |- context [let '(_, _) := ?x in _] => destruct x
             end.
      eexists. split; [reflexivity|]. cbn.
      split; [discriminate|]. intros _. split; [reflexivity|].
      split; [discriminate|reflexivity].
    + repeat match goal with
             | |- context [let '(_, _) := ?x in _] => destruct x
             end.
      eexists. split; [reflexivity|]. cbn.
      split; [discriminate|]. intros _. split; [reflexivity|].
      rewrite (message_of_error m Hm). split; [eauto|congruence].
  - eexists. split; [reflexivity|]. cbn. rewrite (message_of_error m Hm).
    split; [eauto|congruence].
Qed.

(** X22: when the wait strategy given to the job runner is none of
    [network_idle], [load] and [timeout], no URL of any job succeeds:
    every analysis is a failure without rendered fetch and without
    report, and the count of succeeded URLs is 0. *)
Theorem unrecognised_strategy_fails_every_url (urls : list string) :
  recognised (wait_strategy js_self) = false ->
  urls_succeeded (run_job urls) = 0%Z
  /\ Forall (fun a => success a = false
                      /\ rendered_fetch a = None /\ differences a = None)
       (results (run_job urls)).
Proof.
  intros Hs.
  assert (Hone : forall url,
             let a := analysis_of url (process_url url) in
             success a = false /\ rendered_fetch a = None /\ differences a = None).
  { intros url. unfold _process_url, fetch, repository_raw_fetcher, repository_js_fetcher.
    destruct (raw_contract client_get (raw_elapsed_ms url) raw_self url
                fetch_timeout) as (raw_answer & -> & Hraw).
    destruct Hraw as [r Hr|m Hm]; simpl.
    - destruct (unrecognised_never_renders wait_frames (browser_for url)
                  (rendered_elapsed_ms url) js_self url render_timeout Hs)
        as (m & Hm & ->). simpl.
      destruct (guarded "Raw content extraction failed: " _) as [[raw|] errors1];
        cbn; rewrite (message_of_error m Hm); unfold success; cbn;
        rewrite ?andb_false_r; auto.
    - unfold success. cbn. rewrite ?andb_false_r. auto. }
  assert (Hall : Forall (fun a => success a = false
                                  /\ rendered_fetch a = None /\ differences a = None)
                   (results (run_job urls))).
  { unfold run_job_async. cbn [results].
    generalize (_validate_and_deduplicate set_order urls). intros l.
    induction l as [|url l IH]; simpl; [constructor|].
    constructor; [apply Hone|exact IH]. }
  split; [|exact Hall].
  change (urls_succeeded (run_job urls))
    with (Z.of_nat (length (List.filter success (results (run_job urls))))).
  induction Hall as [|a l (Ha & _) _ IH]; [reflexivity|].
  simpl. rewrite Ha. exact IH.
Qed.

Lemma success_iff_report_one (url : string) :
  let a := analysis_of url (process_url url) in
  success a = true <-> exists d, differences a = Some d.
Proof.
  unfold _process_url, fetch, repository_raw_fetcher, repository_js_fetcher.
  destruct (raw_contract client_get (raw_elapsed_ms url) raw_self url
              fetch_timeout) as (raw_answer & -> & Hraw).
  destruct Hraw as [r Hr|m Hm]; simpl.
  - destruct (rendered_contract wait_frames (browser_for url)
                (rendered_elapsed_ms url) js_self url render_timeout)
      as (js_answer & -> & Hjs & Hflag).
    destruct Hjs as [r' Hr'|m Hm]; simpl.
    + rewrite (Hflag r' eq_refl).
      destruct (run_extract html_parser urljoin urlparse_netloc frames (raw_url r) (raw_html r))
        as [raw|e1]; simpl;
      destruct (run_extract html_parser urljoin urlparse_netloc frames
                  (rendered_url r') (rendered_html r')) as [rendered|e2]; simpl;
      try destruct (differ_compare raw rendered) as [d|e3]; simpl;
      unfold success; cbn; split; try discriminate; eauto;
        intros [d' Hd']; discriminate.
    + destruct (guarded "Raw content extraction failed: " _) as [[raw|] errors1];
        cbn; rewrite (message_of_error m Hm); unfold success; cbn;
        rewrite ?andb_false_r; (split; [discriminate|intros [d' Hd']; discriminate]).
  - unfold success. cbn. rewrite (message_of_error m Hm). cbn.
    split; [discriminate|intros [d' Hd']; discriminate].
Qed.

(** X26: with the two fetchers of the repository, an analysis of a job is
    successful exactly when it carries a difference report, whatever the
    parser and the differ do. *)
Theorem success_is_having_a_report (urls : list string) :
  Forall (fun a => success a = true <-> exists d, differences a = Some d)
    (results (run_job urls)).
Proof.
  unfold run_job_async. cbn [results].
  generalize (_validate_and_deduplicate set_order urls). intros l.
  induction l as [|url l IH]; simpl; [constructor|].
  constructor; [apply success_iff_report_one|exact IH].
Qed.

End RepositoryPipeline.

Section RepositoryExamples.
Import Models Fetcher JobRunner Samples.

Lemma unrecognised_strategy_fails_every_url_witness :
  urls_succeeded
    (run_job_async descending
       (raw_fetcher := repository_raw_fetcher sample_client_get (fun _ => 5%Z)
                         (mkRawHTMLFetcher "Mozilla/5.0" true))
       (js_fetcher := repository_js_fetcher (fun _ => sample_browser) (fun _ => 7%Z)
                        (fetcher_with "networkidle") 1000)
       sample_parser sample_urljoin sample_netloc sample_compare 100 30000 30000 0 1
       sample_urls) = 0%Z
  /\ Forall (fun a => success a = false
                      /\ rendered_fetch a = None /\ differences a = None)
       (results
          (run_job_async descending
             (raw_fetcher := repository_raw_fetcher sample_client_get (fun _ => 5%Z)
                               (mkRawHTMLFetcher "Mozilla/5.0" true))
             (js_fetcher := repository_js_fetcher (fun _ => sample_browser) (fun _ => 7%Z)
                              (fetcher_with "networkidle") 1000)
             sample_parser sample_urljoin sample_netloc sample_compare 100 30000 30000 0 1
             sample_urls)).
Proof.
  apply (unrecognised_strategy_fails_every_url descending sample_parser sample_urljoin
           sample_netloc sample_compare 100 30000 30000 0 1 sample_client_get
           (fun _ => sample_browser) (fun _ => 5%Z) (fun _ => 7%Z)
           (mkRawHTMLFetcher "Mozilla/5.0" true) (fetcher_with "networkidle") 1000
           sample_urls).
  reflexivity.
Defined.

End RepositoryExamples.

(** ** The wait strategies on a page that never settles *)

Section WaitStrategyFacts.
Import Models Fetcher Samples.

(** X27: on a page whose load state is never reached in time, in a
    browser that otherwise works, the strategy [network_idle] still
    delivers the page as it is, while the strategy [load] gives no result
    and the message "Render timeout after <timeout>ms". *)
Theorem network_idle_tolerates_timeout frames browser elapsed_ms url timeout html
    (idle_self load_self : JSRenderedFetcher) :
  wait_strategy idle_self = "network_idle" ->
  wait_strategy load_self = "load" ->
  steady_but_for_wait browser html ->
  (forall state t, wait_for_load_state (page browser) state t = Raise PlaywrightTimeoutError) ->
  rendered_fetch_with (S frames) browser elapsed_ms idle_self url timeout
  = Ok (Some (mkRenderedFetchResult (page_url browser) url html true elapsed_ms None), None)
  /\ rendered_fetch_with (S frames) browser elapsed_ms load_self url timeout
     = Ok (None, Some ("Render timeout after " +:+ Py.str_int timeout +:+ "ms")).
Proof.
  intros Hidle Hload (H1 & H2 & H3 & H4 & H5 & H6 & H7 & H8) Hw.
  unfold rendered_fetch_with, leaving, render.
  rewrite H1, H2, H3, H4, H8.
  split; cbn; rewrite ?H5, ?Hidle, ?Hload, ?Hw; cbn; rewrite ?H6, ?H7; cbn; rewrite ?H7;
    reflexivity.
Qed.

Lemma network_idle_tolerates_timeout_witness :
  rendered_fetch_with 1000 restless_browser 7 (fetcher_with "network_idle")
    "http://a.example" 30000
  = Ok (Some (mkRenderedFetchResult (page_url restless_browser) "http://a.example"
                "<p>hi</p>" true 7 None), None)
  /\ rendered_fetch_with 1000 restless_browser 7 (fetcher_with "load")
       "http://a.example" 30000
     = Ok (None, Some ("Render timeout after " +:+ Py.str_int 30000 +:+ "ms")).
Proof.
  apply (network_idle_tolerates_timeout 999 restless_browser 7 "http://a.example" 30000
           "<p>hi</p>" (fetcher_with "network_idle") (fetcher_with "load")).
  - reflexivity.
  - reflexivity.
  - repeat split.
  - reflexivity.
Defined.

End WaitStrategyFacts.
